(** * Form_Modernization: field placement, selection and persistence

    A shallow embedding of the client-side editors of the PDF form
    digitalization system:

    - [Portfolio]: static/js/designpage_portfolio.js (portfolio design page),
    - [Design]:    static/js/designpage.js (non-portfolio design page),
    - [Fill]:      static/js/editpage_portfolio.js (portfolio fill page).

    Conventions of the embedding.

    - JavaScript numbers that carry coordinates, sizes and zoom factors are
      exact rationals ([Q]); rounding of IEEE doubles is not modelled, and
      equations between computed coordinates are stated with [==].
      Page numbers and indices are integers ([Z]).
    - Field descriptors are JavaScript objects that are shared by reference
      (the field list, the active field, closures of the properties panel).
      Objects live in a heap (a list indexed by reference); the field list
      is a list of references.  Allocation appends to the heap.
    - Event handlers are functions from the state before the event to the
      state after it.  What a handler reads from the browser (mouse
      position, bounding rectangle, prompt answer, clock, random number)
      is a parameter of the event.  Rendering is a function from the state
      to what is drawn. *)

From Stdlib Require Import ZArith QArith Lia Lqa Ascii.
From stdpp Require Import base list strings gmap pretty sorting.

Local Open Scope Z_scope.

(** ** JavaScript helpers *)

(** A reference to a heap object. *)
Definition ref := nat.

(** [new Object]: the fresh object goes to the end of the heap. *)
Definition alloc {A} (h : list A) (o : A) : list A * ref := (h ++ [o], length h).

(** [arr.forEach(o => mutate o)] over an array of references. *)
Definition forEach {A} (f : A -> A) (refs : list ref) (h : list A) : list A :=
  foldl (fun h' r => alter f r h') h refs.

(** [arr.forEach((o, i) => mutate o i)]: the callback also sees the index. *)
Definition forEachIndexed {A} (f : nat -> A -> A) (refs : list ref) (h : list A) : list A :=
  foldl (fun h' ir => alter (f ir.1) ir.2 h') h (imap (fun i r => (i, r)) refs).

(** [arr.findIndex(pred)]: the first position whose element satisfies
    [pred], and -1 when there is none. *)
Fixpoint findIndexFrom {A} (p : A -> bool) (l : list A) (i : Z) : Z :=
  match l with
  | [] => -1
  | a :: l' => if p a then i else findIndexFrom p l' (i + 1)
  end.

Definition findIndex {A} (p : A -> bool) (l : list A) : Z := findIndexFrom p l 0.

(** [arr.find(pred)]. *)
Fixpoint find_first {A} (p : A -> bool) (l : list A) : option A :=
  match l with
  | [] => None
  | a :: l' => if p a then Some a else find_first p l'
  end.

(** [arr.splice(i, 1)] for an index [0 <= i]. *)
Definition splice1 {A} (i : Z) (l : list A) : list A :=
  take (Z.to_nat i) l ++ drop (S (Z.to_nat i)) l.

(** [arr[i]] for an integer index; [None] is [undefined]. *)
Definition at_index {A} (l : list A) (i : Z) : option A :=
  if (i <? 0) then None else l !! Z.to_nat i.

(** Truthiness of a string-or-null value: [null] and the empty string
    are falsy. *)
Definition truthy (s : option string) : bool :=
  match s with
  | Some EmptyString => false
  | Some _ => true
  | None => false
  end.

(** [c.toUpperCase()] on one ASCII character. *)
Definition upper_ascii (c : ascii) : ascii :=
  let n := nat_of_ascii c in
  if (97 <=? n)%nat && (n <=? 122)%nat then ascii_of_nat (n - 32) else c.

(** [s.charAt(0).toUpperCase() + s.slice(1)]. *)
Definition capitalize (s : string) : string :=
  match s with
  | EmptyString => EmptyString
  | String c s' => String (upper_ascii c) s'
  end.

(** Rationals compared as booleans. *)
Definition Qgeb (a b : Q) : bool := Qle_bool b a.
Definition Qltb (a b : Q) : bool := negb (Qle_bool b a).
Definition Qgtb (a b : Q) : bool := negb (Qle_bool a b).

(** [Math.max] and [Math.abs]. *)
Definition Math_max (a b : Q) : Q := if Qle_bool a b then b else a.
Definition Math_abs (a : Q) : Q := if Qle_bool 0 a then a else Qopp a.

(** A JSON value of the kinds a field descriptor holds. *)
Inductive JSVal :=
| JStr (s : string)
| JNum (q : Q)
| JInt (z : Z)
| JBool (b : bool).

(** A JSON object: its properties in insertion order. *)
Definition JSObject := list (string * JSVal).

(** [obj[key]]; [None] is [undefined]. *)
Fixpoint prop (key : string) (o : JSObject) : option JSVal :=
  match o with
  | [] => None
  | (k, v) :: o' => if String.eqb k key then Some v else prop key o'
  end.

(** A mouse event as the handlers read it: pointer position and the
    bounding rectangle of the element the coordinates are taken against. *)
Record MouseEvent := {
  clientX : Q;
  clientY : Q;
  rectLeft : Q;
  rectTop : Q;
  rectWidth : Q;
  rectHeight : Q;
  shiftKey : bool
}.

(** A rectangle in canvas pixels, as drawn or positioned on screen. *)
Record Rect := {
  left : Q;
  top : Q;
  rwidth : Q;
  rheight : Q
}.

(** ** The portfolio design page (designpage_portfolio.js) *)

Module Portfolio.

(** A field descriptor as [addFormField] builds it.  [id = None] is a
    descriptor without an id property, as descriptors read back from a
    persisted schema are. *)
Record Field := {
  id : option string;
  name : string;
  type : string;
  x : Q;
  y : Q;
  width : Q;
  height : Q;
  page : Z;
  required : bool;
  read_only : bool;
  default_value : string
}.

Record FieldTypeInfo := {
  label : string;
  icon : string;
  defaultHeight : Q;
  defaultWidth : Q
}.

(** The [fieldTypes] table, in the order of its keys. *)
Definition fieldTypes : list (string * FieldTypeInfo) :=
  [ ("text", {| label := "Text Input"; icon := "edit"; defaultHeight := 40; defaultWidth := 200 |});
    ("checkbox", {| label := "Checkbox"; icon := "check_box"; defaultHeight := 40; defaultWidth := 40 |});
    ("signature", {| label := "Signature"; icon := "draw"; defaultHeight := 80; defaultWidth := 200 |});
    ("date", {| label := "Date Field"; icon := "calendar_today"; defaultHeight := 40; defaultWidth := 200 |}) ].

(** [fieldTypes[type]]. *)
Fixpoint lookupType (t : string) (tbl : list (string * FieldTypeInfo)) : option FieldTypeInfo :=
  match tbl with
  | [] => None
  | (k, info) :: tbl' => if String.eqb k t then Some info else lookupType t tbl'
  end.

(** [fieldTypes[type]?.prop || dflt]: a missing entry and a zero are
    both replaced by the default. *)
Definition orDefault (v : option Q) (dflt : Q) : Q :=
  match v with
  | Some q => if Qeq_bool q 0 then dflt else q
  | None => dflt
  end.

(** The global variables of the script. *)
Record State := {
  heap : list Field;
  formFields : list ref;
  activeField : option ref;
  isDragging : bool;
  startX : Q;
  startY : Q;
  fieldTypeToAdd : option string;
  isPlacingField : bool;
  currentPage : Z;
  totalPages : Z;
  currentScale : Q;
  fileId : option string
}.

Definition initial (file : option string) (pages : Z) : State :=
  {| heap := []; formFields := []; activeField := None; isDragging := false;
     startX := 0; startY := 0; fieldTypeToAdd := None; isPlacingField := false;
     currentPage := 1; totalPages := pages; currentScale := 1; fileId := file |}.

Definition set_heap (h : list Field) (st : State) : State :=
  {| heap := h; formFields := formFields st; activeField := activeField st;
     isDragging := isDragging st; startX := startX st; startY := startY st;
     fieldTypeToAdd := fieldTypeToAdd st; isPlacingField := isPlacingField st;
     currentPage := currentPage st; totalPages := totalPages st;
     currentScale := currentScale st; fileId := fileId st |}.

Definition set_formFields (l : list ref) (st : State) : State :=
  {| heap := heap st; formFields := l; activeField := activeField st;
     isDragging := isDragging st; startX := startX st; startY := startY st;
     fieldTypeToAdd := fieldTypeToAdd st; isPlacingField := isPlacingField st;
     currentPage := currentPage st; totalPages := totalPages st;
     currentScale := currentScale st; fileId := fileId st |}.

Definition set_activeField (a : option ref) (st : State) : State :=
  {| heap := heap st; formFields := formFields st; activeField := a;
     isDragging := isDragging st; startX := startX st; startY := startY st;
     fieldTypeToAdd := fieldTypeToAdd st; isPlacingField := isPlacingField st;
     currentPage := currentPage st; totalPages := totalPages st;
     currentScale := currentScale st; fileId := fileId st |}.

Definition set_drag (d : bool) (sx sy : Q) (st : State) : State :=
  {| heap := heap st; formFields := formFields st; activeField := activeField st;
     isDragging := d; startX := sx; startY := sy;
     fieldTypeToAdd := fieldTypeToAdd st; isPlacingField := isPlacingField st;
     currentPage := currentPage st; totalPages := totalPages st;
     currentScale := currentScale st; fileId := fileId st |}.

Definition set_placing (t : option string) (p : bool) (st : State) : State :=
  {| heap := heap st; formFields := formFields st; activeField := activeField st;
     isDragging := isDragging st; startX := startX st; startY := startY st;
     fieldTypeToAdd := t; isPlacingField := p;
     currentPage := currentPage st; totalPages := totalPages st;
     currentScale := currentScale st; fileId := fileId st |}.

Definition set_currentPage (p : Z) (st : State) : State :=
  {| heap := heap st; formFields := formFields st; activeField := activeField st;
     isDragging := isDragging st; startX := startX st; startY := startY st;
     fieldTypeToAdd := fieldTypeToAdd st; isPlacingField := isPlacingField st;
     currentPage := p; totalPages := totalPages st;
     currentScale := currentScale st; fileId := fileId st |}.

Definition set_currentScale (s : Q) (st : State) : State :=
  {| heap := heap st; formFields := formFields st; activeField := activeField st;
     isDragging := isDragging st; startX := startX st; startY := startY st;
     fieldTypeToAdd := fieldTypeToAdd st; isPlacingField := isPlacingField st;
     currentPage := currentPage st; totalPages := totalPages st;
     currentScale := s; fileId := fileId st |}.

(** The field objects of the list, in list order (references that point
    nowhere are dropped; the handlers never create one). *)
Definition fields (st : State) : list Field :=
  omap (fun r => heap st !! r) (formFields st).

(** Property updates on one field object. *)
Definition with_name (n : string) (f : Field) : Field :=
  {| id := id f; name := n; type := type f; x := x f; y := y f;
     width := width f; height := height f; page := page f;
     required := required f; read_only := read_only f;
     default_value := default_value f |}.

Definition with_required (b : bool) (f : Field) : Field :=
  {| id := id f; name := name f; type := type f; x := x f; y := y f;
     width := width f; height := height f; page := page f;
     required := b; read_only := read_only f;
     default_value := default_value f |}.

Definition with_read_only (b : bool) (f : Field) : Field :=
  {| id := id f; name := name f; type := type f; x := x f; y := y f;
     width := width f; height := height f; page := page f;
     required := required f; read_only := b;
     default_value := default_value f |}.

Definition moved_by (dx dy : Q) (f : Field) : Field :=
  {| id := id f; name := name f; type := type f;
     x := (x f + dx)%Q; y := (y f + dy)%Q;
     width := width f; height := height f; page := page f;
     required := required f; read_only := read_only f;
     default_value := default_value f |}.

(** An absolutely positioned field element of the overlay. *)
Record FieldElement := {
  element_field : ref;
  data_field_id : string;
  element_rect : Rect;
  element_label : string
}.

(** The canvas rectangle of a field at zoom [s]. *)
Definition fieldRect (s : Q) (f : Field) : Rect :=
  {| left := (x f * s)%Q; top := (y f * s)%Q;
     rwidth := (width f * s)%Q; rheight := (height f * s)%Q |}.

(** [renderFormFields(pageNumber)]: the content of the overlay after the
    call, one element per field of that page. *)
Definition renderFormFields (st : State) (pageNumber : Z) : list FieldElement :=
  omap (fun r =>
          match heap st !! r with
          | Some f =>
              if (page f =? pageNumber)
              then Some {| element_field := r;
                           data_field_id := default "undefined" (id f);
                           element_rect := fieldRect (currentScale st) f;
                           element_label := name f |}
              else None
          | None => None
          end)
       (formFields st).

(** [selectFieldType(type)]. *)
Definition selectFieldType (t : string) (st : State) : State :=
  if decide (fieldTypeToAdd st = Some t)
  then set_placing None false st
  else set_placing (Some t) true st.

(** [addFormField(type, x, y, page)]; [now] and [rand] are the values of
    [Date.now()] and [Math.floor(Math.random() * 1000)].  Returns the new
    state and the id of the field. *)
Definition addFormField (t : string) (px py : Q) (pg : Z) (now rand : Z)
    (st : State) : State * string :=
  let fieldId := "field_" +:+ pretty now +:+ "_" +:+ pretty rand in
  let defaultWidth_ := orDefault (defaultWidth <$> lookupType t fieldTypes) 200 in
  let defaultHeight_ := orDefault (defaultHeight <$> lookupType t fieldTypes) 40 in
  let field :=
    {| id := Some fieldId;
       name := capitalize t +:+ "_" +:+ pretty (Z.of_nat (length (formFields st)) + 1);
       type := t;
       x := px; y := py;
       width := defaultWidth_; height := defaultHeight_;
       page := pg;
       required := false; read_only := false; default_value := "" |} in
  let '(h, r) := alloc (heap st) field in
  (set_activeField (Some r) (set_formFields (formFields st ++ [r]) (set_heap h st)),
   fieldId).

(** [handleOverlayClick(e)]. *)
Definition handleOverlayClick (e : MouseEvent) (now rand : Z) (st : State) : State :=
  if negb (isPlacingField st) || negb (truthy (fieldTypeToAdd st)) then st
  else
    let px := ((clientX e - rectLeft e) / currentScale st)%Q in
    let py := ((clientY e - rectTop e) / currentScale st)%Q in
    let st1 := (addFormField (default "" (fieldTypeToAdd st)) px py (currentPage st) now rand st).1 in
    set_placing None false st1.

(** [deselectField()]. *)
Definition deselectField (st : State) : State := set_activeField None st.

(** [f.id === fieldId]. *)
Definition id_is (st : State) (fieldId : option string) (r : ref) : bool :=
  match heap st !! r with
  | Some f => bool_decide (id f = fieldId)
  | None => false
  end.

(** [selectField(fieldId)]. *)
Definition selectField (fieldId : option string) (st : State) : State :=
  match find_first (id_is st fieldId) (formFields st) with
  | None => st
  | Some r => set_activeField (Some r) st
  end.

(** [if (input) activeField.prop = input.value]: the assignment is made
    when the input element exists. *)
Definition assignIfPresent {V} (input : option V) (assign : V -> Field -> Field)
    (a : ref) (h : list Field) : list Field :=
  match input with
  | Some v => alter (assign v) a h
  | None => h
  end.

(** [updateSelectedField()].  The three arguments are the values of the
    inputs [fieldName], [required] and [readonly]; [None] when the
    element is not in the document. *)
Definition updateSelectedField (nameInput : option string)
    (requiredCheckbox readonlyCheckbox : option bool) (st : State) : State :=
  match activeField st with
  | None => st
  | Some a =>
      let h1 := assignIfPresent nameInput with_name a (heap st) in
      let h2 := assignIfPresent requiredCheckbox with_required a h1 in
      let h3 := assignIfPresent readonlyCheckbox with_read_only a h2 in
      let st1 := set_heap h3 st in
      match heap st1 !! a with
      | None => st1
      | Some f =>
          let index := findIndex (id_is st1 (id f)) (formFields st1) in
          if (index =? -1) then st1
          else set_formFields (<[Z.to_nat index := a]> (formFields st1)) st1
      end
  end.

(** [deleteSelectedField()]. *)
Definition deleteSelectedField (st : State) : State :=
  match activeField st with
  | None => st
  | Some a =>
      let fieldIndex :=
        match heap st !! a with
        | Some f => findIndex (id_is st (id f)) (formFields st)
        | None => -1
        end in
      let st1 := if (fieldIndex =? -1) then st
                 else set_formFields (splice1 fieldIndex (formFields st)) st in
      deselectField st1
  end.

(** The field object seen as a JSON object with all its properties. *)
Definition descriptor (f : Field) : JSObject :=
  match id f with
  | Some i => [("id", JStr i)]
  | None => []
  end ++
  [ ("name", JStr (name f)); ("type", JStr (type f));
    ("x", JNum (x f)); ("y", JNum (y f));
    ("width", JNum (width f)); ("height", JNum (height f));
    ("page", JInt (page f)); ("required", JBool (required f));
    ("read_only", JBool (read_only f));
    ("default_value", JStr (default_value f)) ].

(** The clean copy of a field that [saveForm] puts in the schema. *)
Definition cleanCopy (f : Field) : JSObject :=
  [ ("name", JStr (name f)); ("type", JStr (type f));
    ("x", JNum (x f)); ("y", JNum (y f));
    ("width", JNum (width f)); ("height", JNum (height f));
    ("page", JInt (page f)); ("required", JBool (required f));
    ("default_value", JStr (default_value f)) ].

(** The body of the request of [saveForm]. *)
Record SaveRequest := {
  file_id : string;
  schema_fields : list JSObject
}.

(** [saveForm()]: the request sent to /api/save-form-schema, and [None]
    when the file id is missing and nothing is sent. *)
Definition saveForm (st : State) : option SaveRequest :=
  if truthy (fileId st)
  then Some {| file_id := default "" (fileId st);
               schema_fields := map cleanCopy (fields st) |}
  else None.

(** [handleOverlayMouseDown(e)].  [target] is the [data-field-id]
    attribute of the field element under the pointer, and [None] on empty
    space. *)
Definition handleOverlayMouseDown (target : option string) (e : MouseEvent)
    (st : State) : State :=
  match target with
  | Some fieldId =>
      set_drag true (clientX e) (clientY e) (selectField (Some fieldId) st)
  | None => deselectField st
  end.

(** [handleOverlayMouseMove(e)]. *)
Definition handleOverlayMouseMove (e : MouseEvent) (st : State) : State :=
  match isDragging st, activeField st with
  | true, Some a =>
      let deltaX := ((clientX e - startX st) / currentScale st)%Q in
      let deltaY := ((clientY e - startY st) / currentScale st)%Q in
      set_drag true (clientX e) (clientY e)
        (set_heap (alter (moved_by deltaX deltaY) a (heap st)) st)
  | _, _ => st
  end.

(** [handleOverlayMouseUp(e)]. *)
Definition handleOverlayMouseUp (st : State) : State :=
  if isDragging st then set_drag false (startX st) (startY st) st else st.

(** The zoom buttons. *)
Definition zoomIn (st : State) : State :=
  set_currentScale (currentScale st + (1 # 10))%Q st.

Definition zoomOut (st : State) : State :=
  if Qgtb (currentScale st) (2 # 10)
  then set_currentScale (currentScale st - (1 # 10))%Q st
  else st.

(** Page navigation. *)
Definition prevPage (st : State) : State :=
  if (1 <? currentPage st) then set_currentPage (currentPage st - 1) st else st.

Definition nextPage (st : State) : State :=
  if (currentPage st <? totalPages st) then set_currentPage (currentPage st + 1) st else st.

(** The page-number input; [None] is a value [parseInt] does not read. *)
Definition pageNumberChange (newPage : option Z) (st : State) : State :=
  match newPage with
  | Some n => if (0 <? n) && (n <=? totalPages st) then set_currentPage n st else st
  | None => st
  end.

(** What the user can do on the page. *)
Inductive Event :=
| ToolbarButton (k : nat)
| OverlayClick (e : MouseEvent) (now rand : Z)
| FieldElementClick (fieldId : option string)
| OverlayMouseDown (target : option string) (e : MouseEvent)
| OverlayMouseMove (e : MouseEvent)
| OverlayMouseUp
| PropertyChange (nameInput : option string) (requiredCheckbox readonlyCheckbox : option bool)
| DeleteButton
| ZoomIn
| ZoomOut
| PrevPage
| NextPage
| PageNumberChange (newPage : option Z).

(** The handler bound to each event.  The toolbar has one button per key
    of [fieldTypes], each carrying its key as [data-type]. *)
Definition step (st : State) (ev : Event) : State :=
  match ev with
  | ToolbarButton k =>
      match fieldTypes !! k with
      | Some (t, _) => selectFieldType t st
      | None => st
      end
  | OverlayClick e now rand => handleOverlayClick e now rand st
  | FieldElementClick fieldId => selectField fieldId st
  | OverlayMouseDown target e => handleOverlayMouseDown target e st
  | OverlayMouseMove e => handleOverlayMouseMove e st
  | OverlayMouseUp => handleOverlayMouseUp st
  | PropertyChange n rq ro => updateSelectedField n rq ro st
  | DeleteButton => deleteSelectedField st
  | ZoomIn => zoomIn st
  | ZoomOut => zoomOut st
  | PrevPage => prevPage st
  | NextPage => nextPage st
  | PageNumberChange n => pageNumberChange n st
  end.

Definition run (st : State) (evs : list Event) : State := foldl step st evs.

(** The callback of [loadFormFields()] on the response of the server.
    [schemaFields] is the [fields] array of the schema in the response,
    [None] when the response has none; its descriptors are objects
    created by parsing the response.  The active field is left as it
    is. *)
Definition loadFormFields (schemaFields : option (list Field)) (st : State) : State :=
  let loaded := default [] schemaFields in
  set_formFields (seq (length (heap st)) (length loaded))
    (set_heap (heap st ++ loaded) st).

End Portfolio.

(** ** The non-portfolio design page (designpage.js) *)

Module Design.

(** A placed field as the canvas click handler builds it.  [page] is the
    0-based page index. *)
Record Field := {
  type : string;
  name : string;
  x : Q;
  y : Q;
  width : Q;
  height : Q;
  page : Z;
  required : bool;
  readonly : bool;
  fontSize : Q;
  selected : bool
}.

(** The variables of a drag or resize in progress. *)
Record Drag := {
  isDragging : bool;
  dragFieldIndex : Z;
  isResizing : bool;
  resizeDirection : string;
  startX : Q;
  startY : Q;
  originalX : Q;
  originalY : Q;
  originalWidth : Q;
  originalHeight : Q
}.

(** The properties panel: the inputs [fieldName], [required] and
    [readonly], and the field object their handlers write to
    ([None] when the handlers are unset). *)
Record Panel := {
  fieldNameInput : string;
  requiredCheckbox : bool;
  readonlyCheckbox : bool;
  boundField : option ref
}.

(** The global variables of the script.  [pdfDoc] lists the width and the
    height of every page of the loaded document in PDF points. *)
Record State := {
  heap : list Field;
  placedFields : list ref;
  currentFieldType : option string;
  pageNum : Z;
  scale : Q;
  pdfDoc : list (Q * Q);
  canvasWidth : Q;
  canvasHeight : Q;
  drag : Drag;
  panel : Panel;
  copiedField : option Field
}.

Definition noDrag : Drag :=
  {| isDragging := false; dragFieldIndex := -1; isResizing := false;
     resizeDirection := ""; startX := 0; startY := 0; originalX := 0;
     originalY := 0; originalWidth := 0; originalHeight := 0 |}.

Definition emptyPanel : Panel :=
  {| fieldNameInput := ""; requiredCheckbox := false; readonlyCheckbox := false;
     boundField := None |}.

Definition initial (pages : list (Q * Q)) : State :=
  {| heap := []; placedFields := []; currentFieldType := None; pageNum := 1;
     scale := 12 # 10; pdfDoc := pages; canvasWidth := 0; canvasHeight := 0;
     drag := noDrag; panel := emptyPanel; copiedField := None |}.

Definition set_heap (h : list Field) (st : State) : State :=
  {| heap := h; placedFields := placedFields st;
     currentFieldType := currentFieldType st; pageNum := pageNum st;
     scale := scale st; pdfDoc := pdfDoc st; canvasWidth := canvasWidth st;
     canvasHeight := canvasHeight st; drag := drag st; panel := panel st;
     copiedField := copiedField st |}.

Definition set_placedFields (l : list ref) (st : State) : State :=
  {| heap := heap st; placedFields := l;
     currentFieldType := currentFieldType st; pageNum := pageNum st;
     scale := scale st; pdfDoc := pdfDoc st; canvasWidth := canvasWidth st;
     canvasHeight := canvasHeight st; drag := drag st; panel := panel st;
     copiedField := copiedField st |}.

Definition set_currentFieldType (t : option string) (st : State) : State :=
  {| heap := heap st; placedFields := placedFields st;
     currentFieldType := t; pageNum := pageNum st;
     scale := scale st; pdfDoc := pdfDoc st; canvasWidth := canvasWidth st;
     canvasHeight := canvasHeight st; drag := drag st; panel := panel st;
     copiedField := copiedField st |}.

Definition set_pageNum (n : Z) (st : State) : State :=
  {| heap := heap st; placedFields := placedFields st;
     currentFieldType := currentFieldType st; pageNum := n;
     scale := scale st; pdfDoc := pdfDoc st; canvasWidth := canvasWidth st;
     canvasHeight := canvasHeight st; drag := drag st; panel := panel st;
     copiedField := copiedField st |}.

Definition set_canvas (w h : Q) (st : State) : State :=
  {| heap := heap st; placedFields := placedFields st;
     currentFieldType := currentFieldType st; pageNum := pageNum st;
     scale := scale st; pdfDoc := pdfDoc st; canvasWidth := w;
     canvasHeight := h; drag := drag st; panel := panel st;
     copiedField := copiedField st |}.

Definition set_drag (d : Drag) (st : State) : State :=
  {| heap := heap st; placedFields := placedFields st;
     currentFieldType := currentFieldType st; pageNum := pageNum st;
     scale := scale st; pdfDoc := pdfDoc st; canvasWidth := canvasWidth st;
     canvasHeight := canvasHeight st; drag := d; panel := panel st;
     copiedField := copiedField st |}.

Definition set_panel (p : Panel) (st : State) : State :=
  {| heap := heap st; placedFields := placedFields st;
     currentFieldType := currentFieldType st; pageNum := pageNum st;
     scale := scale st; pdfDoc := pdfDoc st; canvasWidth := canvasWidth st;
     canvasHeight := canvasHeight st; drag := drag st; panel := p;
     copiedField := copiedField st |}.

Definition set_copiedField (c : option Field) (st : State) : State :=
  {| heap := heap st; placedFields := placedFields st;
     currentFieldType := currentFieldType st; pageNum := pageNum st;
     scale := scale st; pdfDoc := pdfDoc st; canvasWidth := canvasWidth st;
     canvasHeight := canvasHeight st; drag := drag st; panel := panel st;
     copiedField := c |}.

(** The field objects of the list, in list order. *)
Definition fields (st : State) : list Field :=
  omap (fun r => heap st !! r) (placedFields st).

(** Property updates on one field object. *)
Definition with_name (n : string) (f : Field) : Field :=
  {| type := type f; name := n; x := x f; y := y f; width := width f;
     height := height f; page := page f; required := required f;
     readonly := readonly f; fontSize := fontSize f; selected := selected f |}.

Definition with_required (b : bool) (f : Field) : Field :=
  {| type := type f; name := name f; x := x f; y := y f; width := width f;
     height := height f; page := page f; required := b;
     readonly := readonly f; fontSize := fontSize f; selected := selected f |}.

Definition with_readonly (b : bool) (f : Field) : Field :=
  {| type := type f; name := name f; x := x f; y := y f; width := width f;
     height := height f; page := page f; required := required f;
     readonly := b; fontSize := fontSize f; selected := selected f |}.

Definition with_selected (b : bool) (f : Field) : Field :=
  {| type := type f; name := name f; x := x f; y := y f; width := width f;
     height := height f; page := page f; required := required f;
     readonly := readonly f; fontSize := fontSize f; selected := b |}.

Definition with_x (q : Q) (f : Field) : Field :=
  {| type := type f; name := name f; x := q; y := y f; width := width f;
     height := height f; page := page f; required := required f;
     readonly := readonly f; fontSize := fontSize f; selected := selected f |}.

Definition with_y (q : Q) (f : Field) : Field :=
  {| type := type f; name := name f; x := x f; y := q; width := width f;
     height := height f; page := page f; required := required f;
     readonly := readonly f; fontSize := fontSize f; selected := selected f |}.

Definition with_width (q : Q) (f : Field) : Field :=
  {| type := type f; name := name f; x := x f; y := y f; width := q;
     height := height f; page := page f; required := required f;
     readonly := readonly f; fontSize := fontSize f; selected := selected f |}.

Definition with_height (q : Q) (f : Field) : Field :=
  {| type := type f; name := name f; x := x f; y := y f; width := width f;
     height := q; page := page f; required := required f;
     readonly := readonly f; fontSize := fontSize f; selected := selected f |}.

Definition with_page (p : Z) (f : Field) : Field :=
  {| type := type f; name := name f; x := x f; y := y f; width := width f;
     height := height f; page := p; required := required f;
     readonly := readonly f; fontSize := fontSize f; selected := selected f |}.

(** [renderPage(num)]: the page number is recorded and the canvas takes
    the size of the page's viewport at the current scale; a page the
    document does not have leaves the canvas as it was. *)
Definition renderPage (num : Z) (st : State) : State :=
  let st1 := set_pageNum num st in
  match at_index (pdfDoc st) (num - 1) with
  | Some (w, h) => set_canvas (w * scale st)%Q (h * scale st)%Q st1
  | None => st1
  end.

(** [drawFieldOverlay(ctx, field)]: the rectangle stroked on the canvas. *)
Definition drawFieldOverlay (f : Field) : Rect :=
  {| left := x f; top := y f; rwidth := width f; rheight := height f |}.

(** The overlays [renderPage] draws: the fields of the current page. *)
Definition drawnOverlays (st : State) : list Rect :=
  map drawFieldOverlay (filter (fun f => page f = pageNum st - 1) (fields st)).

(** [isPointInField(x, y, field)]. *)
Definition isPointInField (px py : Q) (f : Field) : bool :=
  Qgeb px (x f) && Qle_bool px (x f + width f) &&
  Qgeb py (y f) && Qle_bool py (y f + height f).

(** The loop of [getFieldAtPosition] over [currentPageFields], from the
    last element to the first: the first hit is returned. *)
Fixpoint topmost (px py : Q) (h : list Field) (reversed : list ref) : option ref :=
  match reversed with
  | [] => None
  | r :: rest =>
      match h !! r with
      | Some f => if isPointInField px py f then Some r else topmost px py h rest
      | None => topmost px py h rest
      end
  end.

(** [field.page === pageNum - 1] for the object behind a reference. *)
Definition onCurrentPage (st : State) (r : ref) : bool :=
  match heap st !! r with
  | Some f => page f =? pageNum st - 1
  | None => false
  end.

(** [getFieldAtPosition(x, y)]: the position in [placedFields] of the
    object found ([f === field] compares references), or -1. *)
Definition getFieldAtPosition (px py : Q) (st : State) : Z :=
  let currentPageFields := filter (fun r => onCurrentPage st r = true) (placedFields st) in
  match topmost px py (heap st) (reverse currentPageFields) with
  | Some field => findIndex (fun r => bool_decide (r = field)) (placedFields st)
  | None => -1
  end.

(** [updateFieldPropertiesPanel(fieldIndex)]. *)
Definition updateFieldPropertiesPanel (fieldIndex : Z) (st : State) : State :=
  match at_index (placedFields st) fieldIndex with
  | None => st
  | Some r =>
      match heap st !! r with
      | None => st
      | Some f =>
          set_panel {| fieldNameInput := name f; requiredCheckbox := required f;
                       readonlyCheckbox := readonly f; boundField := Some r |} st
      end
  end.

(** [clearFieldPropertiesPanel()]. *)
Definition clearFieldPropertiesPanel (st : State) : State := set_panel emptyPanel st.

(** [placedFields.forEach((field, i) => field.selected = (i === fieldIndex))]. *)
Definition markSelected (fieldIndex : Z) (st : State) : State :=
  set_heap (forEachIndexed (fun i => with_selected (Z.of_nat i =? fieldIndex))
              (placedFields st) (heap st)) st.

(** [selectField(fieldIndex)]. *)
Definition selectField (fieldIndex : Z) (st : State) : State :=
  if (fieldIndex <? 0) || (Z.of_nat (length (placedFields st)) <=? fieldIndex) then st
  else renderPage (pageNum st)
         (updateFieldPropertiesPanel fieldIndex (markSelected fieldIndex st)).

(** [selectFieldType(type)]. *)
Definition selectFieldType (t : option string) (st : State) : State :=
  set_currentFieldType t st.

(** The pointer position in canvas pixels. *)
Definition canvasX (e : MouseEvent) (st : State) : Q :=
  ((clientX e - rectLeft e) / rectWidth e * canvasWidth st)%Q.

Definition canvasY (e : MouseEvent) (st : State) : Q :=
  ((clientY e - rectTop e) / rectHeight e * canvasHeight st)%Q.

(** The default size of a new field of a type. *)
Definition defaultSize (t : string) : Q * Q :=
  let wh := (150, 24)%Q in
  let wh := if String.eqb t "checkbox" then (20, 20)%Q else wh in
  if String.eqb t "signature" then (200, 40)%Q else wh.

(** The part of the click handler that stores a new field of type [t]
    named [fieldName] at the canvas point [(px, py)]: the object is
    built, the other fields are deselected, the object is pushed, the
    properties panel is bound to it and the page is drawn again. *)
Definition placeNewField (t fieldName : string) (px py : Q) (st : State) : State :=
  let '(w, h) := defaultSize t in
  let newField :=
    {| type := t; name := fieldName; x := px; y := py;
       width := w; height := h; page := pageNum st - 1;
       required := requiredCheckbox (panel st);
       readonly := readonlyCheckbox (panel st);
       fontSize := 12; selected := true |} in
  let h1 := forEach (with_selected false) (placedFields st) (heap st) in
  let '(h2, r) := alloc h1 newField in
  let st1 := set_placedFields (placedFields st ++ [r]) (set_heap h2 st) in
  let st2 := updateFieldPropertiesPanel
               (Z.of_nat (length (placedFields st1)) - 1) st1 in
  renderPage (pageNum st2) st2.

(** The click handler of the canvas.  [promptAnswer] is what
    [prompt('Field name:', ...)] returns when it is asked ([None] when the
    dialog is cancelled). *)
Definition canvasClick (e : MouseEvent) (promptAnswer : option string)
    (st : State) : State :=
  if isDragging (drag st) || isResizing (drag st) then st
  else if negb (truthy (currentFieldType st)) then st
  else
    let t := default "" (currentFieldType st) in
    let px := canvasX e st in
    let py := canvasY e st in
    let fieldIndex := getFieldAtPosition px py st in
    if negb (fieldIndex =? -1) then selectField fieldIndex st
    else
      let fieldName :=
        if truthy (Some (fieldNameInput (panel st)))
        then Some (fieldNameInput (panel st))
        else promptAnswer in
      if negb (truthy fieldName) then st
      else
        let st3 := placeNewField t (default "" fieldName) px py st in
        if negb (shiftKey e) then set_currentFieldType None st3 else st3.

(** [s.includes(c)] for a one-character [c]. *)
Fixpoint includes (c : ascii) (s : string) : bool :=
  match s with
  | EmptyString => false
  | String c' s' => if Ascii.eqb c c' then true else includes c s'
  end.

(** The mousedown handler of the canvas. *)
Definition canvasMouseDown (e : MouseEvent) (st : State) : State :=
  if truthy (currentFieldType st) then st
  else
    let px := canvasX e st in
    let py := canvasY e st in
    let fieldIndex := getFieldAtPosition px py st in
    if negb (fieldIndex =? -1) then
      match at_index (placedFields st) fieldIndex ≫= (fun r => heap st !! r) with
      | None => st
      | Some field =>
          let resizeHandleSize := 8%Q in
          let isNearRight := Qltb (Math_abs (x field + width field - px)) resizeHandleSize in
          let isNearBottom := Qltb (Math_abs (y field + height field - py)) resizeHandleSize in
          let isNearLeft := Qltb (Math_abs (x field - px)) resizeHandleSize in
          let isNearTop := Qltb (Math_abs (y field - py)) resizeHandleSize in
          let st1 :=
            if isNearRight || isNearBottom || isNearLeft || isNearTop then
              let direction :=
                (if isNearRight then "e" else "") +:+
                (if isNearBottom then "s" else "") +:+
                (if isNearLeft then "w" else "") +:+
                (if isNearTop then "n" else "") in
              set_drag {| isDragging := isDragging (drag st);
                          dragFieldIndex := fieldIndex;
                          isResizing := true;
                          resizeDirection := direction;
                          startX := px; startY := py;
                          originalX := x field; originalY := y field;
                          originalWidth := width field;
                          originalHeight := height field |}
                (markSelected fieldIndex st)
            else
              set_drag {| isDragging := true;
                          dragFieldIndex := fieldIndex;
                          isResizing := isResizing (drag st);
                          resizeDirection := resizeDirection (drag st);
                          startX := px; startY := py;
                          originalX := x field; originalY := y field;
                          originalWidth := originalWidth (drag st);
                          originalHeight := originalHeight (drag st) |}
                (markSelected fieldIndex st) in
          renderPage (pageNum st1) (updateFieldPropertiesPanel fieldIndex st1)
      end
    else
      let hadSelection := existsb selected (fields st) in
      let st1 := set_heap (forEach (with_selected false) (placedFields st) (heap st)) st in
      let st2 := clearFieldPropertiesPanel st1 in
      if hadSelection then renderPage (pageNum st2) st2 else st2.

(** The resize branch of the mousemove handler, on the field object. *)
Definition resized (d : Drag) (deltaX deltaY : Q) (f : Field) : Field :=
  let f1 :=
    if includes "e" (resizeDirection d)
    then with_width (Math_max 20 (originalWidth d + deltaX)) f
    else if includes "w" (resizeDirection d)
    then let newWidth := Math_max 20 (originalWidth d - deltaX) in
         with_width newWidth (with_x (originalX d + (originalWidth d - newWidth)) f)
    else f in
  if includes "s" (resizeDirection d)
  then with_height (Math_max 20 (originalHeight d + deltaY)) f1
  else if includes "n" (resizeDirection d)
  then let newHeight := Math_max 20 (originalHeight d - deltaY) in
       with_height newHeight (with_y (originalY d + (originalHeight d - newHeight)) f1)
  else f1.

(** The mousemove handler of the canvas.  When the dragged index has no
    field any more the handler stops on the property access and nothing
    changes. *)
Definition canvasMouseMove (e : MouseEvent) (st : State) : State :=
  let px := canvasX e st in
  let py := canvasY e st in
  let d := drag st in
  let deltaX := (px - startX d)%Q in
  let deltaY := (py - startY d)%Q in
  if isResizing d && negb (dragFieldIndex d =? -1) then
    match at_index (placedFields st) (dragFieldIndex d) with
    | None => st
    | Some r =>
        renderPage (pageNum st) (set_heap (alter (resized d deltaX deltaY) r (heap st)) st)
    end
  else if isDragging d && negb (dragFieldIndex d =? -1) then
    match at_index (placedFields st) (dragFieldIndex d) with
    | None => st
    | Some r =>
        renderPage (pageNum st)
          (set_heap (alter (fun f => with_y (originalY d + deltaY)
                                      (with_x (originalX d + deltaX) f)) r (heap st)) st)
    end
  else st.

(** The mouseup and mouseleave handlers of the canvas. *)
Definition canvasMouseUp (st : State) : State :=
  let d := drag st in
  set_drag {| isDragging := false; dragFieldIndex := dragFieldIndex d;
              isResizing := false; resizeDirection := resizeDirection d;
              startX := startX d; startY := startY d;
              originalX := originalX d; originalY := originalY d;
              originalWidth := originalWidth d;
              originalHeight := originalHeight d |} st.

(** [field.selected] for the object behind a reference. *)
Definition isSelected (st : State) (r : ref) : bool :=
  match heap st !! r with
  | Some f => selected f
  | None => false
  end.

(** The field pasted from a copied one on page [pageNum]. *)
Definition pastedField (copied : Field) (pageNum_ : Z) : Field :=
  {| type := type copied; name := name copied +:+ "_copy";
     x := (x copied + 20)%Q; y := (y copied + 20)%Q;
     width := width copied; height := height copied;
     page := pageNum_ - 1;
     required := required copied; readonly := readonly copied;
     fontSize := fontSize copied; selected := true |}.

(** The paste branch of the keydown handler. *)
Definition pasteField (copied : Field) (st : State) : State :=
  let newField := pastedField copied (pageNum st) in
  let h1 := forEach (with_selected false) (placedFields st) (heap st) in
  let '(h2, r) := alloc h1 newField in
  let st1 := set_placedFields (placedFields st ++ [r]) (set_heap h2 st) in
  let st2 := updateFieldPropertiesPanel
               (Z.of_nat (length (placedFields st1)) - 1) st1 in
  renderPage (pageNum st2) st2.

(** The keydown handler of the document.  [key] is
    [e.key.toLowerCase()]. *)
Definition keyDown (key : string) (ctrlKey shift : bool) (st : State) : State :=
  let currentPageFields := filter (fun r => onCurrentPage st r = true) (placedFields st) in
  if (length currentPageFields =? 0)%nat then st
  else
    let selectedIndex := findIndex (isSelected st) (placedFields st) in
    if (selectedIndex =? -1) && negb (String.eqb key "a") then st
    else
      let field := at_index (placedFields st) selectedIndex in
      let amount := if shift then 10%Q else 1%Q in
      let move (g : Field -> Field) :=
        match field with
        | Some r => renderPage (pageNum st) (set_heap (alter g r (heap st)) st)
        | None => st
        end in
      if String.eqb key "delete" || String.eqb key "backspace" then
        if negb (selectedIndex =? -1) then
          renderPage (pageNum st)
            (clearFieldPropertiesPanel
               (set_placedFields (splice1 selectedIndex (placedFields st)) st))
        else st
      else if String.eqb key "arrowleft" then move (fun f => with_x (x f - amount) f)
      else if String.eqb key "arrowright" then move (fun f => with_x (x f + amount) f)
      else if String.eqb key "arrowup" then move (fun f => with_y (y f - amount) f)
      else if String.eqb key "arrowdown" then move (fun f => with_y (y f + amount) f)
      else if String.eqb key "c" then
        match ctrlKey, field ≫= (fun r => heap st !! r) with
        | true, Some f => set_copiedField (Some f) st
        | _, _ => st
        end
      else if String.eqb key "v" then
        match ctrlKey, copiedField st with
        | true, Some copied => pasteField copied st
        | _, _ => st
        end
      else if String.eqb key "a" then
        if ctrlKey then
          renderPage (pageNum st)
            (set_heap (forEach (with_selected true) currentPageFields (heap st)) st)
        else st
      else st.

(** The handlers the properties panel binds to its inputs: the input
    takes the typed value, and the bound field, if any, is written. *)
Definition fieldNameOnInput (v : string) (st : State) : State :=
  let p := panel st in
  let st1 := set_panel {| fieldNameInput := v; requiredCheckbox := requiredCheckbox p;
                          readonlyCheckbox := readonlyCheckbox p;
                          boundField := boundField p |} st in
  match boundField p with
  | Some r => renderPage (pageNum st1) (set_heap (alter (with_name v) r (heap st1)) st1)
  | None => st1
  end.

Definition requiredOnChange (b : bool) (st : State) : State :=
  let p := panel st in
  let st1 := set_panel {| fieldNameInput := fieldNameInput p; requiredCheckbox := b;
                          readonlyCheckbox := readonlyCheckbox p;
                          boundField := boundField p |} st in
  match boundField p with
  | Some r => set_heap (alter (with_required b) r (heap st1)) st1
  | None => st1
  end.

Definition readonlyOnChange (b : bool) (st : State) : State :=
  let p := panel st in
  let st1 := set_panel {| fieldNameInput := fieldNameInput p;
                          requiredCheckbox := requiredCheckbox p;
                          readonlyCheckbox := b;
                          boundField := boundField p |} st in
  match boundField p with
  | Some r => set_heap (alter (with_readonly b) r (heap st1)) st1
  | None => st1
  end.

(** Page navigation ([setupPageNavigation]). *)
Definition numPages (st : State) : Z := Z.of_nat (length (pdfDoc st)).

Definition prevPage (st : State) : State :=
  if (pageNum st <=? 1) then st else renderPage (pageNum st - 1) st.

Definition nextPage (st : State) : State :=
  if (numPages st <=? pageNum st) then st else renderPage (pageNum st + 1) st.

Definition pageInputChange (num : option Z) (st : State) : State :=
  match num with
  | None => st
  | Some n => if (n <? 1) || (numPages st <? n) then st else renderPage n st
  end.

(** The toolbar buttons and the type each of them selects. *)
Inductive Button := addTextBox | addSignature | addCheckbox | addNumber.

Definition buttonType (b : Button) : string :=
  match b with
  | addTextBox => "text"
  | addSignature => "signature"
  | addCheckbox => "checkbox"
  | addNumber => "number"
  end.

(** What the user can do on the page. *)
Inductive Event :=
| ToolbarButton (b : Button)
| CanvasClick (e : MouseEvent) (promptAnswer : option string)
| CanvasMouseDown (e : MouseEvent)
| CanvasMouseMove (e : MouseEvent)
| CanvasMouseUp
| CanvasMouseLeave
| KeyDown (key : string) (ctrlKey shift : bool)
| FieldNameInput (v : string)
| RequiredChange (b : bool)
| ReadonlyChange (b : bool)
| PrevPage
| NextPage
| PageInputChange (num : option Z).

Definition step (st : State) (ev : Event) : State :=
  match ev with
  | ToolbarButton b => selectFieldType (Some (buttonType b)) st
  | CanvasClick e a => canvasClick e a st
  | CanvasMouseDown e => canvasMouseDown e st
  | CanvasMouseMove e => canvasMouseMove e st
  | CanvasMouseUp => canvasMouseUp st
  | CanvasMouseLeave => canvasMouseUp st
  | KeyDown k c s => keyDown k c s st
  | FieldNameInput v => fieldNameOnInput v st
  | RequiredChange b => requiredOnChange b st
  | ReadonlyChange b => readonlyOnChange b st
  | PrevPage => prevPage st
  | NextPage => nextPage st
  | PageInputChange n => pageInputChange n st
  end.

Definition run (st : State) (evs : list Event) : State := foldl step st evs.

(** *** Saving: the AcroForm fields [savePDFWithFields] creates *)

Inductive AcroKind := TextMultiline | TextFormatted | CheckBox | Signature.

(** A form field created in the document and the rectangle of its widget
    on a page, in PDF user space. *)
Record AcroField := {
  kind : AcroKind;
  partialName : string;
  onPage : Z;
  rect_x : Q;
  rect_y : Q;
  rect_width : Q;
  rect_height : Q;
  isRequired : bool;
  isReadOnly : bool
}.

(** What the loop over the pages ends with: every page was handled, or
    [getPage] threw and the function returned [false]. *)
Inductive SaveResult :=
| Completed (added : list AcroField)
| Thrown (added : list AcroField).

Definition addedFields (r : SaveResult) : list AcroField :=
  match r with
  | Completed l => l
  | Thrown l => l
  end.

(** [fieldsByPage[pageIndex].push(field)], creating the array first when
    the key is new.  The object keeps its keys in creation order. *)
Fixpoint pushByPage (pageIndex : Z) (f : Field) (obj : list (Z * list Field))
    : list (Z * list Field) :=
  match obj with
  | [] => [(pageIndex, [f])]
  | (k, fs) :: obj' =>
      if (k =? pageIndex) then (k, fs ++ [f]) :: obj'
      else (k, fs) :: pushByPage pageIndex f obj'
  end.

(** The [fieldsByPage] object built from the placed fields. *)
Definition fieldsByPage (placed : list Field) : list (Z * list Field) :=
  foldl (fun obj f => pushByPage (page f) f obj) [] placed.

(** Insertion of an entry into entries sorted by ascending key. *)
Fixpoint insertEntry (e : Z * list Field) (sorted : list (Z * list Field))
    : list (Z * list Field) :=
  match sorted with
  | [] => [e]
  | e' :: rest => if (e.1 <=? e'.1) then e :: e' :: rest else e' :: insertEntry e rest
  end.

(** [Object.entries(obj)]: the keys that are array indices (the integers
    from 0 on; page indices stay far below the limit of 2^32 - 2) come
    first in ascending order, then the other keys (here the negative
    integers) in creation order. *)
Definition Object_entries (obj : list (Z * list Field)) : list (Z * list Field) :=
  foldr insertEntry [] (filter (fun e => 0 <= e.1) obj)
  ++ filter (fun e => e.1 < 0) obj.

(** The field the [switch] on [field.type] creates for a placed field on
    a page of height [pageHeight]; no field for a type the switch does
    not list. *)
Definition acroFieldFor (pageIndex : Z) (pageHeight : Q) (f : Field) : option AcroField :=
  let pdfY := (pageHeight - y f - height f)%Q in
  if String.eqb (type f) "text" then
    Some {| kind := TextMultiline; partialName := name f; onPage := pageIndex;
            rect_x := x f; rect_y := pdfY; rect_width := width f;
            rect_height := height f; isRequired := required f;
            isReadOnly := readonly f |}
  else if String.eqb (type f) "number" then
    Some {| kind := TextFormatted; partialName := name f; onPage := pageIndex;
            rect_x := x f; rect_y := pdfY; rect_width := width f;
            rect_height := height f; isRequired := required f;
            isReadOnly := readonly f |}
  else if String.eqb (type f) "checkbox" then
    Some {| kind := CheckBox; partialName := name f; onPage := pageIndex;
            rect_x := x f; rect_y := pdfY; rect_width := width f;
            rect_height := height f; isRequired := required f;
            isReadOnly := false |}
  else if String.eqb (type f) "signature" then
    Some {| kind := Signature; partialName := name f; onPage := pageIndex;
            rect_x := x f; rect_y := pdfY; rect_width := width f;
            rect_height := height f; isRequired := required f;
            isReadOnly := false |}
  else None.

Section Save.

(** The PDF library may refuse to create a field (a name that is taken,
    for one): [libraryThrows added f] tells whether creating the field of
    [f] throws when [added] were created before it.  The exception is
    caught per field and the loop goes on. *)
Variable libraryThrows : list AcroField -> Field -> bool.

(** The body of [fields.forEach] for one field of a page. *)
Definition addField (pageIndex : Z) (pageHeight : Q)
    (added : list AcroField) (f : Field) : list AcroField :=
  match acroFieldFor pageIndex pageHeight f with
  | Some a => if libraryThrows added f then added else added ++ [a]
  | None => added
  end.

(** The loop over [Object.entries(fieldsByPage)].  [pages] lists the size
    of every page of the document; [getPage] throws outside of it. *)
Fixpoint addToPages (pages : list (Q * Q)) (entries : list (Z * list Field))
    (added : list AcroField) : SaveResult :=
  match entries with
  | [] => Completed added
  | (pageIndex, fs) :: rest =>
      if (Z.of_nat (length pages) <=? pageIndex) then addToPages pages rest added
      else
        match at_index pages pageIndex with
        | None => Thrown added
        | Some (_, pageHeight) =>
            addToPages pages rest (foldl (addField pageIndex pageHeight) added fs)
        end
  end.

(** The part of [savePDFWithFields] that adds the placed fields to the
    pages of the document. *)
Definition savePDFWithFields (pages : list (Q * Q)) (placed : list Field) : SaveResult :=
  addToPages pages (Object_entries (fieldsByPage placed)) [].

End Save.

(** *** Waiting for the libraries *)

(** How a wait for a library ends: the promise is resolved or rejected
    at the check with the given number, or the timer callbacks that were
    run did not settle it. *)
Inductive WaitResult :=
| Resolved (attempt : nat)
| Rejected (attempt : nat)
| Pending.

(** [checkLib] of [waitForPDFLib] and [waitForPDFJS].  [available k]
    tells whether the library is defined at check number [k]; each
    recursive call is one callback of [setTimeout(checkLib, 200)], and
    [fuel] bounds the number of checks that are run. *)
Fixpoint checkLib (maxAttempts : nat) (available : nat -> bool) (attempt : nat)
    (fuel : nat) : WaitResult :=
  match fuel with
  | O => Pending
  | S fuel' =>
      let attempt := S attempt in
      if available attempt then Resolved attempt
      else if (maxAttempts <=? attempt)%nat then Rejected attempt
      else checkLib maxAttempts available attempt fuel'
  end.

(** [waitForPDFLib()] and [waitForPDFJS()]. *)
Definition waitForPDFLib (available : nat -> bool) (fuel : nat) : WaitResult :=
  checkLib 30 available 0 fuel.

Definition waitForPDFJS (available : nat -> bool) (fuel : nat) : WaitResult :=
  checkLib 20 available 0 fuel.

End Design.

(** ** The portfolio fill page (editpage_portfolio.js) *)

Module Fill.

(** The kinds of [<input>] element [overlayFormFields] creates. *)
Inductive InputType := checkbox | date | text.

(** An entry of [portfolioEditor.fieldInputs]: an [<input>] element, or
    the wrapper object of a signature pad, whose [type] is 'signature'
    and whose [getValue()] is the data URL of the pad. *)
Inductive FieldInput :=
| InputElement (type : InputType) (checked : bool) (value : string)
| SignaturePadInput (dataURL : string).

(** A collected form value. *)
Inductive FormValue :=
| BoolValue (b : bool)
| TextValue (s : string).

(** [Object.keys(obj)]. *)
Definition Object_keys {A} (obj : gmap string A) : list string :=
  (map_to_list obj).*1.

(** The body of the [forEach] of [collectFormValues] for one key. *)
Definition collectOne (fieldInputs : gmap string FieldInput)
    (formValues : gmap string FormValue) (fieldName : string) : gmap string FormValue :=
  match fieldInputs !! fieldName with
  | Some (SignaturePadInput url) => <[fieldName := TextValue url]> formValues
  | Some (InputElement checkbox c _) => <[fieldName := BoolValue c]> formValues
  | Some (InputElement _ _ v) => <[fieldName := TextValue v]> formValues
  | None => formValues
  end.

(** [portfolioEditor.collectFormValues()]. *)
Definition collectFormValues (fieldInputs : gmap string FieldInput) : gmap string FormValue :=
  foldl (collectOne fieldInputs) ∅ (Object_keys fieldInputs).

(** A field descriptor of the fill page, as far as the overlay reads it. *)
Record Field := {
  name : string;
  type : string;
  x : Q;
  y : Q;
  width : Q;
  height : Q;
  page : Z
}.

(** The position [overlayFormFields] gives the container of a field at
    zoom [currentScale]. *)
Definition containerRect (currentScale : Q) (f : Field) : Rect :=
  {| left := (x f * currentScale)%Q; top := (y f * currentScale)%Q;
     rwidth := (width f * currentScale)%Q; rheight := (height f * currentScale)%Q |}.

(** [overlayFormFields(pageNumber)]: the containers put on the overlay. *)
Definition overlayFormFields (currentScale : Q) (formFields : list Field)
    (pageNumber : Z) : list (string * Rect) :=
  map (fun f => (name f, containerRect currentScale f))
      (filter (fun f => page f = pageNumber - 1) formFields).

(** *** The inputs of the fill page and the pages *)

(** A field of the loaded schema: the descriptor and the default value
    the overlay gives its input ([None] when the property is missing). *)
Record SchemaField := {
  descriptor : Field;
  default_value : option string
}.

(** The variables of [portfolioEditor] that the page handlers and the
    overlay read and write.  [pdfDoc] tells whether the document is
    loaded; [pendingPads] lists the names for which the timer that
    creates the signature pad is still to fire, oldest first. *)
Record State := {
  pdfDoc : bool;
  formFields : list SchemaField;
  fieldInputs : gmap string FieldInput;
  pendingPads : list string;
  currentPage : Z;
  totalPages : Z;
  currentScale : Q
}.

Definition set_inputs (m : gmap string FieldInput) (ts : list string) (st : State) : State :=
  {| pdfDoc := pdfDoc st; formFields := formFields st; fieldInputs := m;
     pendingPads := ts; currentPage := currentPage st; totalPages := totalPages st;
     currentScale := currentScale st |}.

Definition set_currentPage (p : Z) (st : State) : State :=
  {| pdfDoc := pdfDoc st; formFields := formFields st; fieldInputs := fieldInputs st;
     pendingPads := pendingPads st; currentPage := p; totalPages := totalPages st;
     currentScale := currentScale st |}.

Definition set_currentScale (s : Q) (st : State) : State :=
  {| pdfDoc := pdfDoc st; formFields := formFields st; fieldInputs := fieldInputs st;
     pendingPads := pendingPads st; currentPage := currentPage st;
     totalPages := totalPages st; currentScale := s |}.

Section Inputs.

(** What an [<input>] of a type reads as its value after the script has
    set it (the browser sanitises the value by the type of the input),
    and the data URL of a signature pad nothing was drawn on. *)
Variable valueAfterSet : InputType -> string -> string.
Variable blankPad : string.

(** The [<input>] element the [switch] on [field.type] creates and
    stores in [fieldInputs], with [value = field.default_value || ''];
    [None] for a signature, whose pad is created by a timer. *)
Definition createInput (f : SchemaField) : option FieldInput :=
  let t := type (descriptor f) in
  let v := default "" (default_value f) in
  if String.eqb t "checkbox" then Some (InputElement checkbox false (valueAfterSet checkbox v))
  else if String.eqb t "signature" then None
  else if String.eqb t "date" then Some (InputElement date false (valueAfterSet date v))
  else Some (InputElement text false (valueAfterSet text v)).

(** The second [forEach] of [overlayFormFields] for one field. *)
Definition overlayOne (acc : gmap string FieldInput * list string) (f : SchemaField)
    : gmap string FieldInput * list string :=
  match createInput f with
  | Some i => (<[name (descriptor f) := i]> acc.1, acc.2)
  | None => (acc.1, acc.2 ++ [name (descriptor f)])
  end.

(** What [overlayFormFields(pageNumber)] does to [fieldInputs], with the
    overlay element in the document: the entries of the fields of the
    page are deleted, then every field of the page gets a new input, a
    signature field a timer. *)
Definition overlayInputs (pageNumber : Z) (st : State) : State :=
  let fieldsOnPage :=
    filter (fun f => page (descriptor f) = pageNumber - 1) (formFields st) in
  let cleared :=
    foldl (fun m f => delete (name (descriptor f)) m) (fieldInputs st) fieldsOnPage in
  let result := foldl overlayOne (cleared, pendingPads st) fieldsOnPage in
  set_inputs result.1 result.2 st.

(** The callback of the timer of a signature field: the pad is created
    and its wrapper stored under the name of the field. *)
Definition padTimer (st : State) : State :=
  match pendingPads st with
  | [] => st
  | fieldName :: rest =>
      set_inputs (<[fieldName := SignaturePadInput blankPad]> (fieldInputs st)) rest st
  end.

(** [portfolioEditor.renderPage(pageNumber)], as far as the variables
    above go: the page number is validated, nothing happens without a
    document, and the inputs of the page are overlaid. *)
Definition renderPage (pageNumber : Z) (st : State) : State :=
  let pageNumber := if (pageNumber =? 0) || (pageNumber <? 1) then 1 else pageNumber in
  if negb (pdfDoc st) then st
  else
    let pageNumber := if (totalPages st <? pageNumber) then totalPages st else pageNumber in
    overlayInputs pageNumber (set_currentPage pageNumber st).

(** The page and zoom buttons ([bindEventListeners]). *)
Definition prevPage (st : State) : State :=
  if (1 <? currentPage st)
  then let st1 := set_currentPage (currentPage st - 1) st in renderPage (currentPage st1) st1
  else st.

Definition nextPage (st : State) : State :=
  if (currentPage st <? totalPages st)
  then let st1 := set_currentPage (currentPage st + 1) st in renderPage (currentPage st1) st1
  else st.

Definition zoomIn (st : State) : State :=
  let st1 := set_currentScale (currentScale st + (1 # 10))%Q st in
  renderPage (currentPage st1) st1.

Definition zoomOut (st : State) : State :=
  if Qgtb (currentScale st) (2 # 10)
  then let st1 := set_currentScale (currentScale st - (1 # 10))%Q st in
       renderPage (currentPage st1) st1
  else st.

(** The click handler of an item of the fields list, for an item in the
    section of page index [pageKey]; the timer it starts focuses the
    input and changes none of the variables above. *)
Definition fieldItemClick (pageKey : Z) (st : State) : State :=
  if negb (currentPage st =? pageKey + 1)
  then let st1 := set_currentPage (pageKey + 1) st in renderPage (currentPage st1) st1
  else st.

(** What the user does to the input stored under a name: typing or
    picking a value, ticking, drawing on the pad. *)
Definition userSets (fieldName : string) (v : string) (st : State) : State :=
  match fieldInputs st !! fieldName with
  | Some (InputElement t c _) =>
      set_inputs (<[fieldName := InputElement t c v]> (fieldInputs st)) (pendingPads st) st
  | Some (SignaturePadInput _) =>
      set_inputs (<[fieldName := SignaturePadInput v]> (fieldInputs st)) (pendingPads st) st
  | None => st
  end.

Definition userTicks (fieldName : string) (b : bool) (st : State) : State :=
  match fieldInputs st !! fieldName with
  | Some (InputElement t _ v) =>
      set_inputs (<[fieldName := InputElement t b v]> (fieldInputs st)) (pendingPads st) st
  | _ => st
  end.

(** What happens on the fill page.  [FieldsLoaded] is the call of
    [overlayFormFields(currentPage)] in the callback of [loadFormFields],
    once the fields of the schema are in [formFields]. *)
Inductive Event :=
| FieldsLoaded
| PrevPage
| NextPage
| ZoomIn
| ZoomOut
| FieldItemClick (pageKey : Z)
| PadTimer
| UserSets (fieldName : string) (v : string)
| UserTicks (fieldName : string) (b : bool).

Definition step (st : State) (ev : Event) : State :=
  match ev with
  | FieldsLoaded => overlayInputs (currentPage st) st
  | PrevPage => prevPage st
  | NextPage => nextPage st
  | ZoomIn => zoomIn st
  | ZoomOut => zoomOut st
  | FieldItemClick k => fieldItemClick k st
  | PadTimer => padTimer st
  | UserSets n v => userSets n v st
  | UserTicks n b => userTicks n b st
  end.

Definition run (st : State) (evs : list Event) : State := foldl step st evs.

End Inputs.

End Fill.

(** ** Properties stated about the editors *)

(** The field types of the data model. *)
Definition fieldTypeNames : list string :=
  ["text"; "checkbox"; "signature"; "date"; "number"; "radiobutton";
   "combobox"; "listbox"].

Definition validType (t : string) : Prop := t ∈ fieldTypeNames.

(** The keys of a field descriptor that [saveForm] persists. *)
Definition persistedKeys : list string :=
  ["name"; "type"; "x"; "y"; "width"; "height"; "page"; "required";
   "default_value"].

(** The types for which [savePDFWithFields] creates a form field. *)
Definition creatableTypes : list string := ["text"; "number"; "checkbox"; "signature"].

(** The number of pages of a document. *)
Definition pageCount (pages : list (Q * Q)) : Z := Z.of_nat (length pages).

(** How a heap evolves under a handler, seen through an observation
    [obs] of the objects: every object that was there is still there with
    the same observation, and every object that is new satisfies [P]. *)
Definition evolves {A B} (obs : A -> B) (P : B -> Prop) (h h' : list A) : Prop :=
  (forall r f, h !! r = Some f -> exists f', h' !! r = Some f' /\ obs f' = obs f) /\
  (forall r f', h !! r = None -> h' !! r = Some f' -> P (obs f')).

(** What a handler of the portfolio page never changes on a field. *)
Definition pObs (f : Portfolio.Field) : Z * string :=
  (Portfolio.page f, Portfolio.type f).

(** What holds of an object the portfolio page creates in state [st]: it
    is on the current page and has the type selected for placement. *)
Definition pNew (st : Portfolio.State) (o : Z * string) : Prop :=
  o.1 = Portfolio.currentPage st /\ Portfolio.fieldTypeToAdd st = Some o.2.

(** What a handler of the design page never changes on a field. *)
Definition dObs (f : Design.Field) : Z * string := (Design.page f, Design.type f).

(** What holds of an object the design page creates in state [st]: it is
    on the current page, and its type is the selected type or the type
    of the copied field. *)
Definition dNew (st : Design.State) (o : Z * string) : Prop :=
  o.1 = Design.pageNum st - 1 /\
  (Design.currentFieldType st = Some o.2 \/
   exists c, Design.copiedField st = Some c /\ Design.type c = o.2).

(** The invariant of the portfolio page: every field object has a type of
    the data model, and so has the type selected for placement. *)
Definition pInv (st : Portfolio.State) : Prop :=
  (forall r f, Portfolio.heap st !! r = Some f -> validType (Portfolio.type f)) /\
  (forall t, Portfolio.fieldTypeToAdd st = Some t -> validType t).

(** The invariant of the design page: the same, and the copied field has
    a type of the data model too. *)
Definition dInv (st : Design.State) : Prop :=
  (forall r f, Design.heap st !! r = Some f -> validType (Design.type f)) /\
  (forall t, Design.currentFieldType st = Some t -> validType t) /\
  (forall c, Design.copiedField st = Some c -> validType (Design.type c)).

(** The field list of a well-formed state of the design page holds
    distinct references, all of them to objects of the heap. *)
Definition dWf (st : Design.State) : Prop :=
  NoDup (Design.placedFields st) /\
  forall r, r ∈ Design.placedFields st -> (r < length (Design.heap st))%nat.

(** The field behind [r] contains the point. *)
Definition inside (px py : Q) (h : list Design.Field) (r : ref) : Prop :=
  exists f, h !! r = Some f /\ Design.isPointInField px py f = true.

(** The field at position [i] of the list is on the current page and
    contains the point. *)
Definition hitAt (st : Design.State) (px py : Q) (i : nat) : Prop :=
  exists r f,
    Design.placedFields st !! i = Some r /\
    Design.heap st !! r = Some f /\
    Design.page f = Design.pageNum st - 1 /\
    Design.isPointInField px py f = true.

(** What the loop of [addToPages] does with one entry whose page the
    document has or which lies beyond the last page. *)
Definition visitPage (libraryThrows : list Design.AcroField -> Design.Field -> bool)
    (pages : list (Q * Q)) (added : list Design.AcroField)
    (e : Z * list Design.Field) : list Design.AcroField :=
  if (pageCount pages <=? e.1) then added
  else match at_index pages e.1 with
       | Some (_, pageHeight) =>
           foldl (Design.addField libraryThrows e.1 pageHeight) added e.2
       | None => added
       end.

(** ** Further properties of the editors *)

(** The placing flag and the selected type agree: the flag is set and a
    type of the toolbar is selected, or the flag is off and no type is
    selected. *)
Definition pModeOk (st : Portfolio.State) : Prop :=
  (Portfolio.isPlacingField st = true /\
   exists k t i, Portfolio.fieldTypes !! k = Some (t, i) /\
                 Portfolio.fieldTypeToAdd st = Some t) \/
  (Portfolio.isPlacingField st = false /\ Portfolio.fieldTypeToAdd st = None).

(** The current page is a page of the document, and so is the page of
    every field object. *)
Definition pPagesOk (st : Portfolio.State) : Prop :=
  1 <= Portfolio.currentPage st <= Portfolio.totalPages st /\
  forall r f, Portfolio.heap st !! r = Some f ->
              1 <= Portfolio.page f <= Portfolio.totalPages st.

(** Every entry of the field list refers to a field object, and the
    active field, if any, is an entry of the list. *)
Definition pWf (st : Portfolio.State) : Prop :=
  (forall r, r ∈ Portfolio.formFields st -> (r < length (Portfolio.heap st))%nat) /\
  (forall a, Portfolio.activeField st = Some a -> a ∈ Portfolio.formFields st).

(** Every object of a heap satisfies [P]. *)
Definition heap_all {A} (P : A -> Prop) (h : list A) : Prop :=
  forall r f, h !! r = Some f -> P f.

(** A field of the design page is at least 20 by 20 canvas pixels. *)
Definition sizeOk (f : Design.Field) : Prop :=
  (20 <= Design.width f)%Q /\ (20 <= Design.height f)%Q.

(** Every field object of the design page, and the copied field, is at
    least 20 by 20. *)
Definition dSizeOk (st : Design.State) : Prop :=
  heap_all sizeOk (Design.heap st) /\
  forall c, Design.copiedField st = Some c -> sizeOk c.



(** The page shown by the design page is a page of the document, and
    the page index of every field object is one. *)
Definition dPagesOk (st : Design.State) : Prop :=
  1 <= Design.pageNum st <= Design.numPages st /\
  heap_all (fun f => 0 <= Design.page f < Design.numPages st) (Design.heap st).

(** Every field object of the design page, the selected type and the
    copied field have a type for which saving creates a form field. *)
Definition dCreatable (st : Design.State) : Prop :=
  heap_all (fun f => Design.type f ∈ creatableTypes) (Design.heap st) /\
  (forall t, Design.currentFieldType st = Some t -> t ∈ creatableTypes) /\
  (forall c, Design.copiedField st = Some c -> Design.type c ∈ creatableTypes).

(** The order of two form fields, and of two entries of [fieldsByPage],
    by page index. *)
Definition pageOrder (a b : Design.AcroField) : Prop := Design.onPage a <= Design.onPage b.

Definition keyOrder (e1 e2 : Z * list Design.Field) : Prop := e1.1 <= e2.1.


(** The name and the page index of a field of the schema. *)
Definition fieldName (f : Fill.SchemaField) : string := Fill.name (Fill.descriptor f).





(** ** Example states *)

(** A click at (120, 60) on a canvas of 720 by 960 pixels shown at its
    natural size. *)
Definition exClick : MouseEvent :=
  {| clientX := 120; clientY := 60; rectLeft := 0; rectTop := 0;
     rectWidth := 720; rectHeight := 960; shiftKey := false |}.

(** A click at (100, 50): it misses the field placed by [exClick], and
    the field it places overlaps that one. *)
Definition exClick2 : MouseEvent :=
  {| clientX := 100; clientY := 50; rectLeft := 0; rectTop := 0;
     rectWidth := 720; rectHeight := 960; shiftKey := false |}.

(** A pointer move to (150, 100). *)
Definition exMove : MouseEvent :=
  {| clientX := 150; clientY := 100; rectLeft := 0; rectTop := 0;
     rectWidth := 720; rectHeight := 960; shiftKey := false |}.

(** The portfolio page on a document of two pages. *)
Definition pStart : Portfolio.State := Portfolio.initial (Some "7") 2.

(** The text button was pressed. *)
Definition pPlacing : Portfolio.State :=
  Portfolio.run pStart [Portfolio.ToolbarButton 0].

(** A text field was placed with a click. *)
Definition pPlaced : Portfolio.State :=
  Portfolio.run pPlacing [Portfolio.OverlayClick exClick 1700000000000 42].

(** The field on the heap of [pPlaced]. *)
Definition pField : Portfolio.Field :=
  {| Portfolio.id := Some "field_1700000000000_42"; Portfolio.name := "Text_1";
     Portfolio.type := "text"; Portfolio.x := 120; Portfolio.y := 60;
     Portfolio.width := 200; Portfolio.height := 40; Portfolio.page := 1;
     Portfolio.required := false; Portfolio.read_only := false;
     Portfolio.default_value := "" |}.

(** The overlay element of [pField] at zoom 1. *)
Definition pElement : Portfolio.FieldElement :=
  {| Portfolio.element_field := 0%nat;
     Portfolio.data_field_id := "field_1700000000000_42";
     Portfolio.element_rect := Portfolio.fieldRect 1 pField;
     Portfolio.element_label := "Text_1" |}.

(** A document of two pages of 600 by 800 points. *)
Definition exPages : list (Q * Q) := [(600, 800); (600, 800)]%Q.

(** The design page on that document, first page rendered. *)
Definition dStart : Design.State := Design.renderPage 1 (Design.initial exPages).

(** The text button was pressed. *)
Definition dArmed : Design.State :=
  Design.run dStart [Design.ToolbarButton Design.addTextBox].

(** A text field was placed with a click. *)
Definition dPlaced : Design.State :=
  Design.run dArmed [Design.CanvasClick exClick (Some "name1")].

(** The field on the heap of [dPlaced]. *)
Definition dField : Design.Field :=
  {| Design.type := "text"; Design.name := "name1";
     Design.x := 864000 # 7200; Design.y := 576000 # 9600;
     Design.width := 150; Design.height := 24; Design.page := 0;
     Design.required := false; Design.readonly := false;
     Design.fontSize := 12; Design.selected := true |}.

(** The field was copied. *)
Definition dCopied : Design.State :=
  Design.run dPlaced [Design.KeyDown "c" true false].

(** Two overlapping text fields on the first page. *)
Definition dTwo : Design.State :=
  Design.run dPlaced
    [Design.ToolbarButton Design.addTextBox; Design.CanvasClick exClick2 None].

(** The first field was copied, and a checkbox placed on the second
    page. *)
Definition dSecondPage : Design.State :=
  Design.run dCopied
    [Design.NextPage; Design.ToolbarButton Design.addCheckbox;
     Design.CanvasClick exClick None].

(** A library that accepts every field. *)
Definition acceptsAll (added : list Design.AcroField) (f : Design.Field) : bool := false.

(** The placed field of [dPlaced] and a copy of it on a page index the
    document does not have. *)
Definition exPlaced : list Design.Field := [dField; Design.with_page 5 dField].

(** The form field of [dField] on a page of height 800. *)
Definition exAcroField : Design.AcroField :=
  {| Design.kind := Design.TextMultiline; Design.partialName := "name1";
     Design.onPage := 0; Design.rect_x := 864000 # 7200;
     Design.rect_y := (800 - (576000 # 9600) - 24)%Q;
     Design.rect_width := 150; Design.rect_height := 24;
     Design.isRequired := false; Design.isReadOnly := false |}.

(** A field of the fill page, on the first page (page index 0). *)
Definition exFillField : Fill.Field :=
  {| Fill.name := "Text_1"; Fill.type := "text"; Fill.x := 120; Fill.y := 60;
     Fill.width := 200; Fill.height := 40; Fill.page := 0 |}.

(** The zoom-out button was pressed eight times: the scale is 0.2. *)
Definition pSmall : Portfolio.State :=
  Portfolio.run pStart (replicate 8 Portfolio.ZoomOut).

(** The placed field is pressed: a drag starts. *)
Definition pDragging : Portfolio.State :=
  Portfolio.run pPlaced
    [Portfolio.OverlayMouseDown (Some "field_1700000000000_42") exClick].

(** With one field placed, the checkbox button was pressed. *)
Definition pPlacingAgain : Portfolio.State :=
  Portfolio.run pPlaced [Portfolio.ToolbarButton 1].

(** Two descriptors as a saved schema holds them: without id. *)
Definition pSaved1 : Portfolio.Field :=
  {| Portfolio.id := None; Portfolio.name := "Text_1";
     Portfolio.type := "text"; Portfolio.x := 120; Portfolio.y := 60;
     Portfolio.width := 200; Portfolio.height := 40; Portfolio.page := 1;
     Portfolio.required := false; Portfolio.read_only := false;
     Portfolio.default_value := "" |}.

Definition pSaved2 : Portfolio.Field :=
  {| Portfolio.id := None; Portfolio.name := "Checkbox_2";
     Portfolio.type := "checkbox"; Portfolio.x := 300; Portfolio.y := 200;
     Portfolio.width := 40; Portfolio.height := 40; Portfolio.page := 1;
     Portfolio.required := true; Portfolio.read_only := false;
     Portfolio.default_value := "" |}.

(** The portfolio page after the schema with these two was loaded. *)
Definition pLoaded : Portfolio.State :=
  Portfolio.loadFormFields (Some [pSaved1; pSaved2]) pStart.

(** A press at (268, 70), two pixels left of the right edge of the
    field of [dPlaced]; one at (150, 70), inside that field and away
    from its edges; and one at (400, 400), on empty space. *)
Definition exPressEdge : MouseEvent :=
  {| clientX := 268; clientY := 70; rectLeft := 0; rectTop := 0;
     rectWidth := 720; rectHeight := 960; shiftKey := false |}.

Definition exPress : MouseEvent :=
  {| clientX := 150; clientY := 70; rectLeft := 0; rectTop := 0;
     rectWidth := 720; rectHeight := 960; shiftKey := false |}.

Definition exPressFar : MouseEvent :=
  {| clientX := 400; clientY := 400; rectLeft := 0; rectTop := 0;
     rectWidth := 720; rectHeight := 960; shiftKey := false |}.

(** With one field placed, the text button was pressed again. *)
Definition dArmedAgain : Design.State :=
  Design.run dPlaced [Design.ToolbarButton Design.addTextBox].

(** The right edge of the placed field was pressed: a resize starts. *)
Definition dResizing : Design.State :=
  Design.run dPlaced [Design.CanvasMouseDown exPressEdge].

(** The inside of the placed field was pressed: a drag starts. *)
Definition dDragging : Design.State :=
  Design.run dPlaced [Design.CanvasMouseDown exPress].

(** Empty space was pressed: the placed field is deselected. *)
Definition dDeselected : Design.State :=
  Design.run dPlaced [Design.CanvasMouseDown exPressFar].

(** The check that finds the library is the third. *)
Definition exAvailable (k : nat) : bool := Nat.eqb k 3.








(** * Proofs *)

(** ** Heap lemmas *)

Section Heap.

Context {A B : Type} (obs : A -> B) (P : B -> Prop).

Lemma evolves_refl (h : list A) : evolves obs P h h.
Proof.
  split; [eauto|].
  intros r f' Hn Hs. congruence.
Qed.

Lemma evolves_trans (h1 h2 h3 : list A) :
  evolves obs P h1 h2 -> evolves obs P h2 h3 -> evolves obs P h1 h3.
Proof.
  intros [Hk1 Hn1] [Hk2 Hn2]. split.
  - intros r f Hf. destruct (Hk1 r f Hf) as (f2 & Hf2 & Ho2).
    destruct (Hk2 r f2 Hf2) as (f3 & Hf3 & Ho3).
    exists f3. split; [done | congruence].
  - intros r f3 Hnone Hf3. destruct (h2 !! r) as [f2|] eqn:E2.
    + destruct (Hk2 r f2 E2) as (f3' & Hf3' & Ho3).
      assert (f3' = f3) by congruence. subst f3'.
      rewrite Ho3. eapply Hn1; eauto.
    + eapply Hn2; eauto.
Qed.

Lemma evolves_alter (g : A -> A) (r : ref) (h : list A) :
  (forall f, obs (g f) = obs f) -> evolves obs P h (alter g r h).
Proof.
  intros Hg. split.
  - intros r' f Hf. destruct (decide (r = r')) as [->|Hne].
    + exists (g f). rewrite list_lookup_alter_eq, Hf. auto.
    + exists f. rewrite list_lookup_alter_ne by done. auto.
  - intros r' f' Hnone Hf'. exfalso.
    apply lookup_ge_None in Hnone.
    assert (is_Some (alter g r h !! r')) as Hs by eauto.
    apply lookup_lt_is_Some in Hs. rewrite length_alter in Hs. lia.
Qed.

Lemma evolves_alloc (h : list A) (o : A) :
  P (obs o) -> evolves obs P h (alloc h o).1.
Proof.
  intros Ho. simpl. split.
  - intros r f Hf. exists f. split; [|done].
    rewrite lookup_app_l; [done|]. by eapply lookup_lt_Some.
  - intros r f' Hnone Hf'. apply lookup_ge_None in Hnone.
    apply lookup_snoc_Some in Hf' as [[Hlt _]|[_ <-]]; [lia | done].
Qed.

Lemma evolves_forEach (g : A -> A) (refs : list ref) (h : list A) :
  (forall f, obs (g f) = obs f) -> evolves obs P h (forEach g refs h).
Proof.
  intros Hg. unfold forEach. revert h.
  induction refs as [|r refs IH]; intros h; simpl.
  - apply evolves_refl.
  - eapply evolves_trans; [apply evolves_alter, Hg | apply IH].
Qed.

Lemma evolves_forEachIndexed (g : nat -> A -> A) (refs : list ref) (h : list A) :
  (forall i f, obs (g i f) = obs f) -> evolves obs P h (forEachIndexed g refs h).
Proof.
  intros Hg. unfold forEachIndexed.
  generalize (imap (fun (i : nat) (r : ref) => (i, r)) refs). intros l. revert h.
  induction l as [|[i r] l IH]; intros h; simpl.
  - apply evolves_refl.
  - eapply evolves_trans; [apply evolves_alter; intros; apply Hg | apply IH].
Qed.

Lemma evolves_weaken (P' : B -> Prop) (h h' : list A) :
  (forall b, P b -> P' b) -> evolves obs P h h' -> evolves obs P' h h'.
Proof.
  intros HP [Hk Hn]. split; [done|]. intros r f' H1 H2. eauto.
Qed.

End Heap.

Lemma length_forEach {A} (g : A -> A) (refs : list ref) (h : list A) :
  length (forEach g refs h) = length h.
Proof.
  unfold forEach. revert h. induction refs as [|r refs IH]; intros h; simpl; [done|].
  rewrite IH. apply length_alter.
Qed.

Lemma length_forEachIndexed {A} (g : nat -> A -> A) (refs : list ref) (h : list A) :
  length (forEachIndexed g refs h) = length h.
Proof.
  unfold forEachIndexed.
  generalize (imap (fun (i : nat) (r : ref) => (i, r)) refs). intros l. revert h.
  induction l as [|[i r] l IH]; intros h; simpl; [done|].
  rewrite IH. apply length_alter.
Qed.

(** ** The portfolio design page: how handlers treat the heap *)

Lemma truthy_Some (s : option string) :
  truthy s = true -> exists t, s = Some t /\ t <> "".
Proof.
  destruct s as [[|c t]|]; simpl; try discriminate.
  intros _. eexists. split; [reflexivity | discriminate].
Qed.

Lemma Portfolio_addFormField_heap t px py pg now rand st :
  Portfolio.heap (Portfolio.addFormField t px py pg now rand st).1 =
  Portfolio.heap st ++
  [ {| Portfolio.id := Some ("field_" +:+ pretty now +:+ "_" +:+ pretty rand);
       Portfolio.name := capitalize t +:+ "_" +:+
                         pretty (Z.of_nat (length (Portfolio.formFields st)) + 1);
       Portfolio.type := t; Portfolio.x := px; Portfolio.y := py;
       Portfolio.width :=
         Portfolio.orDefault
           (Portfolio.defaultWidth <$> Portfolio.lookupType t Portfolio.fieldTypes) 200;
       Portfolio.height :=
         Portfolio.orDefault
           (Portfolio.defaultHeight <$> Portfolio.lookupType t Portfolio.fieldTypes) 40;
       Portfolio.page := pg; Portfolio.required := false;
       Portfolio.read_only := false; Portfolio.default_value := "" |} ].
Proof. reflexivity. Qed.

Lemma Portfolio_addFormField_formFields t px py pg now rand st :
  Portfolio.formFields (Portfolio.addFormField t px py pg now rand st).1 =
  Portfolio.formFields st ++ [length (Portfolio.heap st)].
Proof. reflexivity. Qed.

Lemma Portfolio_assignIfPresent_evolves {V} P (input : option V) assign a h :
  (forall v f, pObs (assign v f) = pObs f) ->
  evolves pObs P h (Portfolio.assignIfPresent input assign a h).
Proof.
  intros Hobs. destruct input as [v|]; simpl.
  - apply evolves_alter. apply Hobs.
  - apply evolves_refl.
Qed.

Lemma Portfolio_step_evolves (st : Portfolio.State) (ev : Portfolio.Event) :
  evolves pObs (pNew st) (Portfolio.heap st) (Portfolio.heap (Portfolio.step st ev)).
Proof.
  destruct ev; simpl.
  - destruct (Portfolio.fieldTypes !! k) as [[t i]|]; [|apply evolves_refl].
    unfold Portfolio.selectFieldType. case_decide; apply evolves_refl.
  - unfold Portfolio.handleOverlayClick.
    destruct (negb (Portfolio.isPlacingField st) || negb (truthy (Portfolio.fieldTypeToAdd st)))
      eqn:E; [apply evolves_refl|].
    apply orb_false_iff in E as [_ E]. apply negb_false_iff in E.
    apply truthy_Some in E as (t & Ht & _). rewrite Ht. simpl.
    change (Portfolio.heap st ++ [?o]) with (alloc (Portfolio.heap st) o).1.
    apply evolves_alloc. split; [reflexivity | exact Ht].
  - unfold Portfolio.selectField. case_match; apply evolves_refl.
  - unfold Portfolio.handleOverlayMouseDown, Portfolio.selectField, Portfolio.deselectField.
    repeat case_match; apply evolves_refl.
  - unfold Portfolio.handleOverlayMouseMove.
    repeat case_match; try apply evolves_refl.
    simpl. apply evolves_alter. intros []; reflexivity.
  - unfold Portfolio.handleOverlayMouseUp. case_match; apply evolves_refl.
  - unfold Portfolio.updateSelectedField.
    destruct (Portfolio.activeField st) as [a|]; [|apply evolves_refl].
    set (h3 := Portfolio.assignIfPresent readonlyCheckbox _ a _).
    assert (evolves pObs (pNew st) (Portfolio.heap st) h3) as Hev.
    { subst h3. repeat (eapply evolves_trans; [|apply Portfolio_assignIfPresent_evolves]).
      - apply evolves_refl.
      - intros ? []; reflexivity.
      - intros ? []; reflexivity.
      - intros ? []; reflexivity. }
    simpl. repeat case_match; simpl; exact Hev.
  - unfold Portfolio.deleteSelectedField, Portfolio.deselectField.
    repeat case_match; apply evolves_refl.
  - apply evolves_refl.
  - unfold Portfolio.zoomOut. case_match; apply evolves_refl.
  - unfold Portfolio.prevPage. case_match; apply evolves_refl.
  - unfold Portfolio.nextPage. case_match; apply evolves_refl.
  - unfold Portfolio.pageNumberChange. repeat case_match; apply evolves_refl.
Qed.

(** ** The design page: how handlers treat the heap *)

Lemma Design_renderPage_heap n st :
  Design.heap (Design.renderPage n st) = Design.heap st.
Proof. unfold Design.renderPage. repeat case_match; reflexivity. Qed.

Lemma Design_renderPage_placedFields n st :
  Design.placedFields (Design.renderPage n st) = Design.placedFields st.
Proof. unfold Design.renderPage. repeat case_match; reflexivity. Qed.

Lemma Design_updatePanel_heap i st :
  Design.heap (Design.updateFieldPropertiesPanel i st) = Design.heap st.
Proof. unfold Design.updateFieldPropertiesPanel. repeat case_match; reflexivity. Qed.

Lemma Design_updatePanel_placedFields i st :
  Design.placedFields (Design.updateFieldPropertiesPanel i st) = Design.placedFields st.
Proof. unfold Design.updateFieldPropertiesPanel. repeat case_match; reflexivity. Qed.

Lemma Design_markSelected_evolves P i st :
  evolves dObs P (Design.heap st) (Design.heap (Design.markSelected i st)).
Proof.
  simpl. apply evolves_forEachIndexed. intros ? []; reflexivity.
Qed.

Lemma Design_selectField_evolves P i st :
  evolves dObs P (Design.heap st) (Design.heap (Design.selectField i st)).
Proof.
  unfold Design.selectField. case_match; [apply evolves_refl|].
  rewrite Design_renderPage_heap, Design_updatePanel_heap.
  apply Design_markSelected_evolves.
Qed.

Lemma Design_placeNewField_heap t n px py st :
  Design.heap (Design.placeNewField t n px py st) =
  forEach (Design.with_selected false) (Design.placedFields st) (Design.heap st) ++
  [ {| Design.type := t; Design.name := n; Design.x := px; Design.y := py;
       Design.width := (Design.defaultSize t).1;
       Design.height := (Design.defaultSize t).2;
       Design.page := Design.pageNum st - 1;
       Design.required := Design.requiredCheckbox (Design.panel st);
       Design.readonly := Design.readonlyCheckbox (Design.panel st);
       Design.fontSize := 12; Design.selected := true |} ].
Proof.
  unfold Design.placeNewField. destruct (Design.defaultSize t) as [w h].
  unfold alloc. rewrite Design_renderPage_heap, Design_updatePanel_heap. reflexivity.
Qed.

Lemma Design_placeNewField_placedFields t n px py st :
  Design.placedFields (Design.placeNewField t n px py st) =
  Design.placedFields st ++ [length (Design.heap st)].
Proof.
  unfold Design.placeNewField. destruct (Design.defaultSize t) as [w h].
  unfold alloc. rewrite Design_renderPage_placedFields, Design_updatePanel_placedFields.
  simpl. by rewrite length_forEach.
Qed.

Lemma Design_pasteField_heap c st :
  Design.heap (Design.pasteField c st) =
  forEach (Design.with_selected false) (Design.placedFields st) (Design.heap st) ++
  [Design.pastedField c (Design.pageNum st)].
Proof.
  unfold Design.pasteField, alloc.
  rewrite Design_renderPage_heap, Design_updatePanel_heap. reflexivity.
Qed.

Lemma Design_pasteField_placedFields c st :
  Design.placedFields (Design.pasteField c st) =
  Design.placedFields st ++ [length (Design.heap st)].
Proof.
  unfold Design.pasteField, alloc.
  rewrite Design_renderPage_placedFields, Design_updatePanel_placedFields.
  simpl. by rewrite length_forEach.
Qed.

Lemma evolves_deselect_alloc (P : Z * string -> Prop) refs h (o : Design.Field) :
  P (dObs o) ->
  evolves dObs P h (forEach (Design.with_selected false) refs h ++ [o]).
Proof.
  intros Ho.
  apply evolves_trans with (forEach (Design.with_selected false) refs h).
  - apply evolves_forEach. intros []; reflexivity.
  - match goal with
    | |- evolves _ _ ?h0 (?h0 ++ [?o0]) => change (h0 ++ [o0]) with (alloc h0 o0).1
    end.
    by apply evolves_alloc.
Qed.

Lemma Design_canvasClick_evolves e a st :
  evolves dObs (dNew st) (Design.heap st) (Design.heap (Design.canvasClick e a st)).
Proof.
  unfold Design.canvasClick.
  destruct (Design.isDragging (Design.drag st) || Design.isResizing (Design.drag st));
    [apply evolves_refl|].
  destruct (truthy (Design.currentFieldType st)) eqn:Ht; simpl; [|apply evolves_refl].
  apply truthy_Some in Ht as (t & Ht & _).
  destruct (negb (Design.getFieldAtPosition _ _ st =? -1));
    [apply Design_selectField_evolves|].
  match goal with
  | |- context [negb (truthy ?n)] => destruct (negb (truthy n)); [apply evolves_refl|]
  end.
  match goal with
  | |- evolves _ _ _ (Design.heap (if _ then Design.set_currentFieldType None ?s else _)) =>
      assert (evolves dObs (dNew st) (Design.heap st) (Design.heap s)) as Hev
  end.
  { rewrite Design_placeNewField_heap. apply evolves_deselect_alloc.
    split; simpl; [reflexivity|]. left. by rewrite Ht. }
  destruct (negb (shiftKey e)); exact Hev.
Qed.

Lemma Design_canvasMouseDown_evolves P e st :
  evolves dObs P (Design.heap st) (Design.heap (Design.canvasMouseDown e st)).
Proof.
  unfold Design.canvasMouseDown.
  case_match; [apply evolves_refl|].
  case_match.
  - case_match; [|apply evolves_refl].
    rewrite Design_renderPage_heap, Design_updatePanel_heap.
    case_match; simpl; apply evolves_forEachIndexed; intros ? []; reflexivity.
  - case_match; [rewrite Design_renderPage_heap|]; simpl;
      apply evolves_forEach; intros []; reflexivity.
Qed.

Lemma Design_resized_obs d dx dy f : dObs (Design.resized d dx dy f) = dObs f.
Proof. unfold Design.resized. destruct f. repeat case_match; reflexivity. Qed.

Lemma Design_canvasMouseMove_evolves P e st :
  evolves dObs P (Design.heap st) (Design.heap (Design.canvasMouseMove e st)).
Proof.
  unfold Design.canvasMouseMove.
  repeat case_match; try apply evolves_refl;
    rewrite Design_renderPage_heap; simpl; apply evolves_alter.
  - intros f. apply Design_resized_obs.
  - intros []; reflexivity.
Qed.

Lemma Design_keyDown_evolves key c s st :
  evolves dObs (dNew st) (Design.heap st) (Design.heap (Design.keyDown key c s st)).
Proof.
  unfold Design.keyDown.
  repeat (case_match; try apply evolves_refl);
    try (rewrite Design_renderPage_heap; simpl;
         first [ apply evolves_refl
               | apply evolves_alter; intros []; reflexivity
               | apply evolves_forEach; intros []; reflexivity ]).
  rewrite Design_pasteField_heap. apply evolves_deselect_alloc.
  split; simpl; [reflexivity|]. right. eauto.
Qed.

Lemma Design_step_evolves (st : Design.State) (ev : Design.Event) :
  evolves dObs (dNew st) (Design.heap st) (Design.heap (Design.step st ev)).
Proof.
  destruct ev; simpl.
  - apply evolves_refl.
  - apply Design_canvasClick_evolves.
  - apply Design_canvasMouseDown_evolves.
  - apply Design_canvasMouseMove_evolves.
  - apply evolves_refl.
  - apply evolves_refl.
  - apply Design_keyDown_evolves.
  - unfold Design.fieldNameOnInput. case_match; [rewrite Design_renderPage_heap|]; simpl;
      [apply evolves_alter; intros []; reflexivity | apply evolves_refl].
  - unfold Design.requiredOnChange. case_match; simpl;
      [apply evolves_alter; intros []; reflexivity | apply evolves_refl].
  - unfold Design.readonlyOnChange. case_match; simpl;
      [apply evolves_alter; intros []; reflexivity | apply evolves_refl].
  - unfold Design.prevPage. case_match; [|rewrite Design_renderPage_heap]; apply evolves_refl.
  - unfold Design.nextPage. case_match; [|rewrite Design_renderPage_heap]; apply evolves_refl.
  - unfold Design.pageInputChange. repeat case_match; try rewrite Design_renderPage_heap;
      apply evolves_refl.
Qed.

(** ** Field types *)

Lemma validType_toolbar_portfolio k t i :
  Portfolio.fieldTypes !! k = Some (t, i) -> validType t.
Proof.
  unfold validType, fieldTypeNames.
  destruct k as [|[|[|[|k]]]]; simpl; intros H; inversion H; subst;
    apply list_elem_of_In; simpl; tauto.
Qed.

Lemma validType_toolbar_design b : validType (Design.buttonType b).
Proof.
  unfold validType, fieldTypeNames.
  destruct b; apply list_elem_of_In; simpl; tauto.
Qed.

Lemma Portfolio_step_fieldTypeToAdd st ev t :
  Portfolio.fieldTypeToAdd (Portfolio.step st ev) = Some t ->
  Portfolio.fieldTypeToAdd st = Some t \/
  exists k i, Portfolio.fieldTypes !! k = Some (t, i).
Proof.
  destruct ev; simpl.
  - destruct (Portfolio.fieldTypes !! k) as [[t' i]|] eqn:E; [|auto].
    unfold Portfolio.selectFieldType. case_decide; simpl; [discriminate|].
    intros [= <-]. right. eauto.
  - unfold Portfolio.handleOverlayClick. case_match; [auto | simpl; discriminate].
  - unfold Portfolio.selectField. case_match; simpl; auto.
  - unfold Portfolio.handleOverlayMouseDown, Portfolio.selectField, Portfolio.deselectField.
    repeat case_match; simpl; auto.
  - unfold Portfolio.handleOverlayMouseMove. repeat case_match; simpl; auto.
  - unfold Portfolio.handleOverlayMouseUp. case_match; simpl; auto.
  - unfold Portfolio.updateSelectedField. repeat case_match; simpl; auto.
  - unfold Portfolio.deleteSelectedField, Portfolio.deselectField.
    repeat case_match; simpl; auto.
  - auto.
  - unfold Portfolio.zoomOut. case_match; simpl; auto.
  - unfold Portfolio.prevPage. case_match; simpl; auto.
  - unfold Portfolio.nextPage. case_match; simpl; auto.
  - unfold Portfolio.pageNumberChange. repeat case_match; simpl; auto.
Qed.

Lemma pInv_step st ev : pInv st -> pInv (Portfolio.step st ev).
Proof.
  intros [Hheap Hsel]. split.
  - intros r f' Hf'. destruct (Portfolio_step_evolves st ev) as [Hkeep Hnew].
    destruct (Portfolio.heap st !! r) as [f|] eqn:E.
    + destruct (Hkeep r f E) as (f2 & Hf2 & Hobs).
      assert (f2 = f') by congruence. subst f2.
      injection Hobs as _ Ht. rewrite Ht. eauto.
    + destruct (Hnew r f' E Hf') as [_ Ht]. simpl in Ht. eauto.
  - intros t Ht. apply Portfolio_step_fieldTypeToAdd in Ht as [Ht|(k & i & Hk)].
    + eauto.
    + eapply validType_toolbar_portfolio; eauto.
Qed.

Lemma pInv_run st evs : pInv st -> pInv (Portfolio.run st evs).
Proof.
  unfold Portfolio.run. revert st.
  induction evs as [|ev evs IH]; intros st H; simpl; [done|].
  apply IH, pInv_step, H.
Qed.

Lemma Design_renderPage_currentFieldType n st :
  Design.currentFieldType (Design.renderPage n st) = Design.currentFieldType st.
Proof. unfold Design.renderPage. repeat case_match; reflexivity. Qed.

Lemma Design_renderPage_copiedField n st :
  Design.copiedField (Design.renderPage n st) = Design.copiedField st.
Proof. unfold Design.renderPage. repeat case_match; reflexivity. Qed.

Lemma Design_updatePanel_currentFieldType i st :
  Design.currentFieldType (Design.updateFieldPropertiesPanel i st) =
  Design.currentFieldType st.
Proof. unfold Design.updateFieldPropertiesPanel. repeat case_match; reflexivity. Qed.

Lemma Design_updatePanel_copiedField i st :
  Design.copiedField (Design.updateFieldPropertiesPanel i st) = Design.copiedField st.
Proof. unfold Design.updateFieldPropertiesPanel. repeat case_match; reflexivity. Qed.

(** Unfolds the handlers of the design page down to the setters. *)
Ltac design_unfold :=
  unfold Design.canvasClick, Design.canvasMouseDown, Design.canvasMouseMove,
    Design.canvasMouseUp, Design.keyDown, Design.fieldNameOnInput,
    Design.requiredOnChange, Design.readonlyOnChange, Design.prevPage,
    Design.nextPage, Design.pageInputChange, Design.selectFieldType,
    Design.selectField, Design.placeNewField, Design.pasteField,
    Design.clearFieldPropertiesPanel, Design.markSelected, alloc.

Ltac design_simpl :=
  simpl;
  repeat first
    [ progress simpl
    | rewrite Design_renderPage_currentFieldType
    | rewrite Design_renderPage_copiedField
    | rewrite Design_updatePanel_currentFieldType
    | rewrite Design_updatePanel_copiedField
    | rewrite Design_renderPage_heap
    | rewrite Design_updatePanel_heap
    | rewrite Design_renderPage_placedFields
    | rewrite Design_updatePanel_placedFields ];
  simpl.

Lemma Design_step_currentFieldType st ev t :
  Design.currentFieldType (Design.step st ev) = Some t ->
  Design.currentFieldType st = Some t \/ exists b, t = Design.buttonType b.
Proof.
  destruct ev; simpl; design_unfold;
    try (repeat case_match; design_simpl; solve [auto | discriminate]).
  simpl. intros [= <-]. eauto.
Qed.

Lemma Design_step_copiedField st ev c :
  Design.copiedField (Design.step st ev) = Some c ->
  Design.copiedField st = Some c \/ exists r, Design.heap st !! r = Some c.
Proof.
  destruct ev; simpl; design_unfold;
    try (repeat case_match; design_simpl; solve [auto | discriminate]).
  repeat case_match; design_simpl; try solve [auto | discriminate];
    intros Hc; try (left; congruence).
  injection Hc as <-. right.
  match goal with
  | H : _ ≫= _ = Some _ |- _ => apply bind_Some in H as (r & _ & Hr)
  end.
  eauto.
Qed.

Lemma dInv_step st ev : dInv st -> dInv (Design.step st ev).
Proof.
  intros (Hheap & Hsel & Hcopy). split; [|split].
  - intros r f' Hf'. destruct (Design_step_evolves st ev) as [Hkeep Hnew].
    destruct (Design.heap st !! r) as [f|] eqn:E.
    + destruct (Hkeep r f E) as (f2 & Hf2 & Hobs).
      assert (f2 = f') by congruence. subst f2.
      injection Hobs as _ Ht. rewrite Ht. eauto.
    + destruct (Hnew r f' E Hf') as [_ [Ht|(c & Hc & Ht)]]; simpl in Ht.
      * eauto.
      * rewrite <- Ht. eauto.
  - intros t Ht. apply Design_step_currentFieldType in Ht as [Ht|[b ->]].
    + eauto.
    + apply validType_toolbar_design.
  - intros c Hc. apply Design_step_copiedField in Hc as [Hc|[r Hr]]; eauto.
Qed.

Lemma dInv_run st evs : dInv st -> dInv (Design.run st evs).
Proof.
  unfold Design.run. revert st.
  induction evs as [|ev evs IH]; intros st H; simpl; [done|].
  apply IH, dInv_step, H.
Qed.

Lemma pInv_initial file pages : pInv (Portfolio.initial file pages).
Proof. split; simpl; intros; [by destruct r | discriminate]. Qed.

Lemma dInv_initial pages : dInv (Design.initial pages).
Proof. split; [|split]; simpl; intros; [by destruct r | discriminate | discriminate]. Qed.

(** The invariant holds once the document is loaded and its first page
    rendered. *)
Lemma dInv_loaded pages : dInv (Design.renderPage 1 (Design.initial pages)).
Proof.
  unfold dInv.
  rewrite Design_renderPage_heap, Design_renderPage_currentFieldType,
    Design_renderPage_copiedField.
  apply dInv_initial.
Qed.

(** ** Field types and pages: the claims *)

(** C6. Every field type is one of text, checkbox, signature, date,
    number, radiobutton, combobox, listbox: on both design pages, when
    the fields and the selected type of a state have types of this set,
    so have they after any sequence of events (toolbar buttons, clicks
    that create fields through [addFormField] or the canvas handler,
    paste, moves, edits); [addFormField] gives the new field exactly the
    type it is called with; and no event changes the type of a field
    that exists. *)
Theorem field_types_stay_in_the_data_model :
  (forall st evs, pInv st -> pInv (Portfolio.run st evs)) /\
  (forall st evs, dInv st -> dInv (Design.run st evs)) /\
  (forall t px py pg now rand st,
      exists f,
        Portfolio.heap (Portfolio.addFormField t px py pg now rand st).1
          !! length (Portfolio.heap st) = Some f /\
        Portfolio.type f = t) /\
  (forall st ev r f,
      Portfolio.heap st !! r = Some f ->
      exists f', Portfolio.heap (Portfolio.step st ev) !! r = Some f' /\
                 Portfolio.type f' = Portfolio.type f) /\
  (forall st ev r f,
      Design.heap st !! r = Some f ->
      exists f', Design.heap (Design.step st ev) !! r = Some f' /\
                 Design.type f' = Design.type f).
Proof.
  split; [exact pInv_run|]. split; [exact dInv_run|]. split; [|split].
  - intros. eexists. rewrite Portfolio_addFormField_heap.
    rewrite list_lookup_middle by reflexivity. split; reflexivity.
  - intros st ev r f Hf.
    destruct (proj1 (Portfolio_step_evolves st ev) r f Hf) as (f' & Hf' & Ho).
    exists f'. split; [done|]. by injection Ho.
  - intros st ev r f Hf.
    destruct (proj1 (Design_step_evolves st ev) r f Hf) as (f' & Hf' & Ho).
    exists f'. split; [done|]. by injection Ho.
Qed.

(** C7. Each field belongs to one page: on both design pages no event
    (move, resize, rename, toggling required or read-only, paste, or any
    other) changes the page of a field object that exists, and every
    field object an event creates is on the page current at that time;
    the pasted copy is a new object on the current page, whatever the
    page of the copied field. *)
Theorem page_is_set_at_creation_and_kept :
  (forall st ev r f,
      Portfolio.heap st !! r = Some f ->
      exists f', Portfolio.heap (Portfolio.step st ev) !! r = Some f' /\
                 Portfolio.page f' = Portfolio.page f) /\
  (forall st ev r f',
      Portfolio.heap st !! r = None ->
      Portfolio.heap (Portfolio.step st ev) !! r = Some f' ->
      Portfolio.page f' = Portfolio.currentPage st) /\
  (forall st ev r f,
      Design.heap st !! r = Some f ->
      exists f', Design.heap (Design.step st ev) !! r = Some f' /\
                 Design.page f' = Design.page f) /\
  (forall st ev r f',
      Design.heap st !! r = None ->
      Design.heap (Design.step st ev) !! r = Some f' ->
      Design.page f' = Design.pageNum st - 1) /\
  (forall st c,
      Design.placedFields (Design.pasteField c st) =
        Design.placedFields st ++ [length (Design.heap st)] /\
      Design.heap (Design.pasteField c st) !! length (Design.heap st) =
        Some (Design.pastedField c (Design.pageNum st)) /\
      Design.page (Design.pastedField c (Design.pageNum st)) = Design.pageNum st - 1).
Proof.
  repeat split.
  - intros st ev r f Hf.
    destruct (proj1 (Portfolio_step_evolves st ev) r f Hf) as (f' & Hf' & Ho).
    exists f'. split; [done|]. by injection Ho.
  - intros st ev r f' Hn Hf'.
    by destruct (proj2 (Portfolio_step_evolves st ev) r f' Hn Hf') as [Hp _].
  - intros st ev r f Hf.
    destruct (proj1 (Design_step_evolves st ev) r f Hf) as (f' & Hf' & Ho).
    exists f'. split; [done|]. by injection Ho.
  - intros st ev r f' Hn Hf'.
    by destruct (proj2 (Design_step_evolves st ev) r f' Hn Hf') as [Hp _].
  - apply Design_pasteField_placedFields.
  - rewrite Design_pasteField_heap. apply list_lookup_middle.
    by rewrite length_forEach.
Qed.

(** C5. A click creates a field only in placing mode: on the portfolio
    page, when the placing flag is off or no field type is selected, the
    click handler leaves the whole state, and so the placed fields, as
    they were; on the design page the same holds when no field type is
    selected. *)
Theorem click_outside_placing_mode_changes_nothing :
  (forall st e now rand,
      Portfolio.isPlacingField st = false \/
      truthy (Portfolio.fieldTypeToAdd st) = false ->
      Portfolio.handleOverlayClick e now rand st = st) /\
  (forall st e a,
      truthy (Design.currentFieldType st) = false ->
      Design.canvasClick e a st = st).
Proof.
  split.
  - intros st e now rand H. unfold Portfolio.handleOverlayClick.
    destruct H as [-> | ->]; simpl; [done | by rewrite orb_true_r].
  - intros st e a H. unfold Design.canvasClick. rewrite H. simpl.
    by destruct (_ || _).
Qed.

(** C3, as the code has it. When the file id is present [saveForm] sends
    a schema; the schema has one entry per placed field, in the order of
    the list, and the entry of a field carries the field's name, type, x,
    y, width, height, page, required and default_value unchanged.  The
    entry has no id (the clean copy drops it) and no options. *)
Theorem saveForm_schema_entries :
  (forall st, truthy (Portfolio.fileId st) = true ->
              exists req, Portfolio.saveForm st = Some req) /\
  (forall st req,
      Portfolio.saveForm st = Some req ->
      length (Portfolio.schema_fields req) = length (Portfolio.fields st) /\
      forall i f,
        Portfolio.fields st !! i = Some f ->
        exists e,
          Portfolio.schema_fields req !! i = Some e /\
          (forall key, key ∈ persistedKeys ->
                       prop key e = prop key (Portfolio.descriptor f)) /\
          prop "id" e = None /\
          prop "options" e = None).
Proof.
  split.
  - intros st H. unfold Portfolio.saveForm. rewrite H. eauto.
  - intros st req H. unfold Portfolio.saveForm in H.
    destruct (truthy (Portfolio.fileId st)); [|discriminate].
    injection H as <-. simpl. split; [apply length_map|].
    intros i f Hf. exists (Portfolio.cleanCopy f). split.
    + change (map Portfolio.cleanCopy (Portfolio.fields st))
        with (Portfolio.cleanCopy <$> Portfolio.fields st).
      by rewrite list_lookup_fmap, Hf.
    + split; [|split; reflexivity].
      intros key Hkey. unfold persistedKeys in Hkey.
      apply list_elem_of_In in Hkey. simpl in Hkey.
      unfold Portfolio.descriptor.
      destruct (Portfolio.id f);
        repeat (destruct Hkey as [<-|Hkey]; [reflexivity|]); contradiction.
Qed.

(** C3 as stated fails: the entry persisted for the field of [pPlaced]
    has neither the id nor the read_only property of the field. *)
Lemma saveForm_entry_lacks_id :
  exists req e,
    Portfolio.saveForm pPlaced = Some req /\
    Portfolio.fields pPlaced = [pField] /\
    Portfolio.schema_fields req = [e] /\
    prop "id" (Portfolio.descriptor pField) = Some (JStr "field_1700000000000_42") /\
    prop "id" e = None /\
    prop "read_only" (Portfolio.descriptor pField) = Some (JBool false) /\
    prop "read_only" e = None.
Proof.
  eexists. eexists. split; [reflexivity|]. repeat split; reflexivity.
Qed.

(** C1, as the code has it. On the portfolio design page a click at
    canvas position (cx, cy) in placing mode at zoom s stores the field
    at (cx / s, cy / s), and the overlay shows every field of the page at
    (x * s, y * s, width * s, height * s), so the new field appears where
    the click was; the portfolio fill page positions fields the same way.
    On the non-portfolio design page the click stores the canvas position
    itself, with no division by the scale, and the overlay of a field is
    drawn at (x, y, width, height) as stored. *)
Theorem coordinates_stored_and_shown :
  (forall st e now rand,
      Portfolio.isPlacingField st = true ->
      truthy (Portfolio.fieldTypeToAdd st) = true ->
      ~ Portfolio.currentScale st == 0 ->
      let st' := Portfolio.handleOverlayClick e now rand st in
      let s := Portfolio.currentScale st in
      exists f,
        Portfolio.formFields st' =
          Portfolio.formFields st ++ [length (Portfolio.heap st)] /\
        Portfolio.heap st' !! length (Portfolio.heap st) = Some f /\
        Portfolio.x f = ((clientX e - rectLeft e) / s)%Q /\
        Portfolio.y f = ((clientY e - rectTop e) / s)%Q /\
        Portfolio.currentScale st' = s /\
        left (Portfolio.fieldRect s f) == clientX e - rectLeft e /\
        top (Portfolio.fieldRect s f) == clientY e - rectTop e) /\
  (forall st pageNumber el,
      el ∈ Portfolio.renderFormFields st pageNumber ->
      exists f,
        Portfolio.heap st !! Portfolio.element_field el = Some f /\
        Portfolio.page f = pageNumber /\
        Portfolio.element_rect el =
          {| left := (Portfolio.x f * Portfolio.currentScale st)%Q;
             top := (Portfolio.y f * Portfolio.currentScale st)%Q;
             rwidth := (Portfolio.width f * Portfolio.currentScale st)%Q;
             rheight := (Portfolio.height f * Portfolio.currentScale st)%Q |}) /\
  (forall s formFields pageNumber n rect,
      (n, rect) ∈ Fill.overlayFormFields s formFields pageNumber ->
      exists f,
        f ∈ formFields /\ Fill.name f = n /\ Fill.page f = pageNumber - 1 /\
        rect = {| left := (Fill.x f * s)%Q; top := (Fill.y f * s)%Q;
                  rwidth := (Fill.width f * s)%Q;
                  rheight := (Fill.height f * s)%Q |}) /\
  (forall st e a,
      Design.isDragging (Design.drag st) = false ->
      Design.isResizing (Design.drag st) = false ->
      truthy (Design.currentFieldType st) = true ->
      Design.getFieldAtPosition (Design.canvasX e st) (Design.canvasY e st) st = -1 ->
      truthy (Some (Design.fieldNameInput (Design.panel st))) = true \/ truthy a = true ->
      let st' := Design.canvasClick e a st in
      exists f,
        Design.placedFields st' =
          Design.placedFields st ++ [length (Design.heap st)] /\
        Design.heap st' !! length (Design.heap st) = Some f /\
        Design.x f = Design.canvasX e st /\
        Design.y f = Design.canvasY e st /\
        left (Design.drawFieldOverlay f) = Design.canvasX e st /\
        top (Design.drawFieldOverlay f) = Design.canvasY e st) /\
  (forall st rect,
      rect ∈ Design.drawnOverlays st ->
      exists f,
        f ∈ Design.fields st /\ Design.page f = Design.pageNum st - 1 /\
        rect = {| left := Design.x f; top := Design.y f;
                  rwidth := Design.width f; rheight := Design.height f |}).
Proof.
  split; [|split; [|split; [|split]]].
  - intros st e now rand Hp Ht Hs st' s. subst st' s.
    unfold Portfolio.handleOverlayClick. rewrite Hp, Ht. simpl.
    eexists. split; [reflexivity|]. split.
    { apply list_lookup_middle. reflexivity. }
    simpl. repeat split; try reflexivity; field; exact Hs.
  - intros st pageNumber el Hel. unfold Portfolio.renderFormFields in Hel.
    apply list_elem_of_omap in Hel as (r & Hr & Hel).
    destruct (Portfolio.heap st !! r) as [f|] eqn:Hf; [|discriminate].
    destruct (Portfolio.page f =? pageNumber) eqn:Hpg; [|discriminate].
    injection Hel as <-. simpl. exists f. split; [done|]. split; [lia | reflexivity].
  - intros s formFields pageNumber n rect H. unfold Fill.overlayFormFields in H.
    apply list_elem_of_In, in_map_iff in H as (f & Heq & Hin).
    apply list_elem_of_In, list_elem_of_filter in Hin as [Hpg Hin].
    injection Heq as <- <-. exists f. repeat split; done.
  - intros st e a Hd Hr Ht Hnone Hname st'. subst st'.
    unfold Design.canvasClick. rewrite Hd, Hr, Ht, Hnone. cbv zeta.
    set (fieldName := if truthy (Some (Design.fieldNameInput (Design.panel st)))
                      then Some (Design.fieldNameInput (Design.panel st)) else a).
    assert (truthy fieldName = true) as Hfn.
    { subst fieldName.
      destruct (truthy (Some (Design.fieldNameInput (Design.panel st)))) eqn:E;
        [done|]. by destruct Hname. }
    rewrite Hfn. simpl.
    set (t := default "" (Design.currentFieldType st)).
    set (n := default "" fieldName).
    assert (forall (b : bool) s1,
               Design.heap (if b then Design.set_currentFieldType None s1 else s1) =
               Design.heap s1) as Hheap by (by intros []).
    assert (forall (b : bool) s1,
               Design.placedFields (if b then Design.set_currentFieldType None s1 else s1) =
               Design.placedFields s1) as Hplaced by (by intros []).
    rewrite Hheap, Hplaced, Design_placeNewField_heap, Design_placeNewField_placedFields.
    eexists. split; [reflexivity|]. split.
    { apply list_lookup_middle. by rewrite length_forEach. }
    repeat split; reflexivity.
  - intros st rect H. unfold Design.drawnOverlays in H.
    apply list_elem_of_In, in_map_iff in H as (f & Heq & Hin).
    apply list_elem_of_In, list_elem_of_filter in Hin as [Hpg Hin].
    exists f. split; [done|]. split; [done|]. by rewrite <- Heq.
Qed.

(** C1 as stated fails on the non-portfolio design page: at scale 1.2 a
    click at canvas position (120, 60) stores a field at (120, 60), not
    at (120 / 1.2, 60 / 1.2), and its overlay is drawn at the stored
    position, not at the stored position times the scale. *)
Lemma design_page_stores_canvas_pixels :
  let st := dArmed in
  let st' := Design.canvasClick exClick (Some "name1") st in
  Design.scale st == 12 # 10 /\
  Design.canvasX exClick st == 120 /\
  Design.canvasY exClick st == 60 /\
  exists f,
    Design.fields st' = [f] /\
    Design.x f == 120 /\ Design.y f == 60 /\
    ~ Design.x f == 120 / Design.scale st /\
    ~ Design.y f == 60 / Design.scale st /\
    Design.drawnOverlays st' = [Design.drawFieldOverlay f] /\
    ~ left (Design.drawFieldOverlay f) == Design.x f * Design.scale st'.
Proof.
  simpl. split; [reflexivity|]. split; [reflexivity|]. split; [reflexivity|].
  eexists. split; [reflexivity|]. simpl.
  repeat split; try reflexivity; intros H; vm_compute in H; discriminate.
Qed.

(** ** Collecting the form values *)

Lemma collectOne_lookup (fieldInputs : gmap string Fill.FieldInput)
    (formValues : gmap string Fill.FormValue) (fieldName k : string) :
  Fill.collectOne fieldInputs formValues fieldName !! k =
  if decide (k = fieldName) then
    match fieldInputs !! k with
    | Some (Fill.SignaturePadInput url) => Some (Fill.TextValue url)
    | Some (Fill.InputElement Fill.checkbox c _) => Some (Fill.BoolValue c)
    | Some (Fill.InputElement _ _ v) => Some (Fill.TextValue v)
    | None => formValues !! k
    end
  else formValues !! k.
Proof.
  unfold Fill.collectOne. case_decide as Hk.
  - subst k. destruct (fieldInputs !! fieldName) as [[[] c v|url]|];
      by rewrite ?lookup_insert_eq.
  - destruct (fieldInputs !! fieldName) as [[[] c v|url]|];
      by rewrite ?lookup_insert_ne.
Qed.

Lemma collect_foldl_lookup (fieldInputs : gmap string Fill.FieldInput)
    (keys : list string) (acc : gmap string Fill.FormValue) (k : string) :
  foldl (Fill.collectOne fieldInputs) acc keys !! k =
  if decide (k ∈ keys) then
    match fieldInputs !! k with
    | Some (Fill.SignaturePadInput url) => Some (Fill.TextValue url)
    | Some (Fill.InputElement Fill.checkbox c _) => Some (Fill.BoolValue c)
    | Some (Fill.InputElement _ _ v) => Some (Fill.TextValue v)
    | None => acc !! k
    end
  else acc !! k.
Proof.
  induction keys as [|a keys IH] using rev_ind.
  - simpl. destruct (decide (k ∈ [])) as [H|H]; [|done]. by apply not_elem_of_nil in H.
  - rewrite foldl_snoc, collectOne_lookup, IH.
    destruct (decide (k ∈ keys ++ [a])) as [Hin|Hnin];
      destruct (decide (k = a)) as [->|Hne];
      destruct (decide (_ ∈ keys)) as [Hk|Hk]; try done.
    + by destruct (fieldInputs !! a) as [[[] c v|url]|].
    + apply elem_of_app in Hin as [Hin|Hin%list_elem_of_singleton]; done.
    + exfalso. apply Hnin, elem_of_app. right. apply list_elem_of_here.
    + exfalso. apply Hnin, elem_of_app. right. apply list_elem_of_here.
    + exfalso. apply Hnin, elem_of_app. by left.
Qed.

(** C8. [collectFormValues] returns one value per field input and no
    other entry: under the name of each input it holds the checked state
    for a checkbox, the data URL of the pad for a signature, and the text
    value of the input for every other kind; a name without an input has
    no entry. *)
Theorem collectFormValues_one_value_per_input
    (fieldInputs : gmap string Fill.FieldInput) (fieldName : string) :
  Fill.collectFormValues fieldInputs !! fieldName =
  match fieldInputs !! fieldName with
  | Some (Fill.SignaturePadInput url) => Some (Fill.TextValue url)
  | Some (Fill.InputElement Fill.checkbox c _) => Some (Fill.BoolValue c)
  | Some (Fill.InputElement _ _ v) => Some (Fill.TextValue v)
  | None => None
  end.
Proof.
  unfold Fill.collectFormValues. rewrite collect_foldl_lookup.
  case_decide as Hin.
  - destruct (fieldInputs !! fieldName) as [[[] c v|url]|]; try done.
  - destruct (fieldInputs !! fieldName) as [i|] eqn:E; [|done].
    exfalso. apply Hin. unfold Fill.Object_keys.
    apply list_elem_of_fmap. exists (fieldName, i). split; [done|].
    by apply elem_of_map_to_list.
Qed.

(** ** Arrays: findIndex and splice *)

Lemma findIndexFrom_spec {A} (p : A -> bool) (l : list A) (k : Z) :
  (findIndexFrom p l k = -1 /\ forall a, a ∈ l -> p a = false) \/
  (exists l1 a l2,
      l = l1 ++ a :: l2 /\ p a = true /\ (forall b, b ∈ l1 -> p b = false) /\
      findIndexFrom p l k = k + Z.of_nat (length l1)) \/
  k < 0.
Proof.
  destruct (Z.ltb_spec k 0) as [Hk|Hk]; [by right; right|].
  revert k Hk. induction l as [|a l IH]; intros k Hk; simpl.
  - left. split; [done|]. intros a Ha. by apply not_elem_of_nil in Ha.
  - destruct (p a) eqn:Hpa.
    + right. left. exists [], a, l. simpl. split; [done|]. split; [done|].
      split; [|lia]. intros b Hb. by apply not_elem_of_nil in Hb.
    + destruct (IH (k + 1)) as [[Hnone Hall]|[(l1 & b & l2 & -> & Hpb & Hl1 & Hidx)|Hneg]];
        [lia| | |lia].
      * left. split; [done|]. intros c [->|Hc]%elem_of_cons; auto.
      * right. left. exists (a :: l1), b, l2. split; [done|]. split; [done|].
        split; [|rewrite Hidx; simpl; lia].
        intros c [->|Hc]%elem_of_cons; auto.
Qed.

Lemma findIndex_spec {A} (p : A -> bool) (l : list A) :
  (findIndex p l = -1 /\ forall a, a ∈ l -> p a = false) \/
  (exists l1 a l2,
      l = l1 ++ a :: l2 /\ p a = true /\ (forall b, b ∈ l1 -> p b = false) /\
      findIndex p l = Z.of_nat (length l1)).
Proof.
  unfold findIndex.
  destruct (findIndexFrom_spec p l 0) as [H|[H|H]]; [by left | by right | lia].
Qed.

Lemma splice1_middle {A} (l1 l2 : list A) (a : A) :
  splice1 (Z.of_nat (length l1)) (l1 ++ a :: l2) = l1 ++ l2.
Proof.
  unfold splice1. rewrite Nat2Z.id, take_app_length. f_equal.
  rewrite (assoc_L (++) l1 [a] l2 : l1 ++ a :: l2 = (l1 ++ [a]) ++ l2).
  apply drop_app_length'. rewrite length_app. simpl. lia.
Qed.

(** C10. [deleteSelectedField] removes the selected field and nothing
    else.  Without an active field the state is unchanged.  With an
    active field, no field object is modified, and the list loses the
    first reference whose field has the id of the active field (the
    list is unchanged when there is none); in particular, when the
    active field is in the list and is the only one with its id, the
    list afterwards is the list before without it, the other fields in
    their order. *)
Theorem deleteSelectedField_removes_only_the_active_field :
  (forall st, Portfolio.activeField st = None ->
              Portfolio.deleteSelectedField st = st) /\
  (forall st a f,
      Portfolio.activeField st = Some a ->
      Portfolio.heap st !! a = Some f ->
      let st' := Portfolio.deleteSelectedField st in
      Portfolio.heap st' = Portfolio.heap st /\
      ((exists l1 r l2,
           Portfolio.formFields st = l1 ++ r :: l2 /\
           Portfolio.id_is st (Portfolio.id f) r = true /\
           (forall r', r' ∈ l1 -> Portfolio.id_is st (Portfolio.id f) r' = false) /\
           Portfolio.formFields st' = l1 ++ l2) \/
       ((forall r, r ∈ Portfolio.formFields st ->
                   Portfolio.id_is st (Portfolio.id f) r = false) /\
        Portfolio.formFields st' = Portfolio.formFields st))) /\
  (forall st a f l1 l2,
      Portfolio.activeField st = Some a ->
      Portfolio.heap st !! a = Some f ->
      Portfolio.formFields st = l1 ++ a :: l2 ->
      (forall r, r ∈ l1 ++ l2 -> Portfolio.id_is st (Portfolio.id f) r = false) ->
      let st' := Portfolio.deleteSelectedField st in
      Portfolio.heap st' = Portfolio.heap st /\
      Portfolio.formFields st' = l1 ++ l2 /\
      Portfolio.fields st' = omap (fun r => Portfolio.heap st !! r) (l1 ++ l2)).
Proof.
  assert (forall st a f,
             Portfolio.activeField st = Some a ->
             Portfolio.heap st !! a = Some f ->
             let st' := Portfolio.deleteSelectedField st in
             Portfolio.heap st' = Portfolio.heap st /\
             ((exists l1 r l2,
                  Portfolio.formFields st = l1 ++ r :: l2 /\
                  Portfolio.id_is st (Portfolio.id f) r = true /\
                  (forall r', r' ∈ l1 -> Portfolio.id_is st (Portfolio.id f) r' = false) /\
                  Portfolio.formFields st' = l1 ++ l2) \/
              ((forall r, r ∈ Portfolio.formFields st ->
                          Portfolio.id_is st (Portfolio.id f) r = false) /\
               Portfolio.formFields st' = Portfolio.formFields st))) as General.
  { intros st a f Ha Hf st'. subst st'.
    unfold Portfolio.deleteSelectedField, Portfolio.deselectField. rewrite Ha, Hf.
    destruct (findIndex_spec (Portfolio.id_is st (Portfolio.id f)) (Portfolio.formFields st))
      as [[Hidx Hall]|(l1 & r & l2 & Hl & Hr & Hl1 & Hidx)]; rewrite Hidx.
    - simpl. split; [done|]. right. done.
    - assert ((Z.of_nat (length l1) =? -1) = false) as -> by lia.
      simpl. split; [done|]. left. exists l1, r, l2.
      repeat split; try done. rewrite Hl. apply splice1_middle. }
  split; [|split; [exact General|]].
  - intros st H. unfold Portfolio.deleteSelectedField. by rewrite H.
  - intros st a f l1 l2 Ha Hf Hl Huniq st'.
    destruct (General st a f Ha Hf) as [Hheap Hcases]. fold st' in Hheap, Hcases.
    assert (Portfolio.id_is st (Portfolio.id f) a = true) as Hida.
    { unfold Portfolio.id_is. rewrite Hf. by apply bool_decide_eq_true. }
    assert (Portfolio.formFields st' = l1 ++ l2) as Hlist.
    { destruct Hcases as [(k1 & r & k2 & Hk & Hr & Hk1 & Hres)|[Hall _]].
      - rewrite Hres. rewrite Hl in Hk.
        assert (r = a /\ k1 = l1 /\ k2 = l2) as (-> & -> & ->); [|done].
        clear -Hk Hr Hk1 Huniq Hida.
        revert k1 Hk Hk1 Huniq. induction l1 as [|b l1 IH]; intros k1 Hk Hk1 Huniq.
        + destruct k1 as [|c k1]; simpl in Hk.
          * injection Hk as -> ->. done.
          * injection Hk as -> Hk. exfalso.
            specialize (Hk1 c (list_elem_of_here _ _)). congruence.
        + destruct k1 as [|c k1]; simpl in Hk.
          * injection Hk as -> Hk. exfalso.
            specialize (Huniq r (list_elem_of_here _ _)). congruence.
          * injection Hk as -> Hk.
            destruct (IH k1 Hk) as (-> & -> & ->); [| |done].
            -- intros r' Hr'. apply Hk1. by apply list_elem_of_further.
            -- intros r' Hr'. apply Huniq. simpl. by apply list_elem_of_further.
      - exfalso. specialize (Hall a). rewrite Hl in Hall.
        rewrite Hall in Hida; [discriminate|].
        apply elem_of_app. right. apply list_elem_of_here. }
    split; [done|]. split; [done|].
    unfold Portfolio.fields. by rewrite Hlist, Hheap.
Qed.

(** ** Selecting the field under the pointer *)

Lemma app_cons_unique {A} (l1 l2 k1 k2 : list A) (a : A) :
  l1 ++ a :: l2 = k1 ++ a :: k2 -> a ∉ l1 -> a ∉ k1 -> l1 = k1 /\ l2 = k2.
Proof.
  revert k1. induction l1 as [|b l1 IH]; intros [|c k1] Heq Hl Hk; simpl in Heq.
  - by injection Heq as ->.
  - injection Heq as -> _. exfalso. apply Hk, list_elem_of_here.
  - injection Heq as -> _. exfalso. apply Hl, list_elem_of_here.
  - injection Heq as -> Heq. destruct (IH k1 Heq) as [-> ->]; [| |done].
    + intros H. apply Hl. by apply list_elem_of_further.
    + intros H. apply Hk. by apply list_elem_of_further.
Qed.

Lemma topmost_reverse_spec (px py : Q) (h : list Design.Field) (l : list ref) :
  (Design.topmost px py h (reverse l) = None /\
   forall r, r ∈ l -> ~ inside px py h r) \/
  (exists l1 r l2,
      l = l1 ++ r :: l2 /\ inside px py h r /\
      (forall r', r' ∈ l2 -> ~ inside px py h r') /\
      Design.topmost px py h (reverse l) = Some r).
Proof.
  induction l as [|a l IH] using rev_ind.
  - left. split; [done|]. intros r Hr. by apply not_elem_of_nil in Hr.
  - rewrite reverse_snoc. simpl.
    destruct (h !! a) as [f|] eqn:Hf.
    + destruct (Design.isPointInField px py f) eqn:Hp.
      * right. exists l, a, []. split; [done|]. split; [by exists f|].
        split; [|done]. intros r' Hr'. by apply not_elem_of_nil in Hr'.
      * destruct IH as [[Hnone Hall]|(l1 & r & l2 & -> & Hin & Hl2 & Htop)].
        -- left. split; [done|].
           intros r [Hr|Hr%list_elem_of_singleton]%elem_of_app; [by apply Hall|subst r].
           intros (f' & Hf' & Hp'). congruence.
        -- right. exists l1, r, (l2 ++ [a]). split; [by rewrite <- app_assoc|].
           split; [done|]. split; [|done].
           intros r' [Hr'|Hr'%list_elem_of_singleton]%elem_of_app; [by apply Hl2|subst r'].
           intros (f' & Hf' & Hp'). congruence.
    + destruct IH as [[Hnone Hall]|(l1 & r & l2 & -> & Hin & Hl2 & Htop)].
      * left. split; [done|].
        intros r [Hr|Hr%list_elem_of_singleton]%elem_of_app; [by apply Hall|subst r].
        intros (f' & Hf' & Hp'). congruence.
      * right. exists l1, r, (l2 ++ [a]). split; [by rewrite <- app_assoc|].
        split; [done|]. split; [|done].
        intros r' [Hr'|Hr'%list_elem_of_singleton]%elem_of_app; [by apply Hl2|subst r'].
        intros (f' & Hf' & Hp'). congruence.
Qed.

Lemma isPointInField_spec px py f :
  Design.isPointInField px py f = true <->
  (Design.x f <= px /\ px <= Design.x f + Design.width f /\
   Design.y f <= py /\ py <= Design.y f + Design.height f)%Q.
Proof.
  unfold Design.isPointInField, Qgeb.
  rewrite !andb_true_iff, !Qle_bool_iff. tauto.
Qed.

(** C4. [getFieldAtPosition] resolves overlaps by list order: when the
    references of the list are distinct objects and at least one field
    of the current page contains the point, the result is the position
    of the last such field of the list; when no field of the current
    page contains the point the result is -1. *)
Theorem getFieldAtPosition_returns_the_topmost_field (st : Design.State) (px py : Q) :
  NoDup (Design.placedFields st) ->
  ((exists i, hitAt st px py i) ->
   exists j, Design.getFieldAtPosition px py st = Z.of_nat j /\
             hitAt st px py j /\
             forall i, hitAt st px py i -> (i <= j)%nat) /\
  ((forall i, ~ hitAt st px py i) -> Design.getFieldAtPosition px py st = -1).
Proof.
  intros Hnd. unfold Design.getFieldAtPosition.
  set (onPage := fun r : ref => Design.onCurrentPage st r = true).
  assert (forall i r f,
             Design.placedFields st !! i = Some r ->
             Design.heap st !! r = Some f ->
             Design.page f = Design.pageNum st - 1 ->
             r ∈ filter onPage (Design.placedFields st)) as Hfilter.
  { intros i r f Hi Hf Hpg. apply list_elem_of_filter. split.
    - unfold onPage, Design.onCurrentPage. rewrite Hf. lia.
    - by eapply list_elem_of_lookup_2. }
  destruct (topmost_reverse_spec px py (Design.heap st)
              (filter onPage (Design.placedFields st)))
    as [[Hnone Hall]|(l1 & r & l2 & Hl & Hin & Hl2 & Htop)].
  - rewrite Hnone. split; [|done].
    intros (i & r & f & Hi & Hf & Hpg & Hp). exfalso.
    apply (Hall r); [by eapply Hfilter|]. by exists f.
  - rewrite Htop.
    assert (r ∈ filter onPage (Design.placedFields st)) as Hr.
    { rewrite Hl. apply elem_of_app. right. apply list_elem_of_here. }
    apply list_elem_of_filter in Hr as [Hpage Hr].
    destruct (findIndex_spec (fun r0 : ref => bool_decide (r0 = r)) (Design.placedFields st))
      as [[_ Hall]|(p1 & a & p2 & Hp & Ha & Hp1 & Hidx)].
    { specialize (Hall r Hr). by rewrite bool_decide_eq_false in Hall. }
    apply bool_decide_eq_true in Ha. subst a. rewrite Hidx.
    destruct Hin as (f & Hf & Hpt).
    assert (hitAt st px py (length p1)) as Hj.
    { exists r, f. rewrite Hp. split; [by apply list_lookup_middle|].
      split; [done|]. split; [|done].
      unfold onPage, Design.onCurrentPage in Hpage. rewrite Hf in Hpage. lia. }
    assert (forall i, hitAt st px py i -> (i <= length p1)%nat) as Hmax.
    { intros i (r' & f' & Hi & Hf' & Hpg' & Hpt').
      destruct (decide (i <= length p1)%nat) as [|Hgt]; [done|]. exfalso.
      assert (NoDup (filter onPage (Design.placedFields st))) as Hndl
        by (by apply NoDup_filter).
      rewrite Hp in Hnd, Hi. apply NoDup_app in Hnd as (_ & Hdisj & Hnd2).
      apply NoDup_cons in Hnd2 as [Hrp2 _].
      assert (r ∉ p1) as Hrp1.
      { intros H. apply (Hdisj r H). apply list_elem_of_here. }
      rewrite lookup_app_r in Hi by lia.
      destruct (i - length p1)%nat as [|n] eqn:En; [lia|]. simpl in Hi.
      assert (r' ∈ filter onPage p2) as Hr'.
      { apply list_elem_of_filter. split.
        - unfold onPage, Design.onCurrentPage. rewrite Hf'. lia.
        - by eapply list_elem_of_lookup_2. }
      rewrite Hl in Hndl.
      rewrite Hp, filter_app, filter_cons_True in Hl by done.
      apply NoDup_app in Hndl as (_ & Hdisjl & _).
      destruct (app_cons_unique _ _ _ _ _ Hl) as [_ Heq].
      + intros H%list_elem_of_filter. by destruct H.
      + intros H. apply (Hdisjl r H). apply list_elem_of_here.
      + rewrite Heq in Hr'. apply (Hl2 r' Hr'). by exists f'. }
    split.
    + intros _. exists (length p1). done.
    + intros Hno. exfalso. by apply (Hno (length p1)).
Qed.

(** ** Saving: grouping by page and the order of the pages *)

Lemma pushByPage_elem p (f : Design.Field) obj k fs :
  (k, fs) ∈ Design.pushByPage p f obj ->
  (k, fs) ∈ obj \/
  (k = p /\ exists fs0, fs = fs0 ++ [f] /\ ((k, fs0) ∈ obj \/ fs0 = [])).
Proof.
  induction obj as [|[k' fs'] obj IH]; simpl.
  - intros H%list_elem_of_singleton. injection H as -> ->.
    right. split; [done|]. exists []. auto.
  - destruct (k' =? p) eqn:E.
    + intros [H|H]%elem_of_cons.
      * injection H as -> ->. right. split; [lia|]. exists fs'. split; [done|].
        left. apply list_elem_of_here.
      * left. by apply list_elem_of_further.
    + intros [H|H]%elem_of_cons.
      * injection H as -> ->. left. apply list_elem_of_here.
      * destruct (IH H) as [Hin|(-> & fs0 & -> & [Hin| ->])].
        -- left. by apply list_elem_of_further.
        -- right. split; [done|]. exists fs0. split; [done|]. left.
           by apply list_elem_of_further.
        -- right. split; [done|]. exists []. auto.
Qed.

Lemma pushByPage_new p (f : Design.Field) obj :
  exists fs, (p, fs) ∈ Design.pushByPage p f obj /\ f ∈ fs.
Proof.
  induction obj as [|[k' fs'] obj IH]; simpl.
  - exists [f]. split; apply list_elem_of_here.
  - destruct (k' =? p) eqn:E.
    + exists (fs' ++ [f]). assert (k' = p) as -> by lia. split.
      * apply list_elem_of_here.
      * apply elem_of_app. right. apply list_elem_of_here.
    + destruct IH as (fs & Hin & Hf). exists fs. split; [|done].
      by apply list_elem_of_further.
Qed.

Lemma pushByPage_old p (f : Design.Field) obj k fs :
  (k, fs) ∈ obj ->
  exists fs', (k, fs') ∈ Design.pushByPage p f obj /\ forall g, g ∈ fs -> g ∈ fs'.
Proof.
  induction obj as [|[k' fs'] obj IH]; simpl.
  - intros H. by apply not_elem_of_nil in H.
  - intros [H|H]%elem_of_cons.
    + injection H as -> ->. destruct (k' =? p).
      * exists (fs' ++ [f]). split; [apply list_elem_of_here|].
        intros g Hg. apply elem_of_app. by left.
      * exists fs'. split; [apply list_elem_of_here | done].
    + destruct (IH H) as (fs2 & Hin & Hsub). destruct (k' =? p).
      * exists fs. split; [|done]. by apply list_elem_of_further.
      * exists fs2. split; [|done]. by apply list_elem_of_further.
Qed.

Lemma fieldsByPage_sound (placed : list Design.Field) k fs f :
  (k, fs) ∈ Design.fieldsByPage placed -> f ∈ fs ->
  Design.page f = k /\ f ∈ placed.
Proof.
  unfold Design.fieldsByPage. revert k fs f.
  induction placed as [|g placed IH] using rev_ind; intros k fs f.
  - simpl. intros H. by apply not_elem_of_nil in H.
  - rewrite foldl_snoc. intros Hin Hf.
    apply pushByPage_elem in Hin as [Hin|(-> & fs0 & -> & Hfs0)].
    + destruct (IH _ _ _ Hin Hf) as [Hp Hpl]. split; [done|].
      apply elem_of_app. by left.
    + apply elem_of_app in Hf as [Hf|Hf%list_elem_of_singleton].
      * destruct Hfs0 as [Hin| ->]; [|by apply not_elem_of_nil in Hf].
        destruct (IH _ _ _ Hin Hf) as [Hp Hpl]. split; [done|].
        apply elem_of_app. by left.
      * subst f. split; [done|]. apply elem_of_app. right. apply list_elem_of_here.
Qed.

Lemma fieldsByPage_complete (placed : list Design.Field) f :
  f ∈ placed ->
  exists fs, (Design.page f, fs) ∈ Design.fieldsByPage placed /\ f ∈ fs.
Proof.
  unfold Design.fieldsByPage.
  induction placed as [|g placed IH] using rev_ind.
  - intros H. by apply not_elem_of_nil in H.
  - rewrite foldl_snoc. intros [Hf|Hf%list_elem_of_singleton]%elem_of_app.
    + destruct (IH Hf) as (fs & Hin & Hfs).
      destruct (pushByPage_old (Design.page g) g _ _ _ Hin) as (fs' & Hin' & Hsub).
      exists fs'. split; [done|]. by apply Hsub.
    + subst g. apply pushByPage_new.
Qed.

Lemma insertEntry_elem e sorted x :
  x ∈ Design.insertEntry e sorted <-> x = e \/ x ∈ sorted.
Proof.
  induction sorted as [|e' rest IH]; simpl.
  - rewrite list_elem_of_singleton, elem_of_nil. tauto.
  - destruct (e.1 <=? e'.1).
    + by rewrite elem_of_cons.
    + rewrite !elem_of_cons, IH. tauto.
Qed.

Lemma sorted_entries_elem l x :
  x ∈ foldr Design.insertEntry [] l <-> x ∈ l.
Proof.
  induction l as [|e l IH]; simpl; [done|].
  by rewrite insertEntry_elem, elem_of_cons, IH.
Qed.

Lemma at_index_Some {A} (l : list A) (i : Z) (a : A) :
  at_index l i = Some a -> 0 <= i < Z.of_nat (length l).
Proof.
  unfold at_index. destruct (Z.ltb_spec i 0) as [Hneg|Hpos]; [discriminate|].
  intros Hl%lookup_lt_Some. lia.
Qed.

Lemma at_index_in_range {A} (l : list A) (i : Z) :
  0 <= i < Z.of_nat (length l) -> exists a, at_index l i = Some a.
Proof.
  intros Hi. unfold at_index. destruct (Z.ltb_spec i 0); [lia|].
  apply lookup_lt_is_Some. lia.
Qed.

Lemma acroFieldFor_rect k ph f a :
  Design.acroFieldFor k ph f = Some a ->
  Design.onPage a = k /\ Design.partialName a = Design.name f /\
  Design.rect_x a = Design.x f /\
  Design.rect_y a = (ph - Design.y f - Design.height f)%Q /\
  Design.rect_width a = Design.width f /\
  Design.rect_height a = Design.height f.
Proof.
  unfold Design.acroFieldFor.
  repeat case_match; intros [= <-]; simpl; done.
Qed.

Lemma acroFieldFor_creatable k ph f :
  Design.type f ∈ creatableTypes -> exists a, Design.acroFieldFor k ph f = Some a.
Proof.
  unfold creatableTypes, Design.acroFieldFor. intros H.
  apply list_elem_of_In in H. simpl in H.
  destruct H as [<-|[<-|[<-|[<-|[]]]]]; simpl; eauto.
Qed.

Section SaveLemmas.

Variable libraryThrows : list Design.AcroField -> Design.Field -> bool.

Lemma addField_sound k ph fs added a :
  a ∈ foldl (Design.addField libraryThrows k ph) added fs ->
  a ∈ added \/ exists f, f ∈ fs /\ Design.acroFieldFor k ph f = Some a.
Proof.
  revert added. induction fs as [|f fs IH]; intros added; simpl; [auto|].
  intros H. destruct (IH _ H) as [Hin|(g & Hg & Ha)].
  - unfold Design.addField in Hin.
    destruct (Design.acroFieldFor k ph f) as [b|] eqn:E; [|auto].
    destruct (libraryThrows added f); [auto|].
    apply elem_of_app in Hin as [Hin|Hin%list_elem_of_singleton]; [auto|].
    subst b. right. exists f. split; [apply list_elem_of_here | done].
  - right. exists g. split; [by apply list_elem_of_further | done].
Qed.

Lemma addField_mono k ph fs added a :
  a ∈ added -> a ∈ foldl (Design.addField libraryThrows k ph) added fs.
Proof.
  revert added. induction fs as [|f fs IH]; intros added Hin; simpl; [done|].
  apply IH. unfold Design.addField. repeat case_match; try done.
  apply elem_of_app. by left.
Qed.

Lemma addField_complete k ph fs added f a :
  f ∈ fs -> Design.acroFieldFor k ph f = Some a ->
  (forall l, libraryThrows l f = false) ->
  a ∈ foldl (Design.addField libraryThrows k ph) added fs.
Proof.
  intros Hf Ha Hlib. revert added.
  induction fs as [|g fs IH]; intros added; [by apply not_elem_of_nil in Hf|].
  simpl. apply elem_of_cons in Hf as [<-|Hf]; [|by apply IH].
  apply addField_mono. unfold Design.addField. rewrite Ha, Hlib.
  apply elem_of_app. right. apply list_elem_of_here.
Qed.

Lemma visitPage_sound pages l added a :
  a ∈ foldl (visitPage libraryThrows pages) added l ->
  a ∈ added \/
  exists k fs f pw ph,
    (k, fs) ∈ l /\ f ∈ fs /\ at_index pages k = Some (pw, ph) /\
    Design.acroFieldFor k ph f = Some a.
Proof.
  revert added. induction l as [|[k fs] l IH]; intros added; simpl; [auto|].
  intros H. destruct (IH _ H) as [Hin|(k' & fs' & f & pw & ph & Hin & Hf & Hpg & Ha)].
  - unfold visitPage in Hin. simpl in Hin.
    destruct (pageCount pages <=? k); [auto|].
    destruct (at_index pages k) as [[pw ph]|] eqn:E; [|auto].
    apply addField_sound in Hin as [Hin|(f & Hf & Ha)]; [auto|].
    right. exists k, fs, f, pw, ph. split; [apply list_elem_of_here | done].
  - right. exists k', fs', f, pw, ph. split; [by apply list_elem_of_further | done].
Qed.

Lemma visitPage_mono pages l added a :
  a ∈ added -> a ∈ foldl (visitPage libraryThrows pages) added l.
Proof.
  revert added. induction l as [|[k fs] l IH]; intros added Hin; simpl; [done|].
  apply IH. unfold visitPage. simpl. repeat case_match; try done.
  by apply addField_mono.
Qed.

Lemma visitPage_complete pages l added k fs f pw ph a :
  (k, fs) ∈ l -> f ∈ fs -> at_index pages k = Some (pw, ph) ->
  Design.acroFieldFor k ph f = Some a ->
  (forall l', libraryThrows l' f = false) ->
  a ∈ foldl (visitPage libraryThrows pages) added l.
Proof.
  intros Hin Hf Hpg Ha Hlib. revert added.
  induction l as [|e l IH]; intros added; [by apply not_elem_of_nil in Hin|].
  simpl. apply elem_of_cons in Hin as [<-|Hin]; [|by apply IH].
  apply visitPage_mono. unfold visitPage. simpl.
  pose proof (at_index_Some _ _ _ Hpg) as Hrange.
  assert ((pageCount pages <=? k) = false) as -> by (unfold pageCount; lia).
  rewrite Hpg. by eapply addField_complete.
Qed.

Lemma addToPages_nonnegative pages l1 l2 added :
  (forall e, e ∈ l1 -> 0 <= e.1) ->
  Design.addToPages libraryThrows pages (l1 ++ l2) added =
  Design.addToPages libraryThrows pages l2 (foldl (visitPage libraryThrows pages) added l1).
Proof.
  revert added. induction l1 as [|[k fs] l1 IH]; intros added Hpos; simpl; [done|].
  assert (0 <= k) as Hk by (apply (Hpos (k, fs)), list_elem_of_here).
  assert (forall e, e ∈ l1 -> 0 <= e.1) as Hpos'
    by (intros e He; apply Hpos; by apply list_elem_of_further).
  unfold visitPage at 2. simpl. fold (pageCount pages).
  destruct (Z.leb_spec (pageCount pages) k) as [Hge|Hlt]; [by apply IH|].
  destruct (at_index_in_range pages k) as [[pw ph] Hpg]; [unfold pageCount in Hlt; lia|].
  rewrite Hpg. by apply IH.
Qed.

Lemma addToPages_negative pages l added :
  (forall e, e ∈ l -> e.1 < 0) ->
  Design.addedFields (Design.addToPages libraryThrows pages l added) = added /\
  (l = [] -> Design.addToPages libraryThrows pages l added = Design.Completed added).
Proof.
  destruct l as [|[k fs] l]; intros Hneg; simpl; [done|].
  assert (k < 0) as Hk by (apply (Hneg (k, fs)), list_elem_of_here).
  destruct (Z.leb_spec (Z.of_nat (length pages)) k) as [Hge|Hlt]; [lia|].
  unfold at_index. destruct (Z.ltb_spec k 0) as [Hneg'|Hpos]; [done | lia].
Qed.

(** The fields in the document after the loop: the pages with an index
    of 0 or more are visited in ascending order. *)
Lemma savePDFWithFields_added pages placed :
  Design.addedFields (Design.savePDFWithFields libraryThrows pages placed) =
  foldl (visitPage libraryThrows pages) []
    (foldr Design.insertEntry []
       (filter (fun e => 0 <= e.1) (Design.fieldsByPage placed))).
Proof.
  unfold Design.savePDFWithFields, Design.Object_entries.
  rewrite addToPages_nonnegative.
  - apply addToPages_negative. intros e He. by apply list_elem_of_filter in He as [].
  - intros e He. apply (proj1 (sorted_entries_elem _ _)) in He.
    by apply list_elem_of_filter in He as [].
Qed.

End SaveLemmas.

Lemma fieldsByPage_key (placed : list Design.Field) k fs :
  (k, fs) ∈ Design.fieldsByPage placed ->
  exists f, f ∈ placed /\ Design.page f = k.
Proof.
  unfold Design.fieldsByPage. revert k fs.
  induction placed as [|g placed IH] using rev_ind; intros k fs.
  - simpl. intros H. by apply not_elem_of_nil in H.
  - rewrite foldl_snoc. intros Hin.
    apply pushByPage_elem in Hin as [Hin|(-> & _)].
    + destruct (IH _ _ Hin) as (f & Hf & Hp). exists f. split; [|done].
      apply elem_of_app. by left.
    + exists g. split; [|done]. apply elem_of_app. right. apply list_elem_of_here.
Qed.

Lemma savePDFWithFields_sound libraryThrows pages placed a :
  a ∈ Design.addedFields (Design.savePDFWithFields libraryThrows pages placed) ->
  exists f pw ph,
    f ∈ placed /\ at_index pages (Design.page f) = Some (pw, ph) /\
    Design.acroFieldFor (Design.page f) ph f = Some a.
Proof.
  rewrite savePDFWithFields_added. intros Ha.
  apply visitPage_sound in Ha as [Ha|(k & fs & f & pw & ph & Hin & Hf & Hpg & Hacro)];
    [by apply not_elem_of_nil in Ha|].
  apply sorted_entries_elem, list_elem_of_filter in Hin as [_ Hin].
  destruct (fieldsByPage_sound _ _ _ _ Hin Hf) as [<- Hpl].
  by exists f, pw, ph.
Qed.

Lemma savePDFWithFields_complete libraryThrows pages placed f pw ph a :
  f ∈ placed ->
  at_index pages (Design.page f) = Some (pw, ph) ->
  Design.acroFieldFor (Design.page f) ph f = Some a ->
  (forall l, libraryThrows l f = false) ->
  a ∈ Design.addedFields (Design.savePDFWithFields libraryThrows pages placed).
Proof.
  intros Hf Hpg Ha Hlib. rewrite savePDFWithFields_added.
  destruct (fieldsByPage_complete _ _ Hf) as (fs & Hin & Hfs).
  eapply visitPage_complete; eauto.
  apply sorted_entries_elem, list_elem_of_filter. split; [|done].
  simpl. apply at_index_Some in Hpg. lia.
Qed.

(** C2. Saving moves a field from canvas space to PDF user space by
    flipping the vertical axis only: every form field added to the
    document comes from a placed field on a page the document has, and
    its widget is at x unchanged, y = pageHeight - field.y - field.height
    where pageHeight is the height of that page, with the width and the
    height of the field; and every placed field on such a page whose type
    the editor creates gets this widget, when the PDF library accepts
    it. *)
Theorem saved_widget_is_flipped_to_pdf_space
    (libraryThrows : list Design.AcroField -> Design.Field -> bool)
    (pages : list (Q * Q)) (placed : list Design.Field) :
  (forall a,
      a ∈ Design.addedFields (Design.savePDFWithFields libraryThrows pages placed) ->
      exists f pw pageHeight,
        f ∈ placed /\
        at_index pages (Design.page f) = Some (pw, pageHeight) /\
        Design.onPage a = Design.page f /\
        Design.partialName a = Design.name f /\
        Design.rect_x a = Design.x f /\
        Design.rect_y a = (pageHeight - Design.y f - Design.height f)%Q /\
        Design.rect_width a = Design.width f /\
        Design.rect_height a = Design.height f) /\
  (forall f pw pageHeight,
      f ∈ placed ->
      at_index pages (Design.page f) = Some (pw, pageHeight) ->
      Design.type f ∈ creatableTypes ->
      (forall l, libraryThrows l f = false) ->
      exists a,
        a ∈ Design.addedFields (Design.savePDFWithFields libraryThrows pages placed) /\
        Design.onPage a = Design.page f /\
        Design.partialName a = Design.name f /\
        Design.rect_x a = Design.x f /\
        Design.rect_y a = (pageHeight - Design.y f - Design.height f)%Q /\
        Design.rect_width a = Design.width f /\
        Design.rect_height a = Design.height f).
Proof.
  split.
  - intros a Ha.
    apply savePDFWithFields_sound in Ha as (f & pw & ph & Hf & Hpg & Hacro).
    exists f, pw, ph. split; [done|]. split; [done|]. by apply acroFieldFor_rect.
  - intros f pw ph Hf Hpg Hty Hlib.
    destruct (acroFieldFor_creatable (Design.page f) ph f Hty) as [a Ha].
    exists a. split; [by eapply savePDFWithFields_complete|].
    by apply acroFieldFor_rect.
Qed.

(** C9. [savePDFWithFields] adds no field to a page the document does
    not have: every form field it adds is on a page index below the page
    count; the form field of a placed field whose page index is at or
    beyond the page count is not added; the placed fields whose page the
    document has are still added (when the PDF library accepts them);
    and with page indices of 0 or more, as the editor produces them, the
    loop completes without throwing, also when some are beyond the last
    page. *)
Theorem fields_beyond_the_last_page_are_skipped
    (libraryThrows : list Design.AcroField -> Design.Field -> bool)
    (pages : list (Q * Q)) (placed : list Design.Field) :
  let result := Design.savePDFWithFields libraryThrows pages placed in
  (forall a, a ∈ Design.addedFields result ->
             0 <= Design.onPage a < pageCount pages) /\
  (forall f pageHeight a,
      f ∈ placed ->
      pageCount pages <= Design.page f ->
      Design.acroFieldFor (Design.page f) pageHeight f = Some a ->
      a ∉ Design.addedFields result) /\
  (forall f pw pageHeight a,
      f ∈ placed ->
      0 <= Design.page f < pageCount pages ->
      at_index pages (Design.page f) = Some (pw, pageHeight) ->
      Design.acroFieldFor (Design.page f) pageHeight f = Some a ->
      (forall l, libraryThrows l f = false) ->
      a ∈ Design.addedFields result) /\
  ((forall f, f ∈ placed -> 0 <= Design.page f) ->
   result = Design.Completed (Design.addedFields result)).
Proof.
  intros result.
  assert (forall a, a ∈ Design.addedFields result ->
                    0 <= Design.onPage a < pageCount pages) as Hrange.
  { intros a Ha.
    apply savePDFWithFields_sound in Ha as (f & pw & ph & Hf & Hpg & Hacro).
    apply acroFieldFor_rect in Hacro as [-> _]. by apply at_index_Some in Hpg. }
  split; [exact Hrange|]. split; [|split].
  - intros f ph a Hf Hbeyond Hacro Hin.
    apply Hrange in Hin. apply acroFieldFor_rect in Hacro as [Hp _]. lia.
  - intros f pw ph a Hf _ Hpg Hacro Hlib. by eapply savePDFWithFields_complete.
  - intros Hpos. subst result.
    unfold Design.savePDFWithFields, Design.Object_entries.
    assert (filter (fun e : Z * list Design.Field => e.1 < 0)
              (Design.fieldsByPage placed) = []) as ->.
    { destruct (filter _ _) as [|e l] eqn:E; [done|]. exfalso.
      assert (e ∈ filter (fun e : Z * list Design.Field => e.1 < 0)
                (Design.fieldsByPage placed)) as He
        by (rewrite E; apply list_elem_of_here).
      apply list_elem_of_filter in He as [Hneg He]. destruct e as [k fs].
      apply fieldsByPage_key in He as (f & Hf & Hk).
      specialize (Hpos f Hf). simpl in Hneg. lia. }
    rewrite addToPages_nonnegative.
    + reflexivity.
    + intros e He. apply (proj1 (sorted_entries_elem _ _)) in He.
      by apply list_elem_of_filter in He as [].
Qed.

(** ** The references of the design page are distinct objects *)

Lemma splice1_sublist {A} (i : Z) (l : list A) : splice1 i l `sublist_of` l.
Proof.
  unfold splice1. rewrite <- (take_drop (Z.to_nat i) l) at 3.
  apply sublist_app; [done|].
  replace (drop (S (Z.to_nat i)) l) with (drop 1 (drop (Z.to_nat i) l))
    by (rewrite drop_drop; f_equal; lia).
  apply sublist_drop.
Qed.

Lemma evolves_length {A B} (obs : A -> B) (P : B -> Prop) (h h' : list A) :
  evolves obs P h h' -> (length h <= length h')%nat.
Proof.
  intros [Hkeep _]. destruct (decide (length h <= length h')%nat) as [|Hgt]; [done|].
  exfalso. destruct (lookup_lt_is_Some_2 h (length h')) as [f Hf]; [lia|].
  destruct (Hkeep _ _ Hf) as (f' & Hf' & _).
  apply lookup_lt_Some in Hf'. lia.
Qed.

Lemma Design_step_placedFields st ev :
  Design.placedFields (Design.step st ev) = Design.placedFields st \/
  (exists i, Design.placedFields (Design.step st ev) = splice1 i (Design.placedFields st)) \/
  (Design.placedFields (Design.step st ev) =
     Design.placedFields st ++ [length (Design.heap st)] /\
   (length (Design.heap st) < length (Design.heap (Design.step st ev)))%nat).
Proof.
  destruct ev; simpl; design_unfold;
    repeat case_match; design_simpl; rewrite ?length_forEach; eauto;
    right; right; (split; [reflexivity|]);
    rewrite length_app, length_forEach; simpl; lia.
Qed.

Lemma dWf_step st ev : dWf st -> dWf (Design.step st ev).
Proof.
  intros [Hnd Hval]. unfold dWf.
  pose proof (evolves_length _ _ _ _ (Design_step_evolves st ev)) as Hlen.
  destruct (Design_step_placedFields st ev) as [->|[[i ->]|[-> Hgrow]]].
  - split; [done|]. intros r Hr. specialize (Hval r Hr). lia.
  - split.
    + eapply sublist_NoDup; [exact Hnd | apply splice1_sublist].
    + intros r Hr. eapply elem_of_sublist in Hr; [|apply splice1_sublist].
      specialize (Hval r Hr). lia.
  - split.
    + apply NoDup_app. split; [done|]. split; [|apply NoDup_singleton].
      intros r Hr Hin%list_elem_of_singleton. specialize (Hval r Hr). lia.
    + intros r [Hr|Hr%list_elem_of_singleton]%elem_of_app.
      * specialize (Hval r Hr). lia.
      * lia.
Qed.

(** In every state the design page reaches from its initial state, the
    field list holds distinct references. *)
Lemma dWf_run st evs : dWf st -> dWf (Design.run st evs).
Proof.
  unfold Design.run. revert st.
  induction evs as [|ev evs IH]; intros st H; simpl; [done|].
  apply IH, dWf_step, H.
Qed.

Lemma dWf_initial pages : dWf (Design.initial pages).
Proof.
  split; simpl; [apply NoDup_nil_2|]. intros r Hr. by apply not_elem_of_nil in Hr.
Qed.

(** * Further properties *)

(** ** The portfolio design page: modes, zoom and pages *)

Lemma toolbar_type_truthy k t i :
  Portfolio.fieldTypes !! k = Some (t, i) -> truthy (Some t) = true.
Proof.
  destruct k as [|[|[|[|k]]]]; simpl; intros H; inversion H; reflexivity.
Qed.

Lemma pModeOk_step st ev : pModeOk st -> pModeOk (Portfolio.step st ev).
Proof.
  intros Hok. destruct ev; simpl.
  - destruct (Portfolio.fieldTypes !! k) as [[t i]|] eqn:E; [|done].
    unfold Portfolio.selectFieldType. case_decide; simpl.
    + right. done.
    + left. split; [done|]. by exists k, t, i.
  - unfold Portfolio.handleOverlayClick. case_match; [done|]. right. done.
  - unfold Portfolio.selectField. by case_match.
  - unfold Portfolio.handleOverlayMouseDown, Portfolio.selectField, Portfolio.deselectField.
    by repeat case_match.
  - unfold Portfolio.handleOverlayMouseMove. by repeat case_match.
  - unfold Portfolio.handleOverlayMouseUp. by case_match.
  - unfold Portfolio.updateSelectedField. by repeat case_match.
  - unfold Portfolio.deleteSelectedField, Portfolio.deselectField. by repeat case_match.
  - done.
  - unfold Portfolio.zoomOut. by case_match.
  - unfold Portfolio.prevPage. by case_match.
  - unfold Portfolio.nextPage. by case_match.
  - unfold Portfolio.pageNumberChange. by repeat case_match.
Qed.

Lemma pModeOk_run st evs : pModeOk st -> pModeOk (Portfolio.run st evs).
Proof.
  unfold Portfolio.run. revert st.
  induction evs as [|ev evs IH]; intros st H; simpl; [done|].
  apply IH, pModeOk_step, H.
Qed.

(** X1. On the portfolio design page the placing flag and the selected
    type never disagree: after any sequence of events from a state where
    they agree, the flag is set exactly when a type is selected, and that
    type is one of the toolbar.  A toolbar button pressed while its type
    is selected leaves placing mode; pressed otherwise it enters placing
    mode with its type. *)
Theorem placing_flag_agrees_with_selected_type :
  (forall st evs,
      pModeOk st ->
      pModeOk (Portfolio.run st evs) /\
      Portfolio.isPlacingField (Portfolio.run st evs) =
        truthy (Portfolio.fieldTypeToAdd (Portfolio.run st evs))) /\
  (forall st k t i,
      Portfolio.fieldTypes !! k = Some (t, i) ->
      let st' := Portfolio.step st (Portfolio.ToolbarButton k) in
      (Portfolio.fieldTypeToAdd st = Some t ->
       Portfolio.isPlacingField st' = false /\ Portfolio.fieldTypeToAdd st' = None) /\
      (Portfolio.fieldTypeToAdd st <> Some t ->
       Portfolio.isPlacingField st' = true /\ Portfolio.fieldTypeToAdd st' = Some t)).
Proof.
  split.
  - intros st evs Hok. pose proof (pModeOk_run st evs Hok) as Hrun.
    split; [done|].
    destruct Hrun as [[-> (k & t & i & Hk & ->)]|[-> ->]]; [|done].
    symmetry. by eapply toolbar_type_truthy.
  - intros st k t i Hk st'. subst st'. simpl. rewrite Hk.
    unfold Portfolio.selectFieldType. split; intros H; case_decide; done.
Qed.

(** X2. A click places at most one field: the click handler applied
    again to the state it produced changes nothing (so the same click
    reaching both the overlay and its container adds one field, not
    two); and a click in placing mode appends exactly one field, makes it
    the active field and leaves placing mode. *)
Theorem a_click_places_one_field_and_leaves_placing_mode :
  (forall st e1 now1 rand1 e2 now2 rand2,
      Portfolio.handleOverlayClick e2 now2 rand2
        (Portfolio.handleOverlayClick e1 now1 rand1 st) =
      Portfolio.handleOverlayClick e1 now1 rand1 st) /\
  (forall st e now rand,
      Portfolio.isPlacingField st = true ->
      truthy (Portfolio.fieldTypeToAdd st) = true ->
      let st' := Portfolio.handleOverlayClick e now rand st in
      Portfolio.formFields st' = Portfolio.formFields st ++ [length (Portfolio.heap st)] /\
      length (Portfolio.heap st') = S (length (Portfolio.heap st)) /\
      Portfolio.activeField st' = Some (length (Portfolio.heap st)) /\
      Portfolio.isPlacingField st' = false /\
      Portfolio.fieldTypeToAdd st' = None).
Proof.
  split.
  - intros st e1 now1 rand1 e2 now2 rand2.
    destruct (negb (Portfolio.isPlacingField st) ||
              negb (truthy (Portfolio.fieldTypeToAdd st))) eqn:E.
    + assert (forall e now rand, Portfolio.handleOverlayClick e now rand st = st) as Hst
        by (intros; unfold Portfolio.handleOverlayClick; by rewrite E).
      by rewrite !Hst.
    + assert (Portfolio.isPlacingField
                (Portfolio.handleOverlayClick e1 now1 rand1 st) = false) as Hoff
        by (unfold Portfolio.handleOverlayClick; by rewrite E).
      unfold Portfolio.handleOverlayClick at 1. by rewrite Hoff.
  - intros st e now rand Hp Ht st'. subst st'.
    unfold Portfolio.handleOverlayClick. rewrite Hp, Ht. simpl.
    repeat split; try reflexivity. rewrite length_app. simpl. lia.
Qed.

Lemma Portfolio_step_currentScale st ev :
  Portfolio.currentScale (Portfolio.step st ev) = Portfolio.currentScale st \/
  Portfolio.currentScale (Portfolio.step st ev) = (Portfolio.currentScale st + (1 # 10))%Q \/
  (Qgtb (Portfolio.currentScale st) (2 # 10) = true /\
   Portfolio.currentScale (Portfolio.step st ev) = (Portfolio.currentScale st - (1 # 10))%Q).
Proof.
  destruct ev; simpl;
    unfold Portfolio.selectFieldType, Portfolio.handleOverlayClick, Portfolio.selectField,
      Portfolio.handleOverlayMouseDown, Portfolio.handleOverlayMouseMove,
      Portfolio.handleOverlayMouseUp, Portfolio.updateSelectedField,
      Portfolio.deleteSelectedField, Portfolio.deselectField, Portfolio.selectField,
      Portfolio.zoomIn, Portfolio.zoomOut, Portfolio.prevPage, Portfolio.nextPage,
      Portfolio.pageNumberChange;
    repeat case_match; simpl; auto.
Qed.

Lemma Qgtb_true (a b : Q) : Qgtb a b = true -> (b < a)%Q.
Proof.
  unfold Qgtb. intros H. apply negb_true_iff in H.
  apply Qnot_le_lt. intros Hle. apply Qle_bool_iff in Hle. congruence.
Qed.

Lemma Qgtb_false (a b : Q) : Qgtb a b = false -> (a <= b)%Q.
Proof.
  unfold Qgtb. intros H. apply negb_false_iff in H. by apply Qle_bool_iff.
Qed.

(** X3. The zoom scale never reaches zero: from a scale above 0.1 every
    sequence of events leaves the scale above 0.1, so the divisions by
    the scale in the click and drag handlers are never by zero; zooming
    out at a scale of 0.2 or less does nothing. *)
Theorem zoom_scale_stays_above_a_tenth :
  (forall st evs,
      (1 # 10 < Portfolio.currentScale st)%Q ->
      (1 # 10 < Portfolio.currentScale (Portfolio.run st evs))%Q) /\
  (forall st,
      (Portfolio.currentScale st <= 2 # 10)%Q -> Portfolio.zoomOut st = st).
Proof.
  split.
  - intros st evs. unfold Portfolio.run. revert st.
    induction evs as [|ev evs IH]; intros st H; simpl; [done|].
    apply IH.
    destruct (Portfolio_step_currentScale st ev) as [->|[->|[Hgt ->]]].
    + done.
    + lra.
    + apply Qgtb_true in Hgt. lra.
  - intros st H. unfold Portfolio.zoomOut.
    destruct (Qgtb (Portfolio.currentScale st) (2 # 10)) eqn:E; [|done].
    apply Qgtb_true in E. lra.
Qed.

Lemma Portfolio_step_pages st ev :
  1 <= Portfolio.currentPage st <= Portfolio.totalPages st ->
  Portfolio.totalPages (Portfolio.step st ev) = Portfolio.totalPages st /\
  1 <= Portfolio.currentPage (Portfolio.step st ev) <= Portfolio.totalPages st.
Proof.
  intros Hcur.
  destruct ev; simpl;
    unfold Portfolio.selectFieldType, Portfolio.handleOverlayClick, Portfolio.selectField,
      Portfolio.handleOverlayMouseDown, Portfolio.handleOverlayMouseMove,
      Portfolio.handleOverlayMouseUp, Portfolio.updateSelectedField,
      Portfolio.deleteSelectedField, Portfolio.deselectField, Portfolio.selectField,
      Portfolio.zoomIn, Portfolio.zoomOut, Portfolio.prevPage, Portfolio.nextPage,
      Portfolio.pageNumberChange;
    repeat case_match; simpl; auto;
    repeat match goal with
           | H : (_ && _) = true |- _ => apply andb_true_iff in H; destruct H
           | H : (_ <? _) = true |- _ => apply Z.ltb_lt in H
           | H : (_ <=? _) = true |- _ => apply Z.leb_le in H
           end;
    split; auto; lia.
Qed.

Lemma pPagesOk_step st ev :
  pPagesOk st ->
  pPagesOk (Portfolio.step st ev) /\
  Portfolio.totalPages (Portfolio.step st ev) = Portfolio.totalPages st.
Proof.
  intros [Hcur Hheap].
  destruct (Portfolio_step_pages st ev Hcur) as [Htot Hpage].
  split; [|done]. split.
  - by rewrite Htot.
  - rewrite Htot. intros r f' Hf'.
    destruct (Portfolio_step_evolves st ev) as [Hkeep Hnew].
    destruct (Portfolio.heap st !! r) as [f|] eqn:E.
    + destruct (Hkeep r f E) as (f2 & Hf2 & Hobs).
      assert (f2 = f') by congruence. subst f2.
      injection Hobs as Hp _. rewrite Hp. eauto.
    + destruct (Hnew r f' E Hf') as [Hp _]. simpl in Hp. lia.
Qed.

(** X4. Pages stay within the document on the portfolio design page:
    when the current page and the page of every field lie between 1 and
    the page count, they still do after any sequence of events (page
    buttons, the page-number input with any value, placements), and the
    page count does not change. *)
Theorem pages_stay_within_the_document (st : Portfolio.State) (evs : list Portfolio.Event) :
  pPagesOk st ->
  pPagesOk (Portfolio.run st evs) /\
  Portfolio.totalPages (Portfolio.run st evs) = Portfolio.totalPages st.
Proof.
  unfold Portfolio.run. revert st.
  induction evs as [|ev evs IH]; intros st H; simpl; [done|].
  destruct (pPagesOk_step st ev H) as [Hok Htot].
  destruct (IH _ Hok) as [Hok' Htot']. split; [done | congruence].
Qed.

(** ** The portfolio design page: dragging *)

(** X5. A drag on the portfolio design page depends only on where the
    pointer started and where it is: after two pointer moves the active
    field lies at its position plus the distance from the start of the
    drag to the last pointer position, divided by the zoom scale; nothing
    else of the field, no other field and not the list changes.  Without
    a drag in progress, and so after the mouse button is released, a
    pointer move changes no field. *)
Theorem a_drag_depends_only_on_the_pointer_positions :
  (forall st a f e1 e2,
      Portfolio.isDragging st = true ->
      Portfolio.activeField st = Some a ->
      Portfolio.heap st !! a = Some f ->
      let st2 := Portfolio.handleOverlayMouseMove e2
                   (Portfolio.handleOverlayMouseMove e1 st) in
      exists f2,
        Portfolio.heap st2 !! a = Some f2 /\
        Portfolio.x f2 ==
          Portfolio.x f + (clientX e2 - Portfolio.startX st) / Portfolio.currentScale st /\
        Portfolio.y f2 ==
          Portfolio.y f + (clientY e2 - Portfolio.startY st) / Portfolio.currentScale st /\
        Portfolio.id f2 = Portfolio.id f /\
        Portfolio.name f2 = Portfolio.name f /\
        Portfolio.type f2 = Portfolio.type f /\
        Portfolio.width f2 = Portfolio.width f /\
        Portfolio.height f2 = Portfolio.height f /\
        Portfolio.page f2 = Portfolio.page f /\
        Portfolio.required f2 = Portfolio.required f /\
        Portfolio.read_only f2 = Portfolio.read_only f /\
        Portfolio.default_value f2 = Portfolio.default_value f /\
        (forall r, r <> a -> Portfolio.heap st2 !! r = Portfolio.heap st !! r) /\
        Portfolio.formFields st2 = Portfolio.formFields st /\
        Portfolio.isDragging st2 = true) /\
  (forall st e, Portfolio.isDragging st = false ->
                Portfolio.handleOverlayMouseMove e st = st) /\
  (forall st e,
      Portfolio.heap (Portfolio.handleOverlayMouseMove e (Portfolio.handleOverlayMouseUp st)) =
      Portfolio.heap st).
Proof.
  assert (forall st e, Portfolio.isDragging st = false ->
                       Portfolio.handleOverlayMouseMove e st = st) as Hidle.
  { intros st e H. unfold Portfolio.handleOverlayMouseMove. by rewrite H. }
  split; [|split; [exact Hidle|]].
  - intros st a f e1 e2 Hd Ha Hf st2. unfold ref in *.
    assert (Portfolio.handleOverlayMouseMove e1 st =
            Portfolio.set_drag true (clientX e1) (clientY e1)
              (Portfolio.set_heap
                 (alter (Portfolio.moved_by
                           ((clientX e1 - Portfolio.startX st) / Portfolio.currentScale st)
                           ((clientY e1 - Portfolio.startY st) / Portfolio.currentScale st))
                        a (Portfolio.heap st)) st)) as H1.
    { unfold Portfolio.handleOverlayMouseMove. by rewrite Hd, Ha. }
    subst st2. rewrite H1. unfold Portfolio.handleOverlayMouseMove. simpl.
    rewrite Ha. simpl. rewrite !list_lookup_alter_eq, Hf. simpl.
    eexists. split; [reflexivity|]. simpl.
    split; [unfold Qdiv; ring|]. split; [unfold Qdiv; ring|].
    repeat (split; [reflexivity|]). split; [|split; reflexivity].
    intros r Hr. by rewrite !list_lookup_alter_ne.
  - intros st e. unfold Portfolio.handleOverlayMouseUp.
    destruct (Portfolio.isDragging st) eqn:E.
    + by rewrite Hidle.
    + by rewrite Hidle.
Qed.

(** ** The portfolio design page: the list and the selection *)

Lemma find_first_Some {A} (p : A -> bool) (l : list A) (a : A) :
  find_first p l = Some a ->
  exists l1 l2, l = l1 ++ a :: l2 /\ p a = true /\ forall b, b ∈ l1 -> p b = false.
Proof.
  induction l as [|c l IH]; simpl; [discriminate|].
  destruct (p c) eqn:Hc.
  - intros [= ->]. exists [], l. split; [done|]. split; [done|].
    intros b Hb. by apply not_elem_of_nil in Hb.
  - intros (l1 & l2 & -> & Ha & Hl1)%IH. exists (c :: l1), l2.
    split; [done|]. split; [done|].
    intros b [->|Hb]%elem_of_cons; auto.
Qed.

Lemma find_first_None {A} (p : A -> bool) (l : list A) :
  find_first p l = None -> forall a, a ∈ l -> p a = false.
Proof.
  induction l as [|c l IH]; simpl.
  - intros _ a Ha. by apply not_elem_of_nil in Ha.
  - destruct (p c) eqn:Hc; [discriminate|].
    intros H a [->|Ha]%elem_of_cons; auto.
Qed.

Lemma Portfolio_selectField_active fieldId st a :
  Portfolio.activeField (Portfolio.selectField fieldId st) = Some a ->
  Portfolio.activeField st = Some a \/ a ∈ Portfolio.formFields st.
Proof.
  unfold Portfolio.selectField.
  destruct (find_first _ _) as [r|] eqn:E; [|by left].
  simpl. intros [= <-]. right.
  apply find_first_Some in E as (l1 & l2 & -> & _). set_solver.
Qed.

Lemma Portfolio_selectField_rest fieldId st :
  Portfolio.heap (Portfolio.selectField fieldId st) = Portfolio.heap st /\
  Portfolio.formFields (Portfolio.selectField fieldId st) = Portfolio.formFields st.
Proof. unfold Portfolio.selectField. by destruct (find_first _ _). Qed.

Lemma length_assignIfPresent {V} (input : option V) assign a h :
  length (Portfolio.assignIfPresent input assign a h) = length h.
Proof. destruct input; simpl; [apply length_alter | done]. Qed.

Lemma elem_of_list_insert_inv {A} (l : list A) (i : nat) (a x : A) :
  x ∈ <[i:=a]> l -> x = a \/ x ∈ l.
Proof.
  intros (j & Hj)%list_elem_of_lookup_1.
  apply list_lookup_insert_Some in Hj as [(_ & -> & _)|[_ Hj]]; [by left|].
  right. by eapply list_elem_of_lookup_2.
Qed.

Lemma elem_of_list_insert_keep {A} (l : list A) (i : nat) (a : A) :
  a ∈ l -> a ∈ <[i:=a]> l.
Proof.
  intros (j & Hj)%list_elem_of_lookup_1.
  destruct (decide (i = j)) as [->|Hne].
  - apply list_elem_of_insert. by eapply lookup_lt_Some.
  - eapply list_elem_of_lookup_2. by rewrite list_lookup_insert_ne.
Qed.

Lemma pWf_step st ev : pWf st -> pWf (Portfolio.step st ev).
Proof.
  intros [Hlive Hact]. unfold pWf.
  destruct ev; simpl.
  - destruct (Portfolio.fieldTypes !! k) as [[t i]|]; [|done].
    unfold Portfolio.selectFieldType. by case_decide.
  - unfold Portfolio.handleOverlayClick.
    destruct (negb (Portfolio.isPlacingField st) || negb (truthy (Portfolio.fieldTypeToAdd st)));
      [done|].
    simpl. split.
    + intros r [Hr|Hr%list_elem_of_singleton]%elem_of_app;
        rewrite length_app; simpl; [specialize (Hlive r Hr)|]; lia.
    + intros a [= <-]. set_solver.
  - destruct (Portfolio_selectField_rest fieldId st) as [-> ->]. split; [done|].
    intros a [Ha|Ha]%Portfolio_selectField_active; auto.
  - unfold Portfolio.handleOverlayMouseDown. destruct target as [fieldId|]; simpl.
    + destruct (Portfolio_selectField_rest (Some fieldId) st) as [-> ->]. split; [done|].
      intros a [Ha|Ha]%Portfolio_selectField_active; auto.
    + split; [done|]. discriminate.
  - unfold Portfolio.handleOverlayMouseMove.
    destruct (Portfolio.isDragging st); [|done].
    destruct (Portfolio.activeField st) as [a|] eqn:Ea; [|by rewrite Ea].
    simpl. rewrite length_alter, Ea. done.
  - unfold Portfolio.handleOverlayMouseUp. by destruct (Portfolio.isDragging st).
  - unfold Portfolio.updateSelectedField.
    destruct (Portfolio.activeField st) as [a|] eqn:Ea; [|by rewrite Ea].
    set (h3 := Portfolio.assignIfPresent readonlyCheckbox _ a _).
    assert (length h3 = length (Portfolio.heap st)) as Hlen.
    { subst h3. by rewrite !length_assignIfPresent. }
    simpl. destruct (h3 !! a) as [f|]; [|simpl; by rewrite Hlen, Ea].
    case_match; simpl; rewrite Hlen, Ea; [done|].
    split.
    + intros r [->|Hr]%elem_of_list_insert_inv; auto.
    + intros a' [= <-]. apply elem_of_list_insert_keep. auto.
  - unfold Portfolio.deleteSelectedField, Portfolio.deselectField.
    destruct (Portfolio.activeField st) as [a|] eqn:Ea; [|by rewrite Ea].
    simpl. split; [|discriminate].
    case_match; simpl; [done|].
    intros r Hr. eapply elem_of_sublist in Hr; [|apply splice1_sublist]. auto.
  - done.
  - unfold Portfolio.zoomOut. by case_match.
  - unfold Portfolio.prevPage. by case_match.
  - unfold Portfolio.nextPage. by case_match.
  - unfold Portfolio.pageNumberChange. by repeat case_match.
Qed.

Lemma pWf_initial file pages : pWf (Portfolio.initial file pages).
Proof.
  split; simpl; [|discriminate]. intros r Hr. by apply not_elem_of_nil in Hr.
Qed.

Lemma pWf_loaded schemaFields st :
  Portfolio.activeField st = None -> pWf (Portfolio.loadFormFields schemaFields st).
Proof.
  intros Ha. split; simpl; [|by rewrite Ha].
  intros r Hr%elem_of_seq. rewrite length_app. lia.
Qed.

(** X6. On the portfolio design page the field list and the selection
    stay consistent: in every state reached from a consistent one, as the
    initial state with the fields of a schema loaded is, every entry of
    the list refers to a field object and the active field is an entry
    of the list, so the properties panel never edits and a drag never
    moves a field that was deleted. *)
Theorem list_and_selection_stay_consistent :
  (forall file pages schemaFields evs,
     pWf (Portfolio.run
            (Portfolio.loadFormFields schemaFields (Portfolio.initial file pages)) evs)) /\
  (forall st evs, pWf st ->
     let st' := Portfolio.run st evs in
     pWf st' /\
     forall a, Portfolio.activeField st' = Some a ->
       exists i f, Portfolio.formFields st' !! i = Some a /\
                   Portfolio.heap st' !! a = Some f).
Proof.
  assert (forall st evs, pWf st -> pWf (Portfolio.run st evs)) as Hrun.
  { intros st evs. unfold Portfolio.run. revert st.
    induction evs as [|ev evs IH]; intros st H; simpl; [done|].
    apply IH, pWf_step, H. }
  split.
  - intros file pages schemaFields evs. apply Hrun, pWf_loaded. reflexivity.
  - intros st evs H st'. specialize (Hrun st evs H). split; [exact Hrun|].
    intros a Ha. destruct Hrun as [Hlive Hact].
    specialize (Hact a Ha). specialize (Hlive a Hact).
    apply list_elem_of_lookup_1 in Hact as [i Hi].
    apply lookup_lt_is_Some_2 in Hlive as [f Hf]. eauto.
Qed.

(** ** The portfolio design page: placing and deleting *)

Lemma findIndexFrom_first {A} (p : A -> bool) (l1 l2 : list A) (a : A) (k : Z) :
  (forall b, b ∈ l1 -> p b = false) -> p a = true ->
  findIndexFrom p (l1 ++ a :: l2) k = k + Z.of_nat (length l1).
Proof.
  revert k. induction l1 as [|c l1 IH]; intros k Hl1 Ha; simpl.
  - rewrite Ha. lia.
  - rewrite (Hl1 c) by apply list_elem_of_here.
    rewrite IH; [lia| |done]. intros b Hb. apply Hl1. by apply list_elem_of_further.
Qed.

Lemma findIndex_first {A} (p : A -> bool) (l1 l2 : list A) (a : A) :
  (forall b, b ∈ l1 -> p b = false) -> p a = true ->
  findIndex p (l1 ++ a :: l2) = Z.of_nat (length l1).
Proof. intros H1 H2. unfold findIndex. by rewrite findIndexFrom_first. Qed.

Lemma Portfolio_id_is_heap_app st st' fieldId r o :
  Portfolio.heap st' = Portfolio.heap st ++ [o] ->
  (r < length (Portfolio.heap st))%nat ->
  Portfolio.id_is st' fieldId r = Portfolio.id_is st fieldId r.
Proof.
  intros Hh Hr. unfold Portfolio.id_is. rewrite Hh, lookup_app_l by done. done.
Qed.

(** X7. Deleting the field that was just placed undoes the placement on
    the portfolio design page: when every entry of the list refers to a
    field object and no listed field has the id generated for the new
    field, a click in placing mode followed by the delete button leaves
    the field list as it was before the click, with no active field and
    outside placing mode; the fields that were there are untouched. *)
Theorem deleting_the_field_just_placed_restores_the_list
    (st : Portfolio.State) (e : MouseEvent) (now rand : Z) :
  Portfolio.isPlacingField st = true ->
  truthy (Portfolio.fieldTypeToAdd st) = true ->
  (forall r, r ∈ Portfolio.formFields st -> (r < length (Portfolio.heap st))%nat) ->
  (forall r, r ∈ Portfolio.formFields st ->
     Portfolio.id_is st (Some ("field_" +:+ pretty now +:+ "_" +:+ pretty rand)) r = false) ->
  let st' := Portfolio.deleteSelectedField (Portfolio.handleOverlayClick e now rand st) in
  Portfolio.formFields st' = Portfolio.formFields st /\
  Portfolio.activeField st' = None /\
  Portfolio.isPlacingField st' = false /\
  Portfolio.fieldTypeToAdd st' = None /\
  (forall r f, Portfolio.heap st !! r = Some f -> Portfolio.heap st' !! r = Some f).
Proof.
  intros Hp Ht Hlive Hfresh st'.
  set (t := default "" (Portfolio.fieldTypeToAdd st)).
  set (px := ((clientX e - rectLeft e) / Portfolio.currentScale st)%Q).
  set (py := ((clientY e - rectTop e) / Portfolio.currentScale st)%Q).
  pose proof (Portfolio_addFormField_heap t px py (Portfolio.currentPage st) now rand st) as Hh.
  pose proof (Portfolio_addFormField_formFields t px py (Portfolio.currentPage st) now rand st)
    as Hl.
  set (st1 := (Portfolio.addFormField t px py (Portfolio.currentPage st) now rand st).1) in *.
  assert (Portfolio.activeField st1 = Some (length (Portfolio.heap st))) as Ha by reflexivity.
  set (o := {| Portfolio.id := _ |}) in Hh.
  set (st2 := Portfolio.set_placing None false st1).
  assert (Portfolio.handleOverlayClick e now rand st = st2) as Hclick.
  { unfold Portfolio.handleOverlayClick. rewrite Hp, Ht. reflexivity. }
  subst st'. rewrite Hclick.
  assert (Portfolio.heap st2 = Portfolio.heap st ++ [o]) as Hh2 by exact Hh.
  assert (Portfolio.formFields st2 = Portfolio.formFields st ++ [length (Portfolio.heap st)])
    as Hl2 by exact Hl.
  assert (Portfolio.activeField st2 = Some (length (Portfolio.heap st))) as Ha2 by exact Ha.
  unfold Portfolio.deleteSelectedField. rewrite Ha2. unfold ref in *.
  assert (Portfolio.heap st2 !! length (Portfolio.heap st) = Some o) as Ho.
  { rewrite Hh2. apply list_lookup_middle. done. }
  rewrite Ho, Hl2.
  rewrite findIndex_first; cycle 1.
  - intros r Hr. rewrite (Portfolio_id_is_heap_app st st2 _ r o Hh2 (Hlive r Hr)).
    apply Hfresh, Hr.
  - unfold Portfolio.id_is, ref. rewrite Ho. by apply bool_decide_eq_true.
  - cbv zeta.
    match goal with
    | |- context [?i =? -1] =>
        assert ((i =? -1) = false) as -> by (apply Z.eqb_neq; lia)
    end.
    rewrite splice1_middle, app_nil_r. unfold Portfolio.deselectField. simpl.
    repeat (split; [reflexivity|]).
    intros r f Hf. by apply lookup_app_l_Some.
Qed.

(** ** The portfolio design page: the properties panel *)

Lemma assignIfPresent_lookup_eq {V} (input : option V) assign a h f :
  h !! a = Some f ->
  Portfolio.assignIfPresent input assign a h !! a =
  Some (match input with Some v => assign v f | None => f end).
Proof.
  intros Hf. destruct input as [v|]; simpl; [|done].
  unfold ref in *. by rewrite list_lookup_alter_eq, Hf.
Qed.

Lemma assignIfPresent_lookup_ne {V} (input : option V) assign a h r :
  r <> a -> Portfolio.assignIfPresent input assign a h !! r = h !! r.
Proof.
  intros Hr. destruct input as [v|]; simpl; [|done].
  unfold ref in *. by rewrite list_lookup_alter_ne.
Qed.

(** X8. A change in the properties panel of the portfolio design page
    edits the active field only: without an active field nothing
    changes; with one, its name, required and read_only take the values
    of the inputs that exist, every other property of it and every other
    field object stay as they are, the field stays active, the list keeps
    its length, and the list is unchanged when the active field is its
    first entry with that id. *)
Theorem property_change_edits_only_the_active_field :
  (forall st n rq ro, Portfolio.activeField st = None ->
     Portfolio.updateSelectedField n rq ro st = st) /\
  (forall st a f n rq ro,
     Portfolio.activeField st = Some a ->
     Portfolio.heap st !! a = Some f ->
     let st' := Portfolio.updateSelectedField n rq ro st in
     (exists f',
        Portfolio.heap st' !! a = Some f' /\
        Portfolio.name f' = default (Portfolio.name f) n /\
        Portfolio.required f' = default (Portfolio.required f) rq /\
        Portfolio.read_only f' = default (Portfolio.read_only f) ro /\
        Portfolio.id f' = Portfolio.id f /\
        Portfolio.type f' = Portfolio.type f /\
        Portfolio.x f' = Portfolio.x f /\
        Portfolio.y f' = Portfolio.y f /\
        Portfolio.width f' = Portfolio.width f /\
        Portfolio.height f' = Portfolio.height f /\
        Portfolio.page f' = Portfolio.page f /\
        Portfolio.default_value f' = Portfolio.default_value f) /\
     (forall r, r <> a -> Portfolio.heap st' !! r = Portfolio.heap st !! r) /\
     Portfolio.activeField st' = Some a /\
     length (Portfolio.formFields st') = length (Portfolio.formFields st) /\
     (forall l1 l2,
        Portfolio.formFields st = l1 ++ a :: l2 ->
        (forall r, r ∈ l1 -> Portfolio.id_is st (Portfolio.id f) r = false) ->
        Portfolio.formFields st' = Portfolio.formFields st)).
Proof.
  split.
  - intros st n rq ro Ha. unfold Portfolio.updateSelectedField. by rewrite Ha.
  - intros st a f n rq ro Ha Hf st'.
    set (f' := match ro with
               | Some v => Portfolio.with_read_only v
               | None => fun g => g
               end
                 (match rq with
                  | Some v => Portfolio.with_required v
                  | None => fun g => g
                  end
                    (match n with
                     | Some v => Portfolio.with_name v
                     | None => fun g => g
                     end f))).
    set (h3 := Portfolio.assignIfPresent ro Portfolio.with_read_only a
                 (Portfolio.assignIfPresent rq Portfolio.with_required a
                    (Portfolio.assignIfPresent n Portfolio.with_name a (Portfolio.heap st)))).
    assert (h3 !! a = Some f') as Hf'.
    { subst h3 f'.
      erewrite assignIfPresent_lookup_eq;
        [|erewrite assignIfPresent_lookup_eq;
          [|erewrite assignIfPresent_lookup_eq; [|exact Hf]; reflexivity]; reflexivity].
      by destruct n, rq, ro. }
    assert (forall r, r <> a -> h3 !! r = Portfolio.heap st !! r) as Hne.
    { intros r Hr. subst h3. by rewrite !assignIfPresent_lookup_ne. }
    assert (Portfolio.id f' = Portfolio.id f) as Hid.
    { subst f'. by destruct n, rq, ro. }
    set (st1 := Portfolio.set_heap h3 st).
    assert (forall i r, Portfolio.id_is st1 i r = Portfolio.id_is st i r) as Hidis.
    { intros i r. unfold Portfolio.id_is. change (Portfolio.heap st1) with h3.
      destruct (decide (r = a)) as [->|Hr].
      - by rewrite Hf', Hf, Hid.
      - by rewrite Hne. }
    assert (st' =
            if (findIndex (Portfolio.id_is st1 (Portfolio.id f')) (Portfolio.formFields st) =? -1)
            then st1
            else Portfolio.set_formFields
                   (<[Z.to_nat (findIndex (Portfolio.id_is st1 (Portfolio.id f'))
                                  (Portfolio.formFields st)) := a]>
                      (Portfolio.formFields st)) st1) as Hst'.
    { subst st'. unfold Portfolio.updateSelectedField. rewrite Ha. cbv zeta.
      fold h3. fold st1. change (Portfolio.heap st1) with h3. rewrite Hf'. reflexivity. }
    assert (Portfolio.heap st' = h3) as Hheap.
    { rewrite Hst'. by case_match. }
    split; [|split; [|split; [|split]]].
    + exists f'. rewrite Hheap. split; [exact Hf'|].
      subst f'. destruct n, rq, ro; simpl; repeat split; reflexivity.
    + intros r Hr. rewrite Hheap. by apply Hne.
    + rewrite Hst'. case_match; simpl; exact Ha.
    + rewrite Hst'. case_match; simpl; [done|]. apply length_insert.
    + intros l1 l2 Hl Hl1. rewrite Hst', Hl.
      rewrite findIndex_first; cycle 1.
      * intros b Hb. rewrite Hidis, Hid. by apply Hl1.
      * unfold Portfolio.id_is. change (Portfolio.heap st1) with h3.
        rewrite Hf'. by apply bool_decide_eq_true.
      * assert ((Z.of_nat (length l1) =? -1) = false) as -> by (apply Z.eqb_neq; lia).
        simpl. rewrite Nat2Z.id. f_equal.
        apply list_insert_id. by apply list_lookup_middle.
Qed.

(** ** The portfolio design page: selecting by id *)

Lemma find_first_first {A} (p : A -> bool) (l1 l2 : list A) (a : A) :
  (forall b, b ∈ l1 -> p b = false) -> p a = true ->
  find_first p (l1 ++ a :: l2) = Some a.
Proof.
  induction l1 as [|c l1 IH]; intros Hl1 Ha; simpl.
  - by rewrite Ha.
  - rewrite (Hl1 c) by apply list_elem_of_here.
    apply IH; [|done]. intros b Hb. apply Hl1. by apply list_elem_of_further.
Qed.

Lemma find_first_none {A} (p : A -> bool) (l : list A) :
  (forall b, b ∈ l -> p b = false) -> find_first p l = None.
Proof.
  induction l as [|c l IH]; intros Hl; simpl; [done|].
  rewrite (Hl c) by apply list_elem_of_here.
  apply IH. intros b Hb. apply Hl. by apply list_elem_of_further.
Qed.

Lemma Portfolio_selectField_found i st l1 r l2 :
  Portfolio.formFields st = l1 ++ r :: l2 ->
  Portfolio.id_is st i r = true ->
  (forall b, b ∈ l1 -> Portfolio.id_is st i b = false) ->
  Portfolio.selectField i st = Portfolio.set_activeField (Some r) st.
Proof.
  intros Hl Hr Hl1. unfold Portfolio.selectField.
  by rewrite Hl, find_first_first.
Qed.

Lemma Portfolio_selectField_missing i st :
  (forall r, r ∈ Portfolio.formFields st -> Portfolio.id_is st i r = false) ->
  Portfolio.selectField i st = st.
Proof.
  intros H. unfold Portfolio.selectField. by rewrite find_first_none.
Qed.

(** X9. Pressing a field element on the portfolio design page always
    starts a drag at the pointer position and changes no field and not
    the list.  The field with the id of the element becomes the active
    field: the first of the list with that id.  When no listed field has
    that id the active field stays the one it was, so the drag that
    starts is a drag of that field.  Pressing empty space leaves no field
    active. *)
Theorem pressing_a_field_element_starts_a_drag :
  (forall st i e,
     let st' := Portfolio.handleOverlayMouseDown (Some i) e st in
     Portfolio.isDragging st' = true /\
     Portfolio.startX st' = clientX e /\ Portfolio.startY st' = clientY e /\
     Portfolio.heap st' = Portfolio.heap st /\
     Portfolio.formFields st' = Portfolio.formFields st /\
     (forall l1 r l2,
        Portfolio.formFields st = l1 ++ r :: l2 ->
        Portfolio.id_is st (Some i) r = true ->
        (forall b, b ∈ l1 -> Portfolio.id_is st (Some i) b = false) ->
        Portfolio.activeField st' = Some r) /\
     ((forall r, r ∈ Portfolio.formFields st -> Portfolio.id_is st (Some i) r = false) ->
      Portfolio.activeField st' = Portfolio.activeField st)) /\
  (forall st e,
     let st' := Portfolio.handleOverlayMouseDown None e st in
     Portfolio.activeField st' = None /\
     Portfolio.isDragging st' = Portfolio.isDragging st /\
     Portfolio.heap st' = Portfolio.heap st /\
     Portfolio.formFields st' = Portfolio.formFields st).
Proof.
  split.
  - intros st i e st'. subst st'. unfold Portfolio.handleOverlayMouseDown.
    destruct (Portfolio_selectField_rest (Some i) st) as [Hh Hl].
    simpl. rewrite Hh, Hl. repeat (split; [reflexivity|]). split.
    + intros l1 r l2 Hl' Hr Hl1.
      by rewrite (Portfolio_selectField_found _ _ _ _ _ Hl' Hr Hl1).
    + intros Hnone. by rewrite Portfolio_selectField_missing.
  - intros st e. simpl. repeat split; reflexivity.
Qed.

(** X10. Fields without an id, as the entries of a saved schema are,
    cannot be told apart on the portfolio design page.  The element of
    such a field carries the id "undefined"; a click on the element
    selects the first field of the list that has no id, whichever field
    was clicked; and pressing the element selects nothing (no listed
    field has the id "undefined") while it starts a drag. *)
Theorem fields_without_id_cannot_be_told_apart
    (st : Portfolio.State) (r : ref) (f : Portfolio.Field) :
  r ∈ Portfolio.formFields st ->
  Portfolio.heap st !! r = Some f ->
  Portfolio.id f = None ->
  (exists el, el ∈ Portfolio.renderFormFields st (Portfolio.page f) /\
              Portfolio.element_field el = r /\
              Portfolio.data_field_id el = "undefined") /\
  (exists l1 r0 l2,
     Portfolio.formFields st = l1 ++ r0 :: l2 /\
     Portfolio.id_is st None r0 = true /\
     (forall b, b ∈ l1 -> Portfolio.id_is st None b = false) /\
     Portfolio.activeField (Portfolio.step st (Portfolio.FieldElementClick (Portfolio.id f))) =
       Some r0) /\
  (forall e,
     (forall r', r' ∈ Portfolio.formFields st ->
                 Portfolio.id_is st (Some "undefined") r' = false) ->
     let st' := Portfolio.step st (Portfolio.OverlayMouseDown (Some "undefined") e) in
     Portfolio.activeField st' = Portfolio.activeField st /\
     Portfolio.isDragging st' = true).
Proof.
  intros Hr Hf Hid. split; [|split].
  - eexists. split.
    + unfold Portfolio.renderFormFields. apply list_elem_of_omap.
      exists r. split; [exact Hr|]. simpl. unfold ref in *. rewrite Hf.
      rewrite Z.eqb_refl. reflexivity.
    + simpl. by rewrite Hid.
  - rewrite Hid. simpl.
    destruct (findIndex_spec (Portfolio.id_is st None) (Portfolio.formFields st))
      as [[_ Hnone]|(l1 & r0 & l2 & Hl & Hr0 & Hl1 & _)].
    + exfalso. specialize (Hnone r Hr). unfold Portfolio.id_is in Hnone.
      unfold ref in *. rewrite Hf, Hid in Hnone. by rewrite bool_decide_eq_false in Hnone.
    + exists l1, r0, l2. repeat (split; [done|]).
      by rewrite (Portfolio_selectField_found _ _ _ _ _ Hl Hr0 Hl1).
  - intros e Hnone. simpl. by rewrite Portfolio_selectField_missing.
Qed.

(** ** The portfolio design page: what the overlay shows *)

Lemma pWf_run st evs : pWf st -> pWf (Portfolio.run st evs).
Proof.
  unfold Portfolio.run. revert st.
  induction evs as [|ev evs IH]; intros st H; simpl; [done|].
  apply IH, pWf_step, H.
Qed.

Lemma pPagesOk_run st evs :
  pPagesOk st ->
  pPagesOk (Portfolio.run st evs) /\
  Portfolio.totalPages (Portfolio.run st evs) = Portfolio.totalPages st.
Proof.
  unfold Portfolio.run. revert st.
  induction evs as [|ev evs IH]; intros st H; simpl; [done|].
  destruct (pPagesOk_step st ev H) as [Hok Htot].
  destruct (IH _ Hok) as [Hok' Htot']. split; [done | congruence].
Qed.

(** X11. No field of the portfolio design page is lost from view: in
    every state reached from one where the list is consistent and the
    pages lie within the document, every field of the list is drawn by
    [renderFormFields] on exactly one page, the page it was placed on,
    and that page is one the page navigation can reach. *)
Theorem every_listed_field_is_shown_on_its_page
    (st : Portfolio.State) (evs : list Portfolio.Event) :
  pWf st -> pPagesOk st ->
  let st' := Portfolio.run st evs in
  forall r, r ∈ Portfolio.formFields st' ->
    exists f,
      Portfolio.heap st' !! r = Some f /\
      1 <= Portfolio.page f <= Portfolio.totalPages st' /\
      forall p,
        (exists el, el ∈ Portfolio.renderFormFields st' p /\
                    Portfolio.element_field el = r) <->
        p = Portfolio.page f.
Proof.
  intros Hwf Hpg st' r Hr.
  destruct (pWf_run st evs Hwf) as [Hlive _].
  destruct (pPagesOk_run st evs Hpg) as [[_ Hpages] _].
  fold st' in Hlive, Hpages.
  destruct (lookup_lt_is_Some_2 (Portfolio.heap st') r (Hlive r Hr)) as [f Hf].
  exists f. split; [exact Hf|]. split; [by eapply Hpages|].
  intros p. unfold Portfolio.renderFormFields. split.
  - intros (el & Hel & Her). apply list_elem_of_omap in Hel as (r' & Hr' & Hsome).
    destruct (Portfolio.heap st' !! r') as [f'|] eqn:Hf'; [|discriminate].
    destruct (Z.eqb_spec (Portfolio.page f') p) as [Hp|Hp]; [|discriminate].
    injection Hsome as <-. simpl in Her. subst r'. unfold ref in *.
    rewrite Hf in Hf'. injection Hf' as <-. by subst p.
  - intros ->. eexists. split.
    + apply list_elem_of_omap. exists r. split; [exact Hr|].
      simpl. unfold ref in *. rewrite Hf, Z.eqb_refl. reflexivity.
    + reflexivity.
Qed.

(** ** The design page: which field is selected *)

Lemma lookup_forEach_notin {A} (g : A -> A) (refs : list ref) (h : list A) (r : ref) :
  r ∉ refs -> forEach g refs h !! r = h !! r.
Proof.
  unfold forEach. revert h. induction refs as [|a refs IH]; intros h Hr; simpl; [done|].
  apply not_elem_of_cons in Hr as [Hne Hr].
  rewrite IH by done. unfold ref in *. by rewrite list_lookup_alter_ne.
Qed.

Lemma lookup_forEach_idem {A} (g : A -> A) (refs : list ref) (h : list A) (r : ref) :
  (forall f, g (g f) = g f) -> r ∈ refs -> forEach g refs h !! r = g <$> h !! r.
Proof.
  intros Hg. unfold forEach. revert h.
  induction refs as [|a refs IH]; intros h Hr; simpl.
  - by apply not_elem_of_nil in Hr.
  - destruct (decide (r ∈ refs)) as [Hin|Hnotin].
    + rewrite IH by done. unfold ref in *. destruct (decide (a = r)) as [->|Hne].
      * rewrite list_lookup_alter_eq. destruct (h !! r); simpl; [|done]. by rewrite Hg.
      * by rewrite list_lookup_alter_ne.
    + apply elem_of_cons in Hr as [->|Hr]; [|done].
      pose proof (lookup_forEach_notin g refs (alter g a h) a Hnotin) as Hn.
      unfold forEach in Hn. rewrite Hn. unfold ref in *. by rewrite list_lookup_alter_eq.
Qed.

Lemma lookup_forEachIndexed_from {A} (g : nat -> A -> A) (refs : list ref)
    (h : list A) (k : nat) :
  NoDup refs ->
  (forall i r, refs !! i = Some r ->
     foldl (fun h' ir => alter (g ir.1) ir.2 h') h (imap (fun j x => (k + j, x)%nat) refs) !! r =
     g (k + i)%nat <$> h !! r) /\
  (forall r, r ∉ refs ->
     foldl (fun h' ir => alter (g ir.1) ir.2 h') h (imap (fun j x => (k + j, x)%nat) refs) !! r =
     h !! r).
Proof.
  revert h k. induction refs as [|a refs IH]; intros h k Hnd.
  - split; [intros i r Hi; by rewrite lookup_nil in Hi | done].
  - apply NoDup_cons in Hnd as [Ha Hnd]. simpl.
    assert (imap ((fun j x => ((k + j)%nat, x)) ∘ S) refs =
            imap (fun j x => ((S k + j)%nat, x)) refs) as Himap.
    { apply imap_ext. intros j x _. simpl. f_equal. lia. }
    rewrite Himap.
    destruct (IH (alter (g (k + 0)%nat) a h) (S k) Hnd) as [IH1 IH2].
    unfold ref in *. split.
    + intros [|i] r Hi; simpl in Hi.
      * injection Hi as <-. rewrite IH2 by done. by rewrite list_lookup_alter_eq.
      * rewrite (IH1 i r Hi).
        assert (a <> r) as Hne.
        { intros ->. apply Ha. by eapply list_elem_of_lookup_2. }
        rewrite list_lookup_alter_ne by done. do 2 f_equal. lia.
    + intros r Hr. apply not_elem_of_cons in Hr as [Hne Hr].
      rewrite IH2 by done. by rewrite list_lookup_alter_ne.
Qed.

Lemma lookup_forEachIndexed {A} (g : nat -> A -> A) (refs : list ref) (h : list A)
    (i : nat) (r : ref) :
  NoDup refs -> refs !! i = Some r ->
  forEachIndexed g refs h !! r = g i <$> h !! r.
Proof.
  intros Hnd Hi. unfold forEachIndexed.
  destruct (lookup_forEachIndexed_from g refs h 0 Hnd) as [H1 _].
  apply (H1 i r Hi).
Qed.

Lemma lookup_forEachIndexed_notin {A} (g : nat -> A -> A) (refs : list ref) (h : list A)
    (r : ref) :
  r ∉ refs -> forEachIndexed g refs h !! r = h !! r.
Proof.
  intros Hr. unfold forEachIndexed.
  assert (forall l : list (nat * ref), r ∉ l.*2 ->
            forall h0 : list A,
              foldl (fun h' ir => alter (g ir.1) ir.2 h') h0 l !! r = h0 !! r) as Hgen.
  { induction l as [|[j a] l IH]; intros Hl h0; simpl; [done|].
    simpl in Hl. apply not_elem_of_cons in Hl as [Hne Hl].
    rewrite IH by done. unfold ref in *. by rewrite list_lookup_alter_ne. }
  apply Hgen.
  assert (forall (k : nat -> nat) (l : list ref),
            (imap (fun j x => (k j, x)) l).*2 = l) as Hsnd.
  { intros k l. revert k. induction l as [|a l IH]; intros k; simpl; [done|].
    f_equal. apply (IH (k ∘ S)). }
  by rewrite (Hsnd (fun j => j) refs).
Qed.

Lemma Design_renderPage_panel n st :
  Design.panel (Design.renderPage n st) = Design.panel st.
Proof. unfold Design.renderPage. repeat case_match; reflexivity. Qed.

Lemma Design_renderPage_drag n st :
  Design.drag (Design.renderPage n st) = Design.drag st.
Proof. unfold Design.renderPage. repeat case_match; reflexivity. Qed.

Lemma Design_renderPage_pdfDoc n st :
  Design.pdfDoc (Design.renderPage n st) = Design.pdfDoc st.
Proof. unfold Design.renderPage. repeat case_match; reflexivity. Qed.

Lemma Design_renderPage_pageNum n st :
  Design.pageNum (Design.renderPage n st) = n.
Proof. unfold Design.renderPage. repeat case_match; reflexivity. Qed.

Lemma at_index_of_nat {A} (l : list A) (i : nat) : at_index l (Z.of_nat i) = l !! i.
Proof.
  unfold at_index. destruct (Z.ltb_spec (Z.of_nat i) 0) as [H|H]; [lia|].
  by rewrite Nat2Z.id.
Qed.

(** X12. Selecting a field on the design page selects that field and no
    other field of the list: when the list holds distinct references,
    after [selectField(i)] with [i] a position of the list, the field at
    position [i] has [selected] set, every other field of the list has
    it cleared, nothing else of any field changes, the list is the same,
    and the properties panel shows the name and the flags of the field
    at position [i] and writes to that field.  An index outside the list
    changes nothing. *)
Theorem selecting_a_field_deselects_the_others :
  (forall st (i : nat) r f,
     NoDup (Design.placedFields st) ->
     Design.placedFields st !! i = Some r ->
     Design.heap st !! r = Some f ->
     let st' := Design.selectField (Z.of_nat i) st in
     Design.placedFields st' = Design.placedFields st /\
     (forall j r' f', Design.placedFields st !! j = Some r' ->
        Design.heap st !! r' = Some f' ->
        Design.heap st' !! r' = Some (Design.with_selected (Nat.eqb j i) f')) /\
     (forall r', r' ∉ Design.placedFields st ->
        Design.heap st' !! r' = Design.heap st !! r') /\
     Design.panel st' =
       {| Design.fieldNameInput := Design.name f;
          Design.requiredCheckbox := Design.required f;
          Design.readonlyCheckbox := Design.readonly f;
          Design.boundField := Some r |}) /\
  (forall st k, k < 0 \/ Z.of_nat (length (Design.placedFields st)) <= k ->
     Design.selectField k st = st).
Proof.
  split.
  - intros st i r f Hnd Hi Hf st'.
    assert ((Z.of_nat i <? 0) || (Z.of_nat (length (Design.placedFields st)) <=? Z.of_nat i)
            = false) as Hrange.
    { apply lookup_lt_Some in Hi. apply orb_false_iff. split.
      - apply Z.ltb_ge. lia.
      - apply Z.leb_gt. lia. }
    assert (forall j r' f', Design.placedFields st !! j = Some r' ->
              Design.heap st !! r' = Some f' ->
              Design.heap (Design.markSelected (Z.of_nat i) st) !! r' =
              Some (Design.with_selected (Nat.eqb j i) f')) as Hmark.
    { intros j r' f' Hj Hf'. unfold Design.markSelected. simpl.
      rewrite (lookup_forEachIndexed _ _ _ j r' Hnd Hj). unfold ref in *. rewrite Hf'. simpl.
      do 2 f_equal. destruct (Nat.eqb_spec j i) as [->|Hne].
      - apply Z.eqb_refl.
      - apply Z.eqb_neq. lia. }
    subst st'. unfold Design.selectField. rewrite Hrange.
    rewrite Design_renderPage_placedFields, Design_updatePanel_placedFields,
      Design_renderPage_heap, Design_updatePanel_heap, Design_renderPage_panel.
    split; [reflexivity|]. split; [exact Hmark|]. split.
    + intros r' Hr'. unfold Design.markSelected. simpl.
      by apply lookup_forEachIndexed_notin.
    + unfold Design.updateFieldPropertiesPanel.
      change (Design.placedFields (Design.markSelected (Z.of_nat i) st))
        with (Design.placedFields st).
      rewrite at_index_of_nat. unfold ref in *. rewrite Hi.
      rewrite (Hmark i r f Hi Hf). reflexivity.
  - intros st k Hk. unfold Design.selectField.
    assert ((k <? 0) || (Z.of_nat (length (Design.placedFields st)) <=? k) = true) as ->;
      [|done].
    apply orb_true_iff. destruct Hk as [Hk|Hk]; [left; by apply Z.ltb_lt | right; by apply Z.leb_le].
Qed.

(** ** The design page: clicks while a field type is selected *)

Lemma getFieldAtPosition_cases px py st :
  (Design.getFieldAtPosition px py st = -1 /\
   forall r, r ∈ Design.placedFields st -> Design.onCurrentPage st r = true ->
             ~ inside px py (Design.heap st) r) \/
  (exists (j : nat) r,
     Design.getFieldAtPosition px py st = Z.of_nat j /\
     Design.placedFields st !! j = Some r /\
     Design.onCurrentPage st r = true /\
     inside px py (Design.heap st) r).
Proof.
  unfold Design.getFieldAtPosition. cbv zeta.
  set (cur := filter (fun r => Design.onCurrentPage st r = true) (Design.placedFields st)).
  destruct (topmost_reverse_spec px py (Design.heap st) cur)
    as [[-> Hall]|(l1 & r & l2 & Hcur & Hin & _ & ->)].
  - left. split; [done|]. intros r Hr Hpage. apply Hall.
    subst cur. apply list_elem_of_filter. done.
  - right.
    assert (r ∈ cur) as Hr by (rewrite Hcur; set_solver).
    subst cur. apply list_elem_of_filter in Hr as [Hpage Hr].
    destruct (findIndex_spec (fun r' => bool_decide (r' = r)) (Design.placedFields st))
      as [[_ Hnone]|(k1 & a & k2 & Hl & Ha & _ & ->)].
    + specialize (Hnone r Hr). by rewrite bool_decide_eq_false in Hnone.
    + apply bool_decide_eq_true in Ha. subst a.
      exists (length k1), r. split; [done|]. split; [|done].
      rewrite Hl. by apply list_lookup_middle.
Qed.

Lemma hitAt_inside st px py i :
  hitAt st px py i ->
  exists r, r ∈ Design.placedFields st /\ Design.onCurrentPage st r = true /\
            inside px py (Design.heap st) r.
Proof.
  intros (r & f & Hi & Hf & Hpage & Hp). exists r.
  split; [by eapply list_elem_of_lookup_2|]. split.
  - unfold Design.onCurrentPage. unfold ref in *. rewrite Hf. by apply Z.eqb_eq.
  - by exists f.
Qed.

(** X13. A click on an existing field never places a field on the design
    page: with a field type selected and no drag in progress, a click on
    a point that a field of the current page contains selects a field at
    that point instead; the list and the number of field objects are
    unchanged, and the field type stays selected, whether or not the
    shift key was held. *)
Theorem a_click_on_a_field_selects_it_and_places_nothing
    (st : Design.State) (e : MouseEvent) (promptAnswer : option string) (i : nat) :
  Design.isDragging (Design.drag st) = false ->
  Design.isResizing (Design.drag st) = false ->
  truthy (Design.currentFieldType st) = true ->
  hitAt st (Design.canvasX e st) (Design.canvasY e st) i ->
  let st' := Design.canvasClick e promptAnswer st in
  Design.placedFields st' = Design.placedFields st /\
  length (Design.heap st') = length (Design.heap st) /\
  Design.currentFieldType st' = Design.currentFieldType st /\
  exists j, hitAt st (Design.canvasX e st) (Design.canvasY e st) j /\
            st' = Design.selectField (Z.of_nat j) st.
Proof.
  intros Hd Hr Ht Hhit st'.
  destruct (getFieldAtPosition_cases (Design.canvasX e st) (Design.canvasY e st) st)
    as [[_ Hnone]|(j & r & Hj & Hl & Hpage & (f & Hf & Hp))].
  { exfalso. apply hitAt_inside in Hhit as (r & Hr1 & Hr2 & Hr3). by eapply Hnone. }
  assert (st' = Design.selectField (Z.of_nat j) st) as Hst'.
  { subst st'. unfold Design.canvasClick. rewrite Hd, Hr, Ht. cbn [orb negb]. cbv zeta.
    rewrite Hj.
    assert ((Z.of_nat j =? -1) = false) as -> by (apply Z.eqb_neq; lia). reflexivity. }
  rewrite Hst'. unfold Design.selectField. case_match.
  - repeat (split; [reflexivity|]). exists j. split; [|by rewrite H].
    exists r, f. repeat split; try done.
    unfold Design.onCurrentPage in Hpage. unfold ref in *. rewrite Hf in Hpage.
    by apply Z.eqb_eq.
  - rewrite Design_renderPage_placedFields, Design_updatePanel_placedFields,
      Design_renderPage_heap, Design_updatePanel_heap,
      Design_renderPage_currentFieldType, Design_updatePanel_currentFieldType.
    unfold Design.markSelected. simpl. rewrite length_forEachIndexed.
    repeat (split; [reflexivity|]). exists j. split; [|by rewrite H].
    exists r, f. repeat split; try done.
    unfold Design.onCurrentPage in Hpage. unfold ref in *. rewrite Hf in Hpage.
    by apply Z.eqb_eq.
Qed.

Lemma Design_placeNewField_panel t n px py st :
  Design.panel (Design.placeNewField t n px py st) =
  {| Design.fieldNameInput := n;
     Design.requiredCheckbox := Design.requiredCheckbox (Design.panel st);
     Design.readonlyCheckbox := Design.readonlyCheckbox (Design.panel st);
     Design.boundField := Some (length (Design.heap st)) |}.
Proof.
  unfold Design.placeNewField. destruct (Design.defaultSize t) as [w h].
  unfold alloc. rewrite Design_renderPage_panel.
  unfold Design.updateFieldPropertiesPanel. simpl.
  rewrite length_app. simpl.
  replace (Z.of_nat (length (Design.placedFields st) + 1) - 1)
    with (Z.of_nat (length (Design.placedFields st))) by lia.
  rewrite at_index_of_nat. unfold ref in *.
  rewrite list_lookup_middle by done.
  rewrite length_forEach.
  rewrite list_lookup_middle by (by rewrite length_forEach).
  reflexivity.
Qed.

Lemma Design_placeNewField_rest t n px py st :
  Design.currentFieldType (Design.placeNewField t n px py st) = Design.currentFieldType st /\
  Design.drag (Design.placeNewField t n px py st) = Design.drag st /\
  Design.pageNum (Design.placeNewField t n px py st) = Design.pageNum st /\
  Design.pdfDoc (Design.placeNewField t n px py st) = Design.pdfDoc st /\
  Design.copiedField (Design.placeNewField t n px py st) = Design.copiedField st.
Proof.
  unfold Design.placeNewField. destruct (Design.defaultSize t) as [w h]. unfold alloc.
  rewrite Design_renderPage_currentFieldType, Design_renderPage_drag,
    Design_renderPage_pageNum, Design_renderPage_pdfDoc, Design_renderPage_copiedField.
  unfold Design.updateFieldPropertiesPanel. repeat case_match; done.
Qed.

Lemma no_hit_getFieldAtPosition px py st :
  (forall i, ~ hitAt st px py i) -> Design.getFieldAtPosition px py st = -1.
Proof.
  intros Hno.
  destruct (getFieldAtPosition_cases px py st) as [[H _]|(j & r & _ & Hl & Hpage & (f & Hf & Hp))];
    [done|].
  exfalso. apply (Hno j). exists r, f. repeat split; try done.
  unfold Design.onCurrentPage in Hpage. unfold ref in *. rewrite Hf in Hpage.
  by apply Z.eqb_eq.
Qed.

(** The name the click handler gives a new field: the value of the name
    input of the properties panel when it is not empty, and the answer
    to the prompt otherwise. *)
Lemma Design_canvasClick_places e a st t n :
  Design.isDragging (Design.drag st) = false ->
  Design.isResizing (Design.drag st) = false ->
  Design.currentFieldType st = Some t -> t <> "" ->
  (forall i, ~ hitAt st (Design.canvasX e st) (Design.canvasY e st) i) ->
  (if truthy (Some (Design.fieldNameInput (Design.panel st)))
   then Some (Design.fieldNameInput (Design.panel st)) else a) = Some n ->
  n <> "" ->
  Design.canvasClick e a st =
  (if shiftKey e then fun s => s else Design.set_currentFieldType None)
    (Design.placeNewField t n (Design.canvasX e st) (Design.canvasY e st) st).
Proof.
  intros Hd Hr Ht Hne Hno Hn Hnn. unfold Design.canvasClick.
  rewrite Hd, Hr, Ht. cbn [orb]. cbv zeta.
  assert (truthy (Some t) = true) as -> by (by destruct t).
  cbn [negb]. rewrite (no_hit_getFieldAtPosition _ _ _ Hno).
  cbn [Z.eqb negb]. rewrite Hn.
  assert (truthy (Some n) = true) as -> by (by destruct n).
  cbn [negb default id]. by destruct (shiftKey e).
Qed.

Lemma Design_placeNewField_new t n px py st :
  Design.heap (Design.placeNewField t n px py st) !! length (Design.heap st) =
  Some {| Design.type := t; Design.name := n; Design.x := px; Design.y := py;
          Design.width := (Design.defaultSize t).1;
          Design.height := (Design.defaultSize t).2;
          Design.page := Design.pageNum st - 1;
          Design.required := Design.requiredCheckbox (Design.panel st);
          Design.readonly := Design.readonlyCheckbox (Design.panel st);
          Design.fontSize := 12; Design.selected := true |}.
Proof.
  rewrite Design_placeNewField_heap. apply list_lookup_middle. by rewrite length_forEach.
Qed.

Lemma Design_placeNewField_old t n px py st r f :
  r ∈ Design.placedFields st -> Design.heap st !! r = Some f ->
  Design.heap (Design.placeNewField t n px py st) !! r =
  Some (Design.with_selected false f).
Proof.
  intros Hr Hf. rewrite Design_placeNewField_heap.
  rewrite lookup_app_l by (rewrite length_forEach; by eapply lookup_lt_Some).
  rewrite lookup_forEach_idem; [|done|done]. unfold ref in *. by rewrite Hf.
Qed.

Lemma Design_shift_or_reset_proj (b : bool) st :
  Design.heap ((if b then fun s => s else Design.set_currentFieldType None) st) =
    Design.heap st /\
  Design.placedFields ((if b then fun s => s else Design.set_currentFieldType None) st) =
    Design.placedFields st /\
  Design.panel ((if b then fun s => s else Design.set_currentFieldType None) st) =
    Design.panel st /\
  Design.drag ((if b then fun s => s else Design.set_currentFieldType None) st) =
    Design.drag st /\
  Design.pageNum ((if b then fun s => s else Design.set_currentFieldType None) st) =
    Design.pageNum st.
Proof. by destruct b. Qed.

(** X14. A click on free space of the current page with a field type
    selected places one field on the design page: the new field is
    appended to the list with the selected type, the page shown, the
    click point as its position and the default size of the type; it is
    the selected field, every field that was in the list is deselected
    and otherwise unchanged, and the properties panel is bound to the new
    field.  Its name is the value of the name input of the panel when
    that is not empty, and the answer to the prompt otherwise.  The
    field type is deselected unless the shift key is held.  With an
    empty name input and the prompt cancelled or left empty, nothing
    changes. *)
Theorem a_click_on_free_space_places_a_named_field :
  (forall st e a t n,
     Design.isDragging (Design.drag st) = false ->
     Design.isResizing (Design.drag st) = false ->
     Design.currentFieldType st = Some t -> t <> "" ->
     (forall i, ~ hitAt st (Design.canvasX e st) (Design.canvasY e st) i) ->
     (if truthy (Some (Design.fieldNameInput (Design.panel st)))
      then Some (Design.fieldNameInput (Design.panel st)) else a) = Some n ->
     n <> "" ->
     let st' := Design.canvasClick e a st in
     let r := length (Design.heap st) in
     Design.placedFields st' = Design.placedFields st ++ [r] /\
     Design.heap st' !! r =
       Some {| Design.type := t; Design.name := n;
               Design.x := Design.canvasX e st; Design.y := Design.canvasY e st;
               Design.width := (Design.defaultSize t).1;
               Design.height := (Design.defaultSize t).2;
               Design.page := Design.pageNum st - 1;
               Design.required := Design.requiredCheckbox (Design.panel st);
               Design.readonly := Design.readonlyCheckbox (Design.panel st);
               Design.fontSize := 12; Design.selected := true |} /\
     (forall r' f, r' ∈ Design.placedFields st -> Design.heap st !! r' = Some f ->
        Design.heap st' !! r' = Some (Design.with_selected false f)) /\
     Design.currentFieldType st' = (if shiftKey e then Some t else None) /\
     Design.fieldNameInput (Design.panel st') = n /\
     Design.boundField (Design.panel st') = Some r) /\
  (forall st e a,
     (forall i, ~ hitAt st (Design.canvasX e st) (Design.canvasY e st) i) ->
     Design.fieldNameInput (Design.panel st) = "" ->
     truthy a = false ->
     Design.canvasClick e a st = st).
Proof.
  split.
  - intros st e a t n Hd Hr Ht Hne Hno Hn Hnn st' r. subst st' r.
    rewrite (Design_canvasClick_places e a st t n Hd Hr Ht Hne Hno Hn Hnn).
    set (st1 := Design.placeNewField t n _ _ st).
    destruct (Design_shift_or_reset_proj (shiftKey e) st1) as (-> & -> & -> & _).
    subst st1. split; [apply Design_placeNewField_placedFields|].
    split; [apply Design_placeNewField_new|].
    split; [intros r' f; apply Design_placeNewField_old|].
    split.
    + destruct (shiftKey e); simpl; [|done].
      destruct (Design_placeNewField_rest t n (Design.canvasX e st) (Design.canvasY e st) st)
        as [-> _]. done.
    + by rewrite Design_placeNewField_panel.
  - intros st e a Hno Hempty Ha. unfold Design.canvasClick.
    destruct (Design.isDragging (Design.drag st) || Design.isResizing (Design.drag st));
      [done|].
    destruct (negb (truthy (Design.currentFieldType st))); [done|]. cbv zeta.
    rewrite (no_hit_getFieldAtPosition _ _ _ Hno). cbn [Z.eqb negb].
    rewrite Hempty. cbn [truthy]. by rewrite Ha.
Qed.

(** X15. Fields placed one after the other on the design page share
    their name: placing a field leaves its name in the name input of
    the properties panel, and the next placement takes the name from
    there without asking, whatever the prompt would have answered. *)
Theorem fields_placed_in_a_row_share_their_name
    (st : Design.State) (e1 e2 : MouseEvent) (a1 a2 : option string)
    (t n : string) (b : Design.Button) :
  Design.isDragging (Design.drag st) = false ->
  Design.isResizing (Design.drag st) = false ->
  Design.currentFieldType st = Some t -> t <> "" ->
  (forall i, ~ hitAt st (Design.canvasX e1 st) (Design.canvasY e1 st) i) ->
  (if truthy (Some (Design.fieldNameInput (Design.panel st)))
   then Some (Design.fieldNameInput (Design.panel st)) else a1) = Some n ->
  n <> "" ->
  let st1 := Design.step (Design.canvasClick e1 a1 st) (Design.ToolbarButton b) in
  (forall i, ~ hitAt st1 (Design.canvasX e2 st1) (Design.canvasY e2 st1) i) ->
  let st2 := Design.canvasClick e2 a2 st1 in
  Design.placedFields st2 =
    Design.placedFields st ++ [length (Design.heap st); S (length (Design.heap st))] /\
  exists f1 f2,
    Design.heap st2 !! length (Design.heap st) = Some f1 /\
    Design.heap st2 !! S (length (Design.heap st)) = Some f2 /\
    Design.name f1 = n /\ Design.name f2 = n /\
    Design.type f1 = t /\ Design.type f2 = Design.buttonType b.
Proof.
  intros Hd Hr Ht Hne Hno Hn Hnn st1 Hno2 st2.
  pose proof (Design_canvasClick_places e1 a1 st t n Hd Hr Ht Hne Hno Hn Hnn) as Hc1.
  set (p1 := Design.placeNewField t n (Design.canvasX e1 st) (Design.canvasY e1 st) st) in Hc1.
  destruct (Design_shift_or_reset_proj (shiftKey e1) p1) as (Hh & Hl & Hp & Hdr & _).
  rewrite <- Hc1 in Hh, Hl, Hp, Hdr.
  destruct (Design_placeNewField_rest t n (Design.canvasX e1 st) (Design.canvasY e1 st) st)
    as (_ & Hdr1 & _).
  fold p1 in Hdr1.
  assert (Design.heap st1 = Design.heap p1) as Hh1 by exact Hh.
  assert (Design.placedFields st1 = Design.placedFields p1) as Hl1 by exact Hl.
  assert (Design.panel st1 = Design.panel p1) as Hp1 by exact Hp.
  assert (Design.drag st1 = Design.drag st) as Hd1 by (by rewrite <- Hdr1, <- Hdr).
  assert (Design.fieldNameInput (Design.panel st1) = n) as Hname.
  { rewrite Hp1. subst p1. by rewrite Design_placeNewField_panel. }
  assert (length (Design.heap st1) = S (length (Design.heap st))) as Hlen.
  { rewrite Hh1. subst p1. rewrite Design_placeNewField_heap, length_app, length_forEach.
    simpl. lia. }
  assert (Design.canvasClick e2 a2 st1 =
          (if shiftKey e2 then fun s => s else Design.set_currentFieldType None)
            (Design.placeNewField (Design.buttonType b) n
               (Design.canvasX e2 st1) (Design.canvasY e2 st1) st1)) as Hc2.
  { apply Design_canvasClick_places; try done.
    - by rewrite Hd1.
    - by rewrite Hd1.
    - by destruct b.
    - rewrite Hname. by destruct n. }
  subst st2. rewrite Hc2.
  set (p2 := Design.placeNewField (Design.buttonType b) n _ _ st1).
  destruct (Design_shift_or_reset_proj (shiftKey e2) p2) as (-> & -> & _).
  subst p2. rewrite Design_placeNewField_placedFields, Hl1, Hlen. subst p1.
  rewrite Design_placeNewField_placedFields. split; [by rewrite <- app_assoc|].
  eexists _, _. split; [|split].
  - apply Design_placeNewField_old.
    + rewrite Hl1, Design_placeNewField_placedFields. set_solver.
    + rewrite Hh1. apply Design_placeNewField_new.
  - rewrite <- Hlen. apply Design_placeNewField_new.
  - simpl. done.
Qed.

(** ** The design page: the size of the fields *)

Lemma heap_all_alter {A} (P : A -> Prop) (g : A -> A) (r : ref) (h : list A) :
  (forall f, P f -> P (g f)) -> heap_all P h -> heap_all P (alter g r h).
Proof.
  intros Hg Hh r' f' Hf'. unfold ref in *.
  destruct (decide (r = r')) as [->|Hne].
  - rewrite list_lookup_alter_eq in Hf'.
    destruct (h !! r') as [f|] eqn:E; [|discriminate].
    injection Hf' as <-. apply Hg. by eapply Hh.
  - rewrite list_lookup_alter_ne in Hf' by done. by eapply Hh.
Qed.

Lemma heap_all_forEach {A} (P : A -> Prop) (g : A -> A) (refs : list ref) (h : list A) :
  (forall f, P f -> P (g f)) -> heap_all P h -> heap_all P (forEach g refs h).
Proof.
  intros Hg. unfold forEach. revert h.
  induction refs as [|r refs IH]; intros h Hh; simpl; [done|].
  apply IH. by apply heap_all_alter.
Qed.

Lemma heap_all_forEachIndexed {A} (P : A -> Prop) (g : nat -> A -> A)
    (refs : list ref) (h : list A) :
  (forall i f, P f -> P (g i f)) -> heap_all P h -> heap_all P (forEachIndexed g refs h).
Proof.
  intros Hg. unfold forEachIndexed.
  generalize (imap (fun (i : nat) (r : ref) => (i, r)) refs). intros l. revert h.
  induction l as [|[i r] l IH]; intros h Hh; simpl; [done|].
  apply IH. apply heap_all_alter; [apply Hg | done].
Qed.

Lemma heap_all_snoc {A} (P : A -> Prop) (h : list A) (o : A) :
  heap_all P h -> P o -> heap_all P (h ++ [o]).
Proof.
  intros Hh Ho r f Hf.
  apply lookup_snoc_Some in Hf as [[_ Hf]|[_ <-]]; [by eapply Hh | done].
Qed.

Lemma Math_max_ge_l (a b : Q) : (a <= Math_max a b)%Q.
Proof.
  unfold Math_max. destruct (Qle_bool a b) eqn:E.
  - by apply Qle_bool_iff.
  - apply Qle_refl.
Qed.

Lemma sizeOk_defaultSize t :
  (20 <= (Design.defaultSize t).1)%Q /\ (20 <= (Design.defaultSize t).2)%Q.
Proof.
  unfold Design.defaultSize. repeat case_match; simpl; split; by apply Qle_bool_iff.
Qed.

Lemma sizeOk_resized d dx dy f : sizeOk f -> sizeOk (Design.resized d dx dy f).
Proof.
  intros [Hw Hh]. unfold Design.resized, sizeOk.
  repeat case_match; simpl; split; first [apply Math_max_ge_l | assumption].
Qed.

Lemma sizeOk_markSelected i st :
  heap_all sizeOk (Design.heap st) -> heap_all sizeOk (Design.heap (Design.markSelected i st)).
Proof. intros H. simpl. apply heap_all_forEachIndexed; [|done]. by intros ? []. Qed.

Lemma sizeOk_canvasClick e a st :
  heap_all sizeOk (Design.heap st) -> heap_all sizeOk (Design.heap (Design.canvasClick e a st)).
Proof.
  intros H. unfold Design.canvasClick.
  destruct (Design.isDragging (Design.drag st) || Design.isResizing (Design.drag st)); [done|].
  destruct (negb (truthy (Design.currentFieldType st))); [done|]. cbv zeta.
  destruct (negb (Design.getFieldAtPosition _ _ st =? -1)).
  - unfold Design.selectField. case_match; [done|].
    rewrite Design_renderPage_heap, Design_updatePanel_heap. by apply sizeOk_markSelected.
  - match goal with
    | |- context [negb (truthy ?n)] => destruct (negb (truthy n)); [done|]
    end.
    match goal with
    | |- heap_all _ (Design.heap (if _ then Design.set_currentFieldType None ?s else _)) =>
        assert (heap_all sizeOk (Design.heap s)) as Hs
    end.
    { rewrite Design_placeNewField_heap. apply heap_all_snoc.
      - apply heap_all_forEach; [|done]. by intros [].
      - apply sizeOk_defaultSize. }
    by destruct (negb (shiftKey e)).
Qed.

Lemma sizeOk_canvasMouseDown e st :
  heap_all sizeOk (Design.heap st) ->
  heap_all sizeOk (Design.heap (Design.canvasMouseDown e st)).
Proof.
  intros H. unfold Design.canvasMouseDown.
  case_match; [done|].
  case_match.
  - case_match; [|done].
    rewrite Design_renderPage_heap, Design_updatePanel_heap.
    case_match; simpl; (apply heap_all_forEachIndexed; [|done]); by intros ? [].
  - case_match; [rewrite Design_renderPage_heap|]; simpl;
      (apply heap_all_forEach; [|done]); by intros [].
Qed.

Lemma sizeOk_canvasMouseMove e st :
  heap_all sizeOk (Design.heap st) ->
  heap_all sizeOk (Design.heap (Design.canvasMouseMove e st)).
Proof.
  intros H. unfold Design.canvasMouseMove.
  repeat case_match; try done;
    rewrite Design_renderPage_heap; simpl; (apply heap_all_alter; [|done]).
  - intros f. apply sizeOk_resized.
  - by intros [].
Qed.

Lemma sizeOk_keyDown key c s st :
  dSizeOk st -> heap_all sizeOk (Design.heap (Design.keyDown key c s st)).
Proof.
  intros [H Hc]. unfold Design.keyDown.
  repeat (case_match; try done);
    try (rewrite Design_renderPage_heap; simpl;
         first [ done
               | apply heap_all_alter; [by intros []|done]
               | apply heap_all_forEach; [by intros []|done] ]).
  rewrite Design_pasteField_heap. apply heap_all_snoc.
  - apply heap_all_forEach; [|done]. by intros [].
  - match goal with
    | |- sizeOk (Design.pastedField ?c0 _) =>
        first [ exact (Hc c0 eq_refl)
              | match goal with Hcp : Design.copiedField st = Some c0 |- _ =>
                  exact (Hc c0 Hcp) end ]
    end.
Qed.

Lemma dSizeOk_step st ev : dSizeOk st -> dSizeOk (Design.step st ev).
Proof.
  intros Hok. pose proof Hok as [H Hc]. split.
  - destruct ev; simpl.
    + done.
    + by apply sizeOk_canvasClick.
    + by apply sizeOk_canvasMouseDown.
    + by apply sizeOk_canvasMouseMove.
    + done.
    + done.
    + by apply sizeOk_keyDown.
    + unfold Design.fieldNameOnInput. case_match; [rewrite Design_renderPage_heap|]; simpl;
        [apply heap_all_alter; [by intros []|done] | done].
    + unfold Design.requiredOnChange. case_match; simpl;
        [apply heap_all_alter; [by intros []|done] | done].
    + unfold Design.readonlyOnChange. case_match; simpl;
        [apply heap_all_alter; [by intros []|done] | done].
    + unfold Design.prevPage. case_match; [|rewrite Design_renderPage_heap]; done.
    + unfold Design.nextPage. case_match; [|rewrite Design_renderPage_heap]; done.
    + unfold Design.pageInputChange. repeat case_match; try rewrite Design_renderPage_heap;
        done.
  - intros c Hcp. apply Design_step_copiedField in Hcp as [Hcp|[r Hr]]; [eauto|].
    by eapply H.
Qed.

Lemma dSizeOk_run st evs : dSizeOk st -> dSizeOk (Design.run st evs).
Proof.
  unfold Design.run. revert st.
  induction evs as [|ev evs IH]; intros st H; simpl; [done|].
  apply IH, dSizeOk_step, H.
Qed.

(** X16. No field of the design page is smaller than 20 by 20 canvas
    pixels: the three default sizes are at least that, resizing clamps
    both sides at 20, and no other handler changes a size; so in every
    state reached from the initial state every field object, listed or
    deleted, and the copied field have a width and a height of at least
    20. *)
Theorem every_field_is_at_least_20_by_20 :
  (forall pages evs,
     let st := Design.run (Design.renderPage 1 (Design.initial pages)) evs in
     (forall f, f ∈ Design.fields st ->
        (20 <= Design.width f)%Q /\ (20 <= Design.height f)%Q) /\
     (forall c, Design.copiedField st = Some c ->
        (20 <= Design.width c)%Q /\ (20 <= Design.height c)%Q)) /\
  (forall st evs, dSizeOk st -> dSizeOk (Design.run st evs)).
Proof.
  split; [|exact dSizeOk_run].
  intros pages evs st.
  assert (dSizeOk st) as [H Hc].
  { apply dSizeOk_run. split.
    - intros r f Hf. rewrite Design_renderPage_heap in Hf. simpl in Hf.
      by rewrite lookup_nil in Hf.
    - intros c Hcp. rewrite Design_renderPage_copiedField in Hcp. discriminate. }
  split; [|exact Hc].
  intros f Hf. unfold Design.fields in Hf.
  apply list_elem_of_omap in Hf as (r & _ & Hr). by eapply H.
Qed.

(** ** The design page: resizing and dragging *)

Lemma resized_resized d dx dy dx' dy' f :
  Design.resized d dx dy (Design.resized d dx' dy' f) = Design.resized d dx dy f.
Proof. unfold Design.resized. destruct f. repeat case_match; reflexivity. Qed.

Lemma Design_canvasMouseMove_resizing e st (i : nat) r :
  Design.isResizing (Design.drag st) = true ->
  Design.dragFieldIndex (Design.drag st) = Z.of_nat i ->
  Design.placedFields st !! i = Some r ->
  Design.canvasMouseMove e st =
  Design.renderPage (Design.pageNum st)
    (Design.set_heap
       (alter (Design.resized (Design.drag st)
                 (Design.canvasX e st - Design.startX (Design.drag st))
                 (Design.canvasY e st - Design.startY (Design.drag st)))
              r (Design.heap st)) st).
Proof.
  intros Hr Hi Hl. unfold Design.canvasMouseMove. cbv zeta.
  rewrite Hr, Hi.
  assert ((Z.of_nat i =? -1) = false) as -> by (apply Z.eqb_neq; lia).
  cbn [andb negb]. rewrite at_index_of_nat. unfold ref in *. by rewrite Hl.
Qed.

Lemma Design_canvasMouseMove_dragging e st (i : nat) r :
  Design.isResizing (Design.drag st) = false ->
  Design.isDragging (Design.drag st) = true ->
  Design.dragFieldIndex (Design.drag st) = Z.of_nat i ->
  Design.placedFields st !! i = Some r ->
  Design.canvasMouseMove e st =
  Design.renderPage (Design.pageNum st)
    (Design.set_heap
       (alter (fun f =>
                 Design.with_y (Design.originalY (Design.drag st) +
                                (Design.canvasY e st - Design.startY (Design.drag st)))
                   (Design.with_x (Design.originalX (Design.drag st) +
                                   (Design.canvasX e st - Design.startX (Design.drag st))) f))
              r (Design.heap st)) st).
Proof.
  intros Hr Hd Hi Hl. unfold Design.canvasMouseMove. cbv zeta.
  rewrite Hr, Hd, Hi.
  assert ((Z.of_nat i =? -1) = false) as -> by (apply Z.eqb_neq; lia).
  cbn [andb negb]. rewrite at_index_of_nat. unfold ref in *. by rewrite Hl.
Qed.

(** X17. Resizing on the design page is computed from the geometry
    recorded at mousedown, not from the field as it is: after two pointer
    moves during a resize the field is what one move to the last pointer
    position makes of it.  A side that is resized is at least 20; a
    resize from the left edge keeps the right edge where it was at
    mousedown, and one from the top edge the bottom edge; a resize from
    the right or the bottom edge leaves the position alone.  Type, name,
    page and flags of the field, every other field and the list stay as
    they are. *)
Theorem a_resize_is_computed_from_the_recorded_geometry
    (st : Design.State) (i : nat) (r : ref) (f : Design.Field) (e1 e2 : MouseEvent) :
  Design.isResizing (Design.drag st) = true ->
  Design.dragFieldIndex (Design.drag st) = Z.of_nat i ->
  Design.placedFields st !! i = Some r ->
  Design.heap st !! r = Some f ->
  let d := Design.drag st in
  let st1 := Design.canvasMouseMove e1 st in
  let st2 := Design.canvasMouseMove e2 st1 in
  let f2 := Design.resized d (Design.canvasX e2 st1 - Design.startX d)
              (Design.canvasY e2 st1 - Design.startY d) f in
  Design.heap st2 !! r = Some f2 /\
  (Design.includes "e" (Design.resizeDirection d) = true ->
   Design.x f2 = Design.x f /\ (20 <= Design.width f2)%Q) /\
  (Design.includes "e" (Design.resizeDirection d) = false ->
   Design.includes "w" (Design.resizeDirection d) = true ->
   Design.x f2 + Design.width f2 == Design.originalX d + Design.originalWidth d /\
   (20 <= Design.width f2)%Q) /\
  (Design.includes "s" (Design.resizeDirection d) = true ->
   Design.y f2 = Design.y f /\ (20 <= Design.height f2)%Q) /\
  (Design.includes "s" (Design.resizeDirection d) = false ->
   Design.includes "n" (Design.resizeDirection d) = true ->
   Design.y f2 + Design.height f2 == Design.originalY d + Design.originalHeight d /\
   (20 <= Design.height f2)%Q) /\
  dObs f2 = dObs f /\ Design.name f2 = Design.name f /\
  Design.required f2 = Design.required f /\ Design.readonly f2 = Design.readonly f /\
  Design.selected f2 = Design.selected f /\
  (forall r', r' <> r -> Design.heap st2 !! r' = Design.heap st !! r') /\
  Design.placedFields st2 = Design.placedFields st.
Proof.
  intros Hr Hi Hl Hf d st1 st2 f2.
  assert (st1 = Design.renderPage (Design.pageNum st)
                  (Design.set_heap
                     (alter (Design.resized d (Design.canvasX e1 st - Design.startX d)
                               (Design.canvasY e1 st - Design.startY d)) r (Design.heap st))
                     st)) as H1.
  { subst st1 d. by eapply Design_canvasMouseMove_resizing. }
  assert (Design.drag st1 = d) as Hd1 by (rewrite H1, Design_renderPage_drag; done).
  assert (Design.placedFields st1 = Design.placedFields st) as Hl1
    by (rewrite H1, Design_renderPage_placedFields; done).
  assert (Design.heap st1 =
          alter (Design.resized d (Design.canvasX e1 st - Design.startX d)
                   (Design.canvasY e1 st - Design.startY d)) r (Design.heap st)) as Hh1
    by (rewrite H1, Design_renderPage_heap; done).
  assert (st2 = Design.renderPage (Design.pageNum st1)
                  (Design.set_heap
                     (alter (Design.resized d (Design.canvasX e2 st1 - Design.startX d)
                               (Design.canvasY e2 st1 - Design.startY d)) r (Design.heap st1))
                     st1)) as H2.
  { subst st2. rewrite <- Hd1.
    apply (Design_canvasMouseMove_resizing e2 st1 i r).
    - by rewrite Hd1.
    - by rewrite Hd1.
    - by rewrite Hl1. }
  assert (Design.heap st2 =
          alter (Design.resized d (Design.canvasX e2 st1 - Design.startX d)
                   (Design.canvasY e2 st1 - Design.startY d)) r (Design.heap st1)) as Hh2
    by (rewrite H2, Design_renderPage_heap; done).
  unfold ref in *.
  split.
  { rewrite Hh2, Hh1, !list_lookup_alter_eq, Hf. simpl. by rewrite resized_resized. }
  split.
  { intros He. subst f2. unfold Design.resized. rewrite He.
    split; [by repeat case_match|].
    repeat case_match; simpl; apply Math_max_ge_l. }
  split.
  { intros He Hw. subst f2. unfold Design.resized. rewrite He, Hw.
    split; repeat case_match; simpl; first [ring | apply Math_max_ge_l]. }
  split.
  { intros Hs. subst f2. unfold Design.resized. rewrite Hs. simpl.
    split; [by repeat case_match | apply Math_max_ge_l]. }
  split.
  { intros Hs Hn. subst f2. unfold Design.resized. rewrite Hs, Hn. simpl.
    split; [ring | apply Math_max_ge_l]. }
  split; [apply Design_resized_obs|].
  split; [subst f2; unfold Design.resized; by repeat case_match|].
  split; [subst f2; unfold Design.resized; by repeat case_match|].
  split; [subst f2; unfold Design.resized; by repeat case_match|].
  split; [subst f2; unfold Design.resized; by repeat case_match|].
  split.
  - intros r' Hr'. rewrite Hh2, Hh1, !list_lookup_alter_ne by done. done.
  - rewrite H2, Design_renderPage_placedFields. simpl. exact Hl1.
Qed.

(** X18. Dragging on the design page is computed from the position
    recorded at mousedown: after two pointer moves during a drag the
    field lies at the recorded position plus the distance of the last
    pointer position from the point of the mousedown, so a pointer that
    comes back to that point puts the field back where it was.  Nothing
    else of the field, no other field and not the list changes. *)
Theorem a_drag_is_computed_from_the_recorded_position
    (st : Design.State) (i : nat) (r : ref) (f : Design.Field) (e1 e2 : MouseEvent) :
  Design.isResizing (Design.drag st) = false ->
  Design.isDragging (Design.drag st) = true ->
  Design.dragFieldIndex (Design.drag st) = Z.of_nat i ->
  Design.placedFields st !! i = Some r ->
  Design.heap st !! r = Some f ->
  let d := Design.drag st in
  let st1 := Design.canvasMouseMove e1 st in
  let st2 := Design.canvasMouseMove e2 st1 in
  Design.heap st2 !! r =
    Some (Design.with_y (Design.originalY d + (Design.canvasY e2 st1 - Design.startY d))
            (Design.with_x (Design.originalX d + (Design.canvasX e2 st1 - Design.startX d))
               f)) /\
  (Design.canvasX e2 st1 == Design.startX d -> Design.canvasY e2 st1 == Design.startY d ->
   exists f2, Design.heap st2 !! r = Some f2 /\
              Design.x f2 == Design.originalX d /\ Design.y f2 == Design.originalY d) /\
  (forall r', r' <> r -> Design.heap st2 !! r' = Design.heap st !! r') /\
  Design.placedFields st2 = Design.placedFields st.
Proof.
  intros Hr Hd Hi Hl Hf d st1 st2.
  pose proof (Design_canvasMouseMove_dragging e1 st i r Hr Hd Hi Hl) as H1.
  fold st1 d in H1.
  assert (Design.drag st1 = d) as Hd1 by (rewrite H1, Design_renderPage_drag; done).
  assert (Design.placedFields st1 = Design.placedFields st) as Hl1
    by (rewrite H1, Design_renderPage_placedFields; done).
  pose proof (f_equal Design.heap H1) as Hh1. rewrite Design_renderPage_heap in Hh1.
  simpl in Hh1.
  assert (Design.isResizing (Design.drag st1) = false) as Hr1 by (by rewrite Hd1).
  assert (Design.isDragging (Design.drag st1) = true) as Hdd1 by (by rewrite Hd1).
  assert (Design.dragFieldIndex (Design.drag st1) = Z.of_nat i) as Hi1 by (by rewrite Hd1).
  assert (Design.placedFields st1 !! i = Some r) as Hli1 by (by rewrite Hl1).
  pose proof (Design_canvasMouseMove_dragging e2 st1 i r Hr1 Hdd1 Hi1 Hli1) as H2.
  fold st2 in H2. rewrite Hd1 in H2.
  pose proof (f_equal Design.heap H2) as Hh2. rewrite Design_renderPage_heap in Hh2.
  simpl in Hh2. unfold ref in *.
  assert (Design.heap st2 !! r =
          Some (Design.with_y (Design.originalY d + (Design.canvasY e2 st1 - Design.startY d))
                  (Design.with_x
                     (Design.originalX d + (Design.canvasX e2 st1 - Design.startX d)) f)))
    as Hres.
  { rewrite Hh2, Hh1, !list_lookup_alter_eq, Hf. reflexivity. }
  split; [exact Hres|]. split; [|split].
  - intros Hx Hy. eexists. split; [exact Hres|]. simpl. rewrite Hx, Hy. split; ring.
  - intros r' Hr'. rewrite Hh2, Hh1, !list_lookup_alter_ne by done. done.
  - rewrite H2, Design_renderPage_placedFields. simpl. exact Hl1.
Qed.

(** ** The design page: pressing the mouse on empty space *)

(** X19. Pressing the mouse on empty space of the design page, with no
    field type selected, deselects every field of the list and unbinds
    the properties panel: the list and the drag variables are unchanged,
    every listed field has [selected] cleared and is otherwise the same,
    the panel is empty, and typing a name or toggling a flag in the panel
    afterwards changes no field.  With a field type selected the
    mousedown handler does nothing at all. *)
Theorem pressing_empty_space_deselects_and_unbinds_the_panel :
  (forall st e,
     truthy (Design.currentFieldType st) = false ->
     (forall i, ~ hitAt st (Design.canvasX e st) (Design.canvasY e st) i) ->
     let st' := Design.canvasMouseDown e st in
     Design.placedFields st' = Design.placedFields st /\
     Design.drag st' = Design.drag st /\
     (forall r f, r ∈ Design.placedFields st -> Design.heap st !! r = Some f ->
        Design.heap st' !! r = Some (Design.with_selected false f)) /\
     (forall r, r ∉ Design.placedFields st -> Design.heap st' !! r = Design.heap st !! r) /\
     Design.panel st' = Design.emptyPanel /\
     (forall v, Design.heap (Design.step st' (Design.FieldNameInput v)) = Design.heap st') /\
     (forall b, Design.heap (Design.step st' (Design.RequiredChange b)) = Design.heap st') /\
     (forall b, Design.heap (Design.step st' (Design.ReadonlyChange b)) = Design.heap st')) /\
  (forall st e, truthy (Design.currentFieldType st) = true ->
     Design.canvasMouseDown e st = st).
Proof.
  split.
  - intros st e Ht Hno st'.
    set (st2 := Design.clearFieldPropertiesPanel
                  (Design.set_heap
                     (forEach (Design.with_selected false) (Design.placedFields st)
                        (Design.heap st)) st)).
    assert (st' = if existsb Design.selected (Design.fields st)
                  then Design.renderPage (Design.pageNum st2) st2 else st2) as Hst'.
    { subst st'. unfold Design.canvasMouseDown. rewrite Ht. cbv zeta.
      rewrite (no_hit_getFieldAtPosition _ _ _ Hno). reflexivity. }
    assert (Design.heap st' =
            forEach (Design.with_selected false) (Design.placedFields st) (Design.heap st))
      as Hh.
    { rewrite Hst'. case_match; [rewrite Design_renderPage_heap|]; reflexivity. }
    assert (Design.panel st' = Design.emptyPanel) as Hp.
    { rewrite Hst'. case_match; [rewrite Design_renderPage_panel|]; reflexivity. }
    split; [rewrite Hst'; case_match; [rewrite Design_renderPage_placedFields|]; reflexivity|].
    split; [rewrite Hst'; case_match; [rewrite Design_renderPage_drag|]; reflexivity|].
    split.
    { intros r f Hr Hf. rewrite Hh, lookup_forEach_idem; [|done|done].
      unfold ref in *. by rewrite Hf. }
    split; [intros r Hr; rewrite Hh; by apply lookup_forEach_notin|].
    split; [exact Hp|].
    simpl. unfold Design.fieldNameOnInput, Design.requiredOnChange, Design.readonlyOnChange.
    rewrite Hp. simpl. done.
  - intros st e Ht. unfold Design.canvasMouseDown. by rewrite Ht.
Qed.

(** ** The design page: the keyboard *)

Lemma Design_page_has_fields st r0 :
  r0 ∈ Design.placedFields st -> Design.onCurrentPage st r0 = true ->
  (length (filter (fun r => Design.onCurrentPage st r = true) (Design.placedFields st)) =? 0)%nat
  = false.
Proof.
  intros Hr Hp. apply Nat.eqb_neq. intros Hlen. apply nil_length_inv in Hlen.
  assert (r0 ∈ filter (fun r => Design.onCurrentPage st r = true) (Design.placedFields st)) as Hin
    by (by apply list_elem_of_filter).
  rewrite Hlen in Hin. by apply not_elem_of_nil in Hin.
Qed.

Lemma Design_page_has_no_fields st :
  (forall r, r ∈ Design.placedFields st -> Design.onCurrentPage st r = false) ->
  (length (filter (fun r => Design.onCurrentPage st r = true) (Design.placedFields st)) =? 0)%nat
  = true.
Proof.
  intros Hno. apply Nat.eqb_eq.
  destruct (filter _ _) as [|a l] eqn:E; [done|]. exfalso.
  assert (a ∈ filter (fun r => Design.onCurrentPage st r = true) (Design.placedFields st)) as Hin
    by (rewrite E; apply list_elem_of_here).
  apply list_elem_of_filter in Hin as [Hp Hin]. rewrite (Hno a Hin) in Hp. discriminate.
Qed.

Lemma findIndex_none {A} (p : A -> bool) (l : list A) :
  (forall a, a ∈ l -> p a = false) -> findIndex p l = -1.
Proof.
  intros Hno. destruct (findIndex_spec p l) as [[H _]|(l1 & a & l2 & -> & Ha & _)]; [done|].
  rewrite Hno in Ha by set_solver. discriminate.
Qed.

(** X20. The keyboard shortcuts of the design page need a field on the
    page shown and, except Ctrl+A, a selected field in the list: while
    the page shown has no field every key is ignored, and while no field
    of the list is selected every key but "a" is ignored, pasting a
    copied field included. *)
Theorem keys_are_ignored_without_fields_or_selection :
  (forall st key ctrlKey shift,
     (forall r, r ∈ Design.placedFields st -> Design.onCurrentPage st r = false) ->
     Design.keyDown key ctrlKey shift st = st) /\
  (forall st key ctrlKey shift,
     (forall r, r ∈ Design.placedFields st -> Design.isSelected st r = false) ->
     key <> "a" ->
     Design.keyDown key ctrlKey shift st = st).
Proof.
  split.
  - intros st key c s Hno. unfold Design.keyDown. cbv zeta.
    by rewrite Design_page_has_no_fields.
  - intros st key c s Hno Hkey. unfold Design.keyDown. cbv zeta.
    case_match; [done|].
    rewrite (findIndex_none _ _ Hno).
    assert (String.eqb key "a" = false) as -> by (by apply String.eqb_neq).
    reflexivity.
Qed.

(** X21. The delete key of the design page (and the backspace key)
    removes one field: the first selected field of the list, whatever
    page that field is on, provided the page shown has a field.  The
    other entries keep their order, no field object is modified, and the
    properties panel is emptied and unbound, so that typing in it
    afterwards changes no field. *)
Theorem the_delete_key_removes_the_first_selected_field
    (st : Design.State) (key : string) (ctrlKey shift : bool)
    (r0 r : ref) (l1 l2 : list ref) :
  key = "delete" \/ key = "backspace" ->
  r0 ∈ Design.placedFields st -> Design.onCurrentPage st r0 = true ->
  Design.placedFields st = l1 ++ r :: l2 ->
  Design.isSelected st r = true ->
  (forall b, b ∈ l1 -> Design.isSelected st b = false) ->
  let st' := Design.keyDown key ctrlKey shift st in
  Design.placedFields st' = l1 ++ l2 /\
  Design.heap st' = Design.heap st /\
  Design.panel st' = Design.emptyPanel /\
  Design.currentFieldType st' = Design.currentFieldType st /\
  (forall v, Design.heap (Design.step st' (Design.FieldNameInput v)) = Design.heap st').
Proof.
  intros Hkey Hr0 Hp0 Hl Hr Hl1 st'.
  assert (st' = Design.renderPage (Design.pageNum st)
                  (Design.clearFieldPropertiesPanel
                     (Design.set_placedFields (l1 ++ l2) st))) as Hst'.
  { subst st'. unfold Design.keyDown. cbv zeta.
    rewrite (Design_page_has_fields st r0 Hr0 Hp0).
    rewrite Hl, (findIndex_first _ _ _ _ Hl1 Hr).
    assert ((Z.of_nat (length l1) =? -1) = false) as -> by (apply Z.eqb_neq; lia).
    rewrite splice1_middle. destruct Hkey as [-> | ->]; reflexivity. }
  rewrite Hst'.
  rewrite Design_renderPage_placedFields, Design_renderPage_heap, Design_renderPage_panel,
    Design_renderPage_currentFieldType.
  repeat (split; [reflexivity|]).
  intros v. simpl. unfold Design.fieldNameOnInput.
  rewrite Design_renderPage_panel. simpl. by rewrite !Design_renderPage_heap.
Qed.








(** ** The design page: pages, and what is saved *)

Lemma Design_updatePanel_pageNum i st :
  Design.pageNum (Design.updateFieldPropertiesPanel i st) = Design.pageNum st.
Proof. unfold Design.updateFieldPropertiesPanel. repeat case_match; reflexivity. Qed.

Lemma Design_updatePanel_pdfDoc i st :
  Design.pdfDoc (Design.updateFieldPropertiesPanel i st) = Design.pdfDoc st.
Proof. unfold Design.updateFieldPropertiesPanel. repeat case_match; reflexivity. Qed.

Lemma Design_step_pdfDoc st ev : Design.pdfDoc (Design.step st ev) = Design.pdfDoc st.
Proof.
  destruct ev; simpl; design_unfold;
    repeat case_match; design_simpl;
    rewrite ?Design_renderPage_pdfDoc, ?Design_updatePanel_pdfDoc; simpl;
    rewrite ?Design_renderPage_pdfDoc, ?Design_updatePanel_pdfDoc; reflexivity.
Qed.

Lemma Design_step_pageNum st ev :
  1 <= Design.pageNum st <= Design.numPages st ->
  1 <= Design.pageNum (Design.step st ev) <= Design.numPages st.
Proof.
  intros Hp. unfold Design.numPages in *.
  destruct ev; simpl; design_unfold;
    repeat case_match; design_simpl;
    rewrite ?Design_renderPage_pageNum, ?Design_updatePanel_pageNum; simpl;
    rewrite ?Design_renderPage_pageNum, ?Design_updatePanel_pageNum; simpl;
    try lia.
  all: repeat match goal with
       | H : (_ <=? _) = false |- _ => apply Z.leb_gt in H
       | H : (_ <? _) = false |- _ => apply Z.ltb_ge in H
       | H : _ || _ = false |- _ => apply orb_false_iff in H as [? ?]
       end; unfold Design.numPages in *; lia.
Qed.

Lemma dPagesOk_step st ev : dPagesOk st -> dPagesOk (Design.step st ev).
Proof.
  intros [Hp Hh]. unfold dPagesOk, Design.numPages in *. rewrite Design_step_pdfDoc.
  split; [by apply Design_step_pageNum|].
  intros r f' Hf'. destruct (Design_step_evolves st ev) as [Hkeep Hnew].
  destruct (Design.heap st !! r) as [f|] eqn:E.
  - destruct (Hkeep r f E) as (f2 & Hf2 & Hobs).
    assert (f2 = f') by congruence. subst f2.
    injection Hobs as Hpg _. rewrite Hpg. by eapply Hh.
  - destruct (Hnew r f' E Hf') as [Hpg _]. simpl in Hpg. lia.
Qed.

Lemma dPagesOk_run st evs : dPagesOk st -> dPagesOk (Design.run st evs).
Proof.
  unfold Design.run. revert st.
  induction evs as [|ev evs IH]; intros st H; simpl; [done|].
  apply IH, dPagesOk_step, H.
Qed.

Lemma Design_run_pdfDoc st evs : Design.pdfDoc (Design.run st evs) = Design.pdfDoc st.
Proof.
  unfold Design.run. revert st.
  induction evs as [|ev evs IH]; intros st; simpl; [done|].
  by rewrite IH, Design_step_pdfDoc.
Qed.

Lemma creatable_toolbar b : Design.buttonType b ∈ creatableTypes.
Proof. destruct b; unfold creatableTypes; simpl; set_solver. Qed.

Lemma dCreatable_step st ev : dCreatable st -> dCreatable (Design.step st ev).
Proof.
  intros (Hheap & Hsel & Hcopy). split; [|split].
  - intros r f' Hf'. destruct (Design_step_evolves st ev) as [Hkeep Hnew].
    destruct (Design.heap st !! r) as [f|] eqn:E.
    + destruct (Hkeep r f E) as (f2 & Hf2 & Hobs).
      assert (f2 = f') by congruence. subst f2.
      injection Hobs as _ Ht. rewrite Ht. by eapply Hheap.
    + destruct (Hnew r f' E Hf') as [_ [Ht|(c & Hc & Ht)]]; simpl in Ht.
      * eauto.
      * rewrite <- Ht. eauto.
  - intros t Ht. apply Design_step_currentFieldType in Ht as [Ht|[b ->]].
    + eauto.
    + apply creatable_toolbar.
  - intros c Hc. apply Design_step_copiedField in Hc as [Hc|[r Hr]]; [eauto|].
    by eapply Hheap.
Qed.

Lemma dCreatable_run st evs : dCreatable st -> dCreatable (Design.run st evs).
Proof.
  unfold Design.run. revert st.
  induction evs as [|ev evs IH]; intros st H; simpl; [done|].
  apply IH, dCreatable_step, H.
Qed.

(** X24. The design page never shows a page the document does not have:
    on a document with at least one page, in every state reached from
    the initial state the page number lies between 1 and the number of
    pages, and every field object carries a page index from 0 to the
    number of pages minus one. *)
Theorem the_design_page_stays_within_the_document :
  (forall pages evs, pages <> [] ->
     let st := Design.run (Design.renderPage 1 (Design.initial pages)) evs in
     Design.pdfDoc st = pages /\
     1 <= Design.pageNum st <= pageCount pages /\
     forall f, f ∈ Design.fields st -> 0 <= Design.page f < pageCount pages) /\
  (forall st evs, dPagesOk st -> dPagesOk (Design.run st evs)).
Proof.
  split; [|exact dPagesOk_run].
  intros pages evs Hne st.
  assert (dPagesOk (Design.renderPage 1 (Design.initial pages))) as H0.
  { split.
    - rewrite Design_renderPage_pageNum. unfold Design.numPages.
      rewrite Design_renderPage_pdfDoc. simpl. destruct pages; [done|]. simpl. lia.
    - intros r f Hf. rewrite Design_renderPage_heap in Hf. simpl in Hf.
      by rewrite lookup_nil in Hf. }
  apply (dPagesOk_run _ evs) in H0. fold st in H0. destruct H0 as [Hp Hh].
  assert (Design.pdfDoc st = pages) as Hdoc.
  { subst st. by rewrite Design_run_pdfDoc, Design_renderPage_pdfDoc. }
  unfold Design.numPages in *. rewrite Hdoc in Hp, Hh.
  split; [done|]. split; [exact Hp|].
  intros f Hf. unfold Design.fields in Hf.
  apply list_elem_of_omap in Hf as (r & _ & Hr). by eapply Hh.
Qed.

Lemma savePDFWithFields_completes libraryThrows pages placed :
  (forall f, f ∈ placed -> 0 <= Design.page f) ->
  Design.savePDFWithFields libraryThrows pages placed =
  Design.Completed
    (Design.addedFields (Design.savePDFWithFields libraryThrows pages placed)).
Proof.
  intros Hpos. unfold Design.savePDFWithFields, Design.Object_entries.
  assert (filter (fun e : Z * list Design.Field => e.1 < 0)
            (Design.fieldsByPage placed) = []) as ->.
  { destruct (filter _ _) as [|e l] eqn:E; [done|]. exfalso.
    assert (e ∈ filter (fun e : Z * list Design.Field => e.1 < 0)
              (Design.fieldsByPage placed)) as He
      by (rewrite E; apply list_elem_of_here).
    apply list_elem_of_filter in He as [Hneg He]. destruct e as [k fs].
    apply fieldsByPage_key in He as (f & Hf & Hk).
    specialize (Hpos f Hf). simpl in Hneg. lia. }
  rewrite addToPages_nonnegative.
  - reflexivity.
  - intros e He. apply (proj1 (sorted_entries_elem _ _)) in He.
    by apply list_elem_of_filter in He as [].
Qed.

Lemma dCreatable_loaded pages : dCreatable (Design.renderPage 1 (Design.initial pages)).
Proof.
  split; [|split].
  - intros r f Hf. rewrite Design_renderPage_heap in Hf. simpl in Hf.
    by rewrite lookup_nil in Hf.
  - intros t Ht. rewrite Design_renderPage_currentFieldType in Ht. discriminate.
  - intros c Hc. rewrite Design_renderPage_copiedField in Hc. discriminate.
Qed.

Lemma dPagesOk_loaded pages :
  pages <> [] -> dPagesOk (Design.renderPage 1 (Design.initial pages)).
Proof.
  intros Hne. split.
  - rewrite Design_renderPage_pageNum. unfold Design.numPages.
    rewrite Design_renderPage_pdfDoc. simpl. destruct pages; [done|]. simpl. lia.
  - intros r f Hf. rewrite Design_renderPage_heap in Hf. simpl in Hf.
    by rewrite lookup_nil in Hf.
Qed.

(** X25. Whatever is placed with the design page is written to the
    document.  For a document with at least one page and any sequence of
    events from the initial state, saving the fields of the list goes
    through every page without an exception, and, unless the PDF library
    refuses it, every field of the list gets a form field on its own
    page, with its name and with its rectangle flipped to PDF space; no
    field is skipped for its type or for its page. *)
Theorem every_field_placed_in_the_editor_is_saved
    (libraryThrows : list Design.AcroField -> Design.Field -> bool)
    (pages : list (Q * Q)) (evs : list Design.Event) :
  pages <> [] ->
  let st := Design.run (Design.renderPage 1 (Design.initial pages)) evs in
  let result := Design.savePDFWithFields libraryThrows (Design.pdfDoc st) (Design.fields st) in
  result = Design.Completed (Design.addedFields result) /\
  forall f, f ∈ Design.fields st ->
    (forall l, libraryThrows l f = false) ->
    exists a pw pageHeight,
      a ∈ Design.addedFields result /\
      at_index pages (Design.page f) = Some (pw, pageHeight) /\
      Design.onPage a = Design.page f /\
      Design.partialName a = Design.name f /\
      Design.rect_x a = Design.x f /\
      Design.rect_y a = (pageHeight - Design.y f - Design.height f)%Q /\
      Design.rect_width a = Design.width f /\
      Design.rect_height a = Design.height f.
Proof.
  intros Hne st result.
  pose proof (dPagesOk_run _ evs (dPagesOk_loaded pages Hne)) as [_ Hpages].
  pose proof (dCreatable_run _ evs (dCreatable_loaded pages)) as [Htypes _].
  fold st in Hpages, Htypes.
  assert (Design.pdfDoc st = pages) as Hdoc.
  { subst st. by rewrite Design_run_pdfDoc, Design_renderPage_pdfDoc. }
  unfold Design.numPages in Hpages. rewrite Hdoc in Hpages. subst result. rewrite Hdoc.
  assert (forall f, f ∈ Design.fields st ->
            0 <= Design.page f < Z.of_nat (length pages) /\
            Design.type f ∈ creatableTypes) as Hf.
  { intros f Hin. unfold Design.fields in Hin.
    apply list_elem_of_omap in Hin as (r & _ & Hr). split; [by eapply Hpages|by eapply Htypes]. }
  split.
  - apply savePDFWithFields_completes. intros f Hin. by apply Hf.
  - intros f Hin Hlib. destruct (Hf f Hin) as [Hpg Hty].
    destruct (at_index_in_range pages (Design.page f) Hpg) as [[pw ph] Hat].
    destruct (acroFieldFor_creatable (Design.page f) ph f Hty) as [a Ha].
    exists a, pw, ph.
    split; [by eapply savePDFWithFields_complete|]. split; [exact Hat|].
    by apply acroFieldFor_rect in Ha.
Qed.

(** ** Saving: the groups and the order of the pages *)

Lemma pushByPage_present p (f : Design.Field) obj :
  p ∈ obj.*1 ->
  exists o1 fs o2,
    obj = o1 ++ (p, fs) :: o2 /\ (p ∉ o1.*1) /\
    Design.pushByPage p f obj = o1 ++ (p, fs ++ [f]) :: o2.
Proof.
  induction obj as [|[k fs] obj IH]; simpl.
  - intros H. by apply not_elem_of_nil in H.
  - intros Hin. destruct (Z.eqb_spec k p) as [->|Hne].
    + exists [], fs, obj. split; [done|]. split; [apply not_elem_of_nil | done].
    + apply elem_of_cons in Hin as [->|Hin]; [done|].
      destruct (IH Hin) as (o1 & fs' & o2 & -> & Hno & ->).
      exists ((k, fs) :: o1), fs', o2. split; [done|]. split; [|done].
      simpl. apply not_elem_of_cons. auto.
Qed.

Lemma pushByPage_absent p (f : Design.Field) obj :
  p ∉ obj.*1 -> Design.pushByPage p f obj = obj ++ [(p, [f])].
Proof.
  induction obj as [|[k fs] obj IH]; simpl; [done|].
  intros Hno. apply not_elem_of_cons in Hno as [Hne Hno].
  destruct (Z.eqb_spec k p) as [->|_]; [done|]. by rewrite IH.
Qed.

Lemma filter_page_snoc k (l : list Design.Field) (f : Design.Field) :
  filter (fun g => Design.page g = k) (l ++ [f]) =
  filter (fun g => Design.page g = k) l ++ (if decide (Design.page f = k) then [f] else []).
Proof.
  rewrite filter_app, filter_cons, filter_nil.
  by destruct (decide (Design.page f = k)).
Qed.

(** X26. Before saving, the design page groups the placed fields by
    page, and the grouping is a partition that keeps the order: every
    page index is the key of at most one group, no group is empty, the
    group of a page holds exactly the placed fields of that page in the
    order of the list, and every placed field is in the group of its
    page. *)
Theorem grouping_by_page_is_a_partition (placed : list Design.Field) :
  NoDup (Design.fieldsByPage placed).*1 /\
  (forall k fs, (k, fs) ∈ Design.fieldsByPage placed ->
     fs <> [] /\ fs = filter (fun f => Design.page f = k) placed) /\
  (forall f, f ∈ placed ->
     (Design.page f, filter (fun g => Design.page g = Design.page f) placed)
       ∈ Design.fieldsByPage placed).
Proof.
  assert (NoDup (Design.fieldsByPage placed).*1 /\
          (forall k fs, (k, fs) ∈ Design.fieldsByPage placed ->
             fs <> [] /\ fs = filter (fun f => Design.page f = k) placed) /\
          (forall f, f ∈ placed -> Design.page f ∈ (Design.fieldsByPage placed).*1))
    as (Hnd & Hgroups & Hkeys).
  { unfold Design.fieldsByPage.
    induction placed as [|g placed (Hnd & Hgroups & Hkeys)] using rev_ind.
    - simpl. split; [apply NoDup_nil_2|]. split.
      + intros k fs H. by apply not_elem_of_nil in H.
      + intros f H. by apply not_elem_of_nil in H.
    - rewrite foldl_snoc.
      set (obj := foldl (fun obj f => Design.pushByPage (Design.page f) f obj) [] placed) in *.
      destruct (decide (Design.page g ∈ obj.*1)) as [Hin|Hout].
      + destruct (pushByPage_present (Design.page g) g obj Hin)
          as (o1 & fs & o2 & Hobj & Hno & ->).
        assert ((o1 ++ (Design.page g, fs ++ [g]) :: o2).*1 = obj.*1) as Hsame.
        { rewrite Hobj, !fmap_app. done. }
        assert (Design.page g ∉ o2.*1) as Hno2.
        { rewrite Hobj, fmap_app in Hnd. simpl in Hnd.
          apply NoDup_app in Hnd as (_ & _ & Hnd). by apply NoDup_cons in Hnd as []. }
        split; [by rewrite Hsame|]. split.
        * intros k fs' Hin'. rewrite filter_page_snoc.
          apply elem_of_app in Hin' as [Hin'|Hin'].
          -- assert (k <> Design.page g) as Hk.
             { intros ->. apply Hno. apply list_elem_of_fmap. by exists (Design.page g, fs'). }
             destruct (Hgroups k fs') as [Hne ->]; [rewrite Hobj; apply elem_of_app; by left|].
             split; [done|]. rewrite decide_False by done. by rewrite app_nil_r.
          -- apply elem_of_cons in Hin' as [Heq|Hin'].
             ++ injection Heq as -> ->.
                destruct (Hgroups (Design.page g) fs) as [_ ->]; [rewrite Hobj; apply elem_of_app; right; apply list_elem_of_here|].
                rewrite decide_True by done. split; [|done].
                intros H. by apply app_nil in H as [_ H].
             ++ assert (k <> Design.page g) as Hk.
                { intros ->. apply Hno2. apply list_elem_of_fmap.
                  by exists (Design.page g, fs'). }
                destruct (Hgroups k fs') as [Hne ->]; [rewrite Hobj; apply elem_of_app; right; by apply list_elem_of_further|].
                split; [done|]. rewrite decide_False by done. by rewrite app_nil_r.
        * intros f [Hf|Hf%list_elem_of_singleton]%elem_of_app; rewrite Hsame.
          -- by apply Hkeys.
          -- by subst f.
      + rewrite (pushByPage_absent _ _ _ Hout). rewrite fmap_app. simpl.
        split; [|split].
        * apply NoDup_app. split; [done|]. split; [|apply NoDup_singleton].
          intros k Hk Hk'%list_elem_of_singleton. by subst k.
        * intros k fs' Hin'. rewrite filter_page_snoc.
          apply elem_of_app in Hin' as [Hin'|Hin'%list_elem_of_singleton].
          -- assert (k <> Design.page g) as Hk.
             { intros ->. apply Hout. apply list_elem_of_fmap. by exists (Design.page g, fs'). }
             destruct (Hgroups k fs' Hin') as [Hne ->].
             split; [done|]. rewrite decide_False by done. by rewrite app_nil_r.
          -- injection Hin' as -> ->. split; [done|].
             rewrite decide_True by done.
             assert (filter (fun f => Design.page f = Design.page g) placed = []) as ->; [|done].
             destruct (filter _ placed) as [|f0 l0] eqn:E; [done|]. exfalso.
             assert (f0 ∈ filter (fun f => Design.page f = Design.page g) placed) as Hf0
               by (rewrite E; apply list_elem_of_here).
             apply list_elem_of_filter in Hf0 as [Hp Hf0].
             apply Hout. rewrite <- Hp. by apply Hkeys.
        * intros f [Hf|Hf%list_elem_of_singleton]%elem_of_app; apply elem_of_app.
          -- left. by apply Hkeys.
          -- right. subst f. apply list_elem_of_here. }
  split; [exact Hnd|]. split; [exact Hgroups|].
  intros f Hf. specialize (Hkeys f Hf).
  apply list_elem_of_fmap in Hkeys as ([k fs] & Hk & Hin). simpl in Hk. subst k.
  by destruct (Hgroups _ _ Hin) as [_ <-].
Qed.

Lemma insertEntry_sorted e l :
  StronglySorted keyOrder l -> StronglySorted keyOrder (Design.insertEntry e l).
Proof.
  induction l as [|e' l IH]; simpl; intros Hs.
  - apply SSorted_cons; [apply SSorted_nil | apply Forall_nil_2].
  - apply StronglySorted_inv in Hs as [Hs Hall].
    destruct (Z.leb_spec e.1 e'.1) as [Hle|Hgt].
    + apply SSorted_cons.
      * by apply SSorted_cons.
      * apply Forall_cons. split; [exact Hle|].
        eapply Forall_impl; [exact Hall|]. intros x Hx. unfold keyOrder in *. lia.
    + apply SSorted_cons; [by apply IH|].
      apply Forall_forall. intros x Hx. apply insertEntry_elem in Hx as [->|Hx].
      * unfold keyOrder. lia.
      * by eapply Forall_forall in Hall.
Qed.

Lemma sorted_entries_sorted l : StronglySorted keyOrder (foldr Design.insertEntry [] l).
Proof.
  induction l as [|e l IH]; simpl; [apply SSorted_nil | by apply insertEntry_sorted].
Qed.

Lemma addField_suffix libraryThrows k ph fs added :
  exists new, foldl (Design.addField libraryThrows k ph) added fs = added ++ new /\
              forall a, a ∈ new -> Design.onPage a = k.
Proof.
  revert added. induction fs as [|f fs IH]; intros added; simpl.
  - exists []. split; [by rewrite app_nil_r|]. intros a Ha. by apply not_elem_of_nil in Ha.
  - unfold Design.addField at 2.
    destruct (Design.acroFieldFor k ph f) as [b|] eqn:E; [|apply IH].
    destruct (libraryThrows added f); [apply IH|].
    destruct (IH (added ++ [b])) as (new & -> & Hnew).
    exists (b :: new). split; [by rewrite <- app_assoc|].
    intros a [->|Ha]%elem_of_cons; [|by apply Hnew].
    by apply acroFieldFor_rect in E as [-> _].
Qed.

Lemma visitPage_suffix libraryThrows pages added e :
  exists new, visitPage libraryThrows pages added e = added ++ new /\
              forall a, a ∈ new -> Design.onPage a = e.1.
Proof.
  unfold visitPage.
  assert (exists new : list Design.AcroField,
            added = added ++ new /\ forall a, a ∈ new -> Design.onPage a = e.1) as Hnone.
  { exists []. split; [by rewrite app_nil_r|]. intros a Ha. by apply not_elem_of_nil in Ha. }
  destruct (pageCount pages <=? e.1); [exact Hnone|].
  destruct (at_index pages e.1) as [[pw ph]|]; [|exact Hnone].
  apply addField_suffix.
Qed.

Lemma foldl_visitPage_sorted libraryThrows pages l added :
  StronglySorted keyOrder l ->
  StronglySorted pageOrder added ->
  (forall a e, a ∈ added -> e ∈ l -> Design.onPage a <= e.1) ->
  StronglySorted pageOrder (foldl (visitPage libraryThrows pages) added l).
Proof.
  revert added. induction l as [|e l IH]; intros added Hl Ha Hle; simpl; [done|].
  apply StronglySorted_inv in Hl as [Hl Hall].
  destruct (visitPage_suffix libraryThrows pages added e) as (new & -> & Hnew).
  apply IH; [done| |].
  - apply StronglySorted_app_2; [| done |].
    + intros a b Hain Hb. unfold pageOrder. rewrite (Hnew b Hb).
      apply Hle; [done | apply list_elem_of_here].
    + clear -Hnew. induction new as [|b new IHn]; [apply SSorted_nil|].
      apply SSorted_cons.
      * apply IHn. intros a Hain. apply Hnew. by apply list_elem_of_further.
      * apply Forall_forall. intros a Hain. unfold pageOrder.
        rewrite (Hnew b) by apply list_elem_of_here.
        rewrite (Hnew a) by (by apply list_elem_of_further). lia.
  - intros a e' [Hain|Hain]%elem_of_app He'.
    + apply Hle; [done | by apply list_elem_of_further].
    + rewrite (Hnew a Hain). by eapply Forall_forall in Hall.
Qed.

(** X27. Saving creates the form fields page by page in ascending order
    of the page index, whatever the order in which the fields were
    placed: in the sequence of created form fields no field comes before
    a field of a lower page. *)
Theorem form_fields_are_created_in_page_order
    (libraryThrows : list Design.AcroField -> Design.Field -> bool)
    (pages : list (Q * Q)) (placed : list Design.Field) :
  StronglySorted pageOrder
    (Design.addedFields (Design.savePDFWithFields libraryThrows pages placed)).
Proof.
  rewrite savePDFWithFields_added.
  apply foldl_visitPage_sorted.
  - apply sorted_entries_sorted.
  - apply SSorted_nil.
  - intros a e Ha. by apply not_elem_of_nil in Ha.
Qed.

(** ** Waiting for the libraries *)

Lemma checkLib_spec (maxAttempts : nat) (available : nat -> bool) (attempt fuel : nat) :
  (attempt < maxAttempts)%nat -> (maxAttempts - attempt <= fuel)%nat ->
  (exists k, (attempt < k <= maxAttempts)%nat /\ available k = true /\
             (forall j, (attempt < j < k)%nat -> available j = false) /\
             Design.checkLib maxAttempts available attempt fuel = Design.Resolved k) \/
  ((forall j, (attempt < j <= maxAttempts)%nat -> available j = false) /\
   Design.checkLib maxAttempts available attempt fuel = Design.Rejected maxAttempts).
Proof.
  revert attempt. induction fuel as [|fuel IH]; intros attempt Hlt Hfuel; [lia|].
  simpl. destruct (available (S attempt)) eqn:Ha.
  - left. exists (S attempt). split; [lia|]. split; [done|]. split; [|done].
    intros j Hj. lia.
  - destruct (Nat.leb_spec maxAttempts (S attempt)) as [Hmax|Hmore].
    + right. assert (S attempt = maxAttempts) as Heq by lia. split; [|by rewrite Heq].
      intros j Hj. assert (j = S attempt) as -> by lia. done.
    + destruct (IH (S attempt)) as [(k & Hk & Hav & Hbefore & Hres)|[Hnone Hres]];
        [lia | lia | |].
      * left. exists k. split; [lia|]. split; [done|]. split; [|done].
        intros j Hj. destruct (decide (j = S attempt)) as [->|Hne]; [done|].
        apply Hbefore. lia.
      * right. split; [|done]. intros j Hj.
        destruct (decide (j = S attempt)) as [->|Hne]; [done|]. apply Hnone. lia.
Qed.

(** X28. Waiting for a library ends after at most 30 checks for PDF-lib
    and 20 for PDF.js: once that many timer callbacks have run the
    promise is settled.  It is resolved at the first check that finds
    the library, a library that only appears at the last check
    included, and rejected at the last check exactly when none of the
    checks found it. *)
Theorem waiting_for_a_library_ends_within_the_attempts :
  (forall available fuel, (30 <= fuel)%nat ->
     (exists k, (1 <= k <= 30)%nat /\ available k = true /\
                (forall j, (1 <= j < k)%nat -> available j = false) /\
                Design.waitForPDFLib available fuel = Design.Resolved k) \/
     ((forall j, (1 <= j <= 30)%nat -> available j = false) /\
      Design.waitForPDFLib available fuel = Design.Rejected 30)) /\
  (forall available fuel, (20 <= fuel)%nat ->
     (exists k, (1 <= k <= 20)%nat /\ available k = true /\
                (forall j, (1 <= j < k)%nat -> available j = false) /\
                Design.waitForPDFJS available fuel = Design.Resolved k) \/
     ((forall j, (1 <= j <= 20)%nat -> available j = false) /\
      Design.waitForPDFJS available fuel = Design.Rejected 20)).
Proof.
  split; intros available fuel Hfuel.
  - destruct (checkLib_spec 30 available 0 fuel) as [(k & Hk & Hav & Hb & Hres)|[Hn Hres]];
      [lia | lia | |].
    + left. exists k. split; [lia|]. split; [done|]. split; [|done].
      intros j Hj. apply Hb. lia.
    + right. split; [|done]. intros j Hj. apply Hn. lia.
  - destruct (checkLib_spec 20 available 0 fuel) as [(k & Hk & Hav & Hb & Hres)|[Hn Hres]];
      [lia | lia | |].
    + left. exists k. split; [lia|]. split; [done|]. split; [|done].
      intros j Hj. apply Hb. lia.
    + right. split; [|done]. intros j Hj. apply Hn. lia.
Qed.

(** ** The fill page: what rendering a page does to the inputs *)



Section FillLemmas.

Variable valueAfterSet : Fill.InputType -> string -> string.










End FillLemmas.


(** ** The fill page: which fields ever get an input *)

Section FillInvariant.

Variable valueAfterSet : Fill.InputType -> string -> string.
Variable blankPad : string.









End FillInvariant.


(** ** The claims on the example states *)

Lemma one_not_zero : ~ (1 == 0)%Q.
Proof. intros H. discriminate H. Qed.

Lemma NoDup_dTwo : NoDup (Design.placedFields dTwo).
Proof.
  change (NoDup [0%nat; 1%nat]). apply NoDup_cons. split.
  - intros H%list_elem_of_singleton. discriminate H.
  - apply NoDup_singleton.
Qed.

Lemma no_hit_dTwo (i : nat) : ~ hitAt dTwo 300 80 i.
Proof.
  intros (r & f & Hi & Hf & _ & Hp).
  destruct i as [|[|i]]; simpl in Hi; [| |discriminate Hi];
    injection Hi as <-; vm_compute in Hf; injection Hf as <-;
    vm_compute in Hp; discriminate Hp.
Qed.

(** The click of [exClick] on the portfolio page at zoom 1, its overlay
    element, a field of the fill page at zoom 2, and the same click on
    the design page. *)
Lemma coordinates_stored_and_shown_witness :
  (exists f,
      Portfolio.formFields (Portfolio.handleOverlayClick exClick 1700000000000 42 pPlacing) =
        Portfolio.formFields pPlacing ++ [length (Portfolio.heap pPlacing)] /\
      Portfolio.heap (Portfolio.handleOverlayClick exClick 1700000000000 42 pPlacing)
        !! length (Portfolio.heap pPlacing) = Some f /\
      Portfolio.x f = ((clientX exClick - rectLeft exClick) / Portfolio.currentScale pPlacing)%Q /\
      Portfolio.y f = ((clientY exClick - rectTop exClick) / Portfolio.currentScale pPlacing)%Q /\
      Portfolio.currentScale (Portfolio.handleOverlayClick exClick 1700000000000 42 pPlacing) =
        Portfolio.currentScale pPlacing /\
      left (Portfolio.fieldRect (Portfolio.currentScale pPlacing) f) ==
        clientX exClick - rectLeft exClick /\
      top (Portfolio.fieldRect (Portfolio.currentScale pPlacing) f) ==
        clientY exClick - rectTop exClick) /\
  (exists f,
      Portfolio.heap pPlaced !! Portfolio.element_field pElement = Some f /\
      Portfolio.page f = 1 /\
      Portfolio.element_rect pElement =
        {| left := (Portfolio.x f * Portfolio.currentScale pPlaced)%Q;
           top := (Portfolio.y f * Portfolio.currentScale pPlaced)%Q;
           rwidth := (Portfolio.width f * Portfolio.currentScale pPlaced)%Q;
           rheight := (Portfolio.height f * Portfolio.currentScale pPlaced)%Q |}) /\
  (exists f,
      f ∈ [exFillField] /\ Fill.name f = "Text_1" /\ Fill.page f = 1 - 1 /\
      Fill.containerRect 2 exFillField =
        {| left := (Fill.x f * 2)%Q; top := (Fill.y f * 2)%Q;
           rwidth := (Fill.width f * 2)%Q; rheight := (Fill.height f * 2)%Q |}) /\
  (exists f,
      Design.placedFields (Design.canvasClick exClick (Some "name1") dArmed) =
        Design.placedFields dArmed ++ [length (Design.heap dArmed)] /\
      Design.heap (Design.canvasClick exClick (Some "name1") dArmed)
        !! length (Design.heap dArmed) = Some f /\
      Design.x f = Design.canvasX exClick dArmed /\
      Design.y f = Design.canvasY exClick dArmed /\
      left (Design.drawFieldOverlay f) = Design.canvasX exClick dArmed /\
      top (Design.drawFieldOverlay f) = Design.canvasY exClick dArmed) /\
  (exists f,
      f ∈ Design.fields dPlaced /\ Design.page f = Design.pageNum dPlaced - 1 /\
      Design.drawFieldOverlay dField =
        {| left := Design.x f; top := Design.y f;
           rwidth := Design.width f; rheight := Design.height f |}).
Proof.
  split; [|split; [|split; [|split]]].
  - apply (proj1 coordinates_stored_and_shown pPlacing exClick 1700000000000 42).
    + reflexivity.
    + reflexivity.
    + exact one_not_zero.
  - apply (proj1 (proj2 coordinates_stored_and_shown) pPlaced 1 pElement).
    apply list_elem_of_here.
  - apply (proj1 (proj2 (proj2 coordinates_stored_and_shown))
             2%Q [exFillField] 1 "Text_1" (Fill.containerRect 2 exFillField)).
    apply list_elem_of_here.
  - apply (proj1 (proj2 (proj2 (proj2 coordinates_stored_and_shown)))
             dArmed exClick (Some "name1")).
    + reflexivity.
    + reflexivity.
    + reflexivity.
    + reflexivity.
    + right. reflexivity.
  - apply (proj2 (proj2 (proj2 (proj2 coordinates_stored_and_shown))) dPlaced).
    apply list_elem_of_here.
Defined.

(** Saving the field of [dPlaced] on the example document. *)
Lemma saved_widget_is_flipped_to_pdf_space_witness :
  (exists f pw pageHeight,
      f ∈ [dField] /\
      at_index exPages (Design.page f) = Some (pw, pageHeight) /\
      Design.onPage exAcroField = Design.page f /\
      Design.partialName exAcroField = Design.name f /\
      Design.rect_x exAcroField = Design.x f /\
      Design.rect_y exAcroField = (pageHeight - Design.y f - Design.height f)%Q /\
      Design.rect_width exAcroField = Design.width f /\
      Design.rect_height exAcroField = Design.height f) /\
  (exists a,
      a ∈ Design.addedFields (Design.savePDFWithFields acceptsAll exPages [dField]) /\
      Design.onPage a = Design.page dField /\
      Design.partialName a = Design.name dField /\
      Design.rect_x a = Design.x dField /\
      Design.rect_y a = (800 - Design.y dField - Design.height dField)%Q /\
      Design.rect_width a = Design.width dField /\
      Design.rect_height a = Design.height dField).
Proof.
  split.
  - apply (proj1 (saved_widget_is_flipped_to_pdf_space acceptsAll exPages [dField])
             exAcroField).
    apply list_elem_of_here.
  - apply (proj2 (saved_widget_is_flipped_to_pdf_space acceptsAll exPages [dField])
             dField 600%Q 800%Q).
    + apply list_elem_of_here.
    + reflexivity.
    + apply list_elem_of_here.
    + reflexivity.
Defined.

(** The schema persisted for [pPlaced]. *)
Lemma saveForm_schema_entries_witness :
  (exists req, Portfolio.saveForm pPlaced = Some req) /\
  (length [Portfolio.cleanCopy pField] = length (Portfolio.fields pPlaced) /\
   forall i f,
     Portfolio.fields pPlaced !! i = Some f ->
     exists e,
       [Portfolio.cleanCopy pField] !! i = Some e /\
       (forall key, key ∈ persistedKeys ->
                    prop key e = prop key (Portfolio.descriptor f)) /\
       prop "id" e = None /\
       prop "options" e = None).
Proof.
  split.
  - apply (proj1 saveForm_schema_entries pPlaced). reflexivity.
  - apply (proj2 saveForm_schema_entries pPlaced
             {| Portfolio.file_id := "7";
                Portfolio.schema_fields := [Portfolio.cleanCopy pField] |}).
    reflexivity.
Defined.

(** The point (130, 70) lies in both fields of [dTwo], and the second
    one is found; the point (300, 80) lies in neither. *)
Lemma getFieldAtPosition_returns_the_topmost_field_witness :
  (exists j, Design.getFieldAtPosition 130 70 dTwo = Z.of_nat j /\
             hitAt dTwo 130 70 j /\
             forall i, hitAt dTwo 130 70 i -> (i <= j)%nat) /\
  Design.getFieldAtPosition 300 80 dTwo = -1.
Proof.
  split.
  - apply (proj1 (getFieldAtPosition_returns_the_topmost_field dTwo 130 70 NoDup_dTwo)).
    exists 0%nat, 0%nat. eexists. split; [reflexivity|]. split; [reflexivity|].
    split; reflexivity.
  - apply (proj2 (getFieldAtPosition_returns_the_topmost_field dTwo 300 80 NoDup_dTwo)).
    apply no_hit_dTwo.
Defined.

(** A click before any toolbar button was pressed. *)
Lemma click_outside_placing_mode_changes_nothing_witness :
  Portfolio.handleOverlayClick exClick 1700000000000 42 pStart = pStart /\
  Design.canvasClick exClick (Some "name1") dStart = dStart.
Proof.
  split.
  - apply (proj1 click_outside_placing_mode_changes_nothing). left. reflexivity.
  - apply (proj2 click_outside_placing_mode_changes_nothing). reflexivity.
Defined.

(** The invariants on the states reached by placing and copying fields,
    and the type of a field after a rename and after a move. *)
Lemma field_types_stay_in_the_data_model_witness :
  pInv pPlaced /\ dInv dSecondPage /\
  (exists f', Portfolio.heap (Portfolio.step pPlaced (Portfolio.PropertyChange (Some "n") None None))
                !! 0%nat = Some f' /\
              Portfolio.type f' = Portfolio.type pField) /\
  (exists f', Design.heap (Design.step dPlaced (Design.KeyDown "arrowright" false false))
                !! 0%nat = Some f' /\
              Design.type f' = Design.type dField).
Proof.
  split; [|split; [|split]].
  - apply (proj1 field_types_stay_in_the_data_model pPlacing).
    apply (proj1 field_types_stay_in_the_data_model pStart).
    apply pInv_initial.
  - apply (proj1 (proj2 field_types_stay_in_the_data_model) dCopied).
    apply (proj1 (proj2 field_types_stay_in_the_data_model) dPlaced).
    apply (proj1 (proj2 field_types_stay_in_the_data_model) dArmed).
    apply (proj1 (proj2 field_types_stay_in_the_data_model) dStart).
    apply dInv_loaded.
  - apply (proj1 (proj2 (proj2 (proj2 field_types_stay_in_the_data_model)))
             pPlaced _ 0%nat pField).
    reflexivity.
  - apply (proj2 (proj2 (proj2 (proj2 field_types_stay_in_the_data_model)))
             dPlaced _ 0%nat dField).
    reflexivity.
Defined.

(** A drag and a move keep the page; the placed field is on the current
    page; the copied field is on page index 0 and, pasted on the second
    page, the copy is on page index 1. *)
Lemma page_is_set_at_creation_and_kept_witness :
  (exists f', Portfolio.heap (Portfolio.step pPlaced (Portfolio.OverlayMouseMove exMove))
                !! 0%nat = Some f' /\
              Portfolio.page f' = Portfolio.page pField) /\
  Portfolio.page pField = Portfolio.currentPage pPlacing /\
  (exists f', Design.heap (Design.step dPlaced (Design.KeyDown "arrowright" false false))
                !! 0%nat = Some f' /\
              Design.page f' = Design.page dField) /\
  Design.page (Design.pastedField dField 2) = Design.pageNum dSecondPage - 1.
Proof.
  split; [|split; [|split]].
  - apply (proj1 page_is_set_at_creation_and_kept pPlaced _ 0%nat pField).
    reflexivity.
  - apply (proj1 (proj2 page_is_set_at_creation_and_kept) pPlacing
             (Portfolio.OverlayClick exClick 1700000000000 42) 0%nat pField);
      reflexivity.
  - apply (proj1 (proj2 (proj2 page_is_set_at_creation_and_kept))
             dPlaced _ 0%nat dField).
    reflexivity.
  - apply (proj1 (proj2 (proj2 (proj2 page_is_set_at_creation_and_kept)))
             dSecondPage (Design.KeyDown "v" true false) 2%nat
             (Design.pastedField dField 2));
      reflexivity.
Defined.

(** Saving [exPlaced]: the field on page index 0 is added, the field on
    page index 5 is not, and the loop completes. *)
Lemma fields_beyond_the_last_page_are_skipped_witness :
  (0 <= Design.onPage exAcroField < pageCount exPages) /\
  (exAcroField ∈
     Design.addedFields (Design.savePDFWithFields acceptsAll exPages exPlaced)) /\
  (forall a,
      Design.acroFieldFor 5 800 (Design.with_page 5 dField) = Some a ->
      a ∉ Design.addedFields (Design.savePDFWithFields acceptsAll exPages exPlaced)) /\
  Design.savePDFWithFields acceptsAll exPages exPlaced =
    Design.Completed
      (Design.addedFields (Design.savePDFWithFields acceptsAll exPages exPlaced)).
Proof.
  pose proof (fields_beyond_the_last_page_are_skipped acceptsAll exPages exPlaced)
    as (Hrange & Hskip & Hin & Hok).
  assert (exAcroField ∈
            Design.addedFields (Design.savePDFWithFields acceptsAll exPages exPlaced))
    as Hadded.
  { apply (Hin dField 600%Q 800%Q exAcroField).
    - apply list_elem_of_here.
    - simpl. unfold pageCount. simpl. lia.
    - reflexivity.
    - reflexivity.
    - reflexivity. }
  split; [exact (Hrange exAcroField Hadded)|]. split; [exact Hadded|]. split.
  - intros a Ha. apply (Hskip (Design.with_page 5 dField) 800%Q a).
    + apply list_elem_of_further, list_elem_of_here.
    + unfold pageCount. simpl. lia.
    + exact Ha.
  - apply Hok. intros f Hf. apply list_elem_of_In in Hf. simpl in Hf.
    destruct Hf as [<-|[<-|[]]]; simpl; lia.
Defined.

(** Deleting with no field selected, and deleting the field of
    [pPlaced]. *)
Lemma deleteSelectedField_removes_only_the_active_field_witness :
  Portfolio.deleteSelectedField pStart = pStart /\
  (Portfolio.heap (Portfolio.deleteSelectedField pPlaced) = Portfolio.heap pPlaced /\
   ((exists l1 r l2,
        Portfolio.formFields pPlaced = l1 ++ r :: l2 /\
        Portfolio.id_is pPlaced (Portfolio.id pField) r = true /\
        (forall r', r' ∈ l1 -> Portfolio.id_is pPlaced (Portfolio.id pField) r' = false) /\
        Portfolio.formFields (Portfolio.deleteSelectedField pPlaced) = l1 ++ l2) \/
    ((forall r, r ∈ Portfolio.formFields pPlaced ->
                Portfolio.id_is pPlaced (Portfolio.id pField) r = false) /\
     Portfolio.formFields (Portfolio.deleteSelectedField pPlaced) =
       Portfolio.formFields pPlaced))) /\
  (Portfolio.heap (Portfolio.deleteSelectedField pPlaced) = Portfolio.heap pPlaced /\
   Portfolio.formFields (Portfolio.deleteSelectedField pPlaced) = [] ++ [] /\
   Portfolio.fields (Portfolio.deleteSelectedField pPlaced) =
     omap (fun r => Portfolio.heap pPlaced !! r) ([] ++ [])).
Proof.
  split; [|split].
  - apply (proj1 deleteSelectedField_removes_only_the_active_field). reflexivity.
  - apply (proj1 (proj2 deleteSelectedField_removes_only_the_active_field)
             pPlaced 0%nat pField); reflexivity.
  - apply (proj2 (proj2 deleteSelectedField_removes_only_the_active_field)
             pPlaced 0%nat pField [] []).
    + reflexivity.
    + reflexivity.
    + reflexivity.
    + intros r Hr. by apply not_elem_of_nil in Hr.
Defined.

(** ** The further properties on the example states *)

Lemma placing_flag_agrees_with_selected_type_witness :
  (pModeOk (Portfolio.run pStart [Portfolio.ToolbarButton 0]) /\
   Portfolio.isPlacingField (Portfolio.run pStart [Portfolio.ToolbarButton 0]) =
     truthy (Portfolio.fieldTypeToAdd (Portfolio.run pStart [Portfolio.ToolbarButton 0]))) /\
  (Portfolio.isPlacingField (Portfolio.step pStart (Portfolio.ToolbarButton 0)) = true /\
   Portfolio.fieldTypeToAdd (Portfolio.step pStart (Portfolio.ToolbarButton 0)) = Some "text") /\
  (Portfolio.isPlacingField (Portfolio.step pPlacing (Portfolio.ToolbarButton 0)) = false /\
   Portfolio.fieldTypeToAdd (Portfolio.step pPlacing (Portfolio.ToolbarButton 0)) = None).
Proof.
  split; [|split].
  - apply (proj1 placing_flag_agrees_with_selected_type). right. split; reflexivity.
  - apply (proj2 (proj2 placing_flag_agrees_with_selected_type pStart 0%nat "text"
                    {| Portfolio.label := "Text Input"; Portfolio.icon := "edit";
                       Portfolio.defaultHeight := 40; Portfolio.defaultWidth := 200 |}
                    eq_refl)).
    discriminate.
  - apply (proj1 (proj2 placing_flag_agrees_with_selected_type pPlacing 0%nat "text"
                    {| Portfolio.label := "Text Input"; Portfolio.icon := "edit";
                       Portfolio.defaultHeight := 40; Portfolio.defaultWidth := 200 |}
                    eq_refl)).
    reflexivity.
Defined.

Lemma a_click_places_one_field_and_leaves_placing_mode_witness :
  Portfolio.formFields (Portfolio.handleOverlayClick exClick 1700000000000 42 pPlacing) =
    Portfolio.formFields pPlacing ++ [length (Portfolio.heap pPlacing)] /\
  length (Portfolio.heap (Portfolio.handleOverlayClick exClick 1700000000000 42 pPlacing)) =
    S (length (Portfolio.heap pPlacing)) /\
  Portfolio.activeField (Portfolio.handleOverlayClick exClick 1700000000000 42 pPlacing) =
    Some (length (Portfolio.heap pPlacing)) /\
  Portfolio.isPlacingField (Portfolio.handleOverlayClick exClick 1700000000000 42 pPlacing) =
    false /\
  Portfolio.fieldTypeToAdd (Portfolio.handleOverlayClick exClick 1700000000000 42 pPlacing) =
    None.
Proof.
  apply (proj2 a_click_places_one_field_and_leaves_placing_mode
           pPlacing exClick 1700000000000 42); reflexivity.
Defined.

Lemma zoom_scale_stays_above_a_tenth_witness :
  (1 # 10 < Portfolio.currentScale (Portfolio.run pStart (replicate 8 Portfolio.ZoomOut)))%Q /\
  Portfolio.zoomOut pSmall = pSmall.
Proof.
  split.
  - apply (proj1 zoom_scale_stays_above_a_tenth pStart). reflexivity.
  - apply (proj2 zoom_scale_stays_above_a_tenth pSmall). vm_compute. discriminate.
Defined.

Lemma pages_stay_within_the_document_witness :
  pPagesOk (Portfolio.run pPlaced [Portfolio.NextPage; Portfolio.NextPage]) /\
  Portfolio.totalPages (Portfolio.run pPlaced [Portfolio.NextPage; Portfolio.NextPage]) =
    Portfolio.totalPages pPlaced.
Proof.
  apply (pages_stay_within_the_document pPlaced). split.
  - vm_compute. split; discriminate.
  - intros [|r] f Hf.
    + injection Hf as <-. vm_compute. split; discriminate.
    + discriminate Hf.
Defined.

Lemma a_drag_depends_only_on_the_pointer_positions_witness :
  (exists f2,
      Portfolio.heap (Portfolio.handleOverlayMouseMove exClick2
                        (Portfolio.handleOverlayMouseMove exMove pDragging)) !! 0%nat =
        Some f2 /\
      Portfolio.x f2 ==
        Portfolio.x pField +
        (clientX exClick2 - Portfolio.startX pDragging) / Portfolio.currentScale pDragging /\
      Portfolio.y f2 ==
        Portfolio.y pField +
        (clientY exClick2 - Portfolio.startY pDragging) / Portfolio.currentScale pDragging) /\
  Portfolio.handleOverlayMouseMove exMove pPlaced = pPlaced.
Proof.
  split.
  - destruct (proj1 a_drag_depends_only_on_the_pointer_positions
                pDragging 0%nat pField exMove exClick2 eq_refl eq_refl eq_refl)
      as (f2 & H1 & H2 & H3 & _).
    exists f2. split; [exact H1|]. split; [exact H2 | exact H3].
  - apply (proj1 (proj2 a_drag_depends_only_on_the_pointer_positions)). reflexivity.
Defined.

Lemma list_and_selection_stay_consistent_witness :
  pWf (Portfolio.run pPlaced [Portfolio.DeleteButton]) /\
  forall a, Portfolio.activeField (Portfolio.run pPlaced [Portfolio.DeleteButton]) = Some a ->
    exists i f,
      Portfolio.formFields (Portfolio.run pPlaced [Portfolio.DeleteButton]) !! i = Some a /\
      Portfolio.heap (Portfolio.run pPlaced [Portfolio.DeleteButton]) !! a = Some f.
Proof.
  apply (proj2 list_and_selection_stay_consistent pPlaced). split.
  - intros r Hr. apply list_elem_of_singleton in Hr. subst r. vm_compute. lia.
  - intros a Ha. injection Ha as <-. apply list_elem_of_here.
Defined.

Lemma deleting_the_field_just_placed_restores_the_list_witness :
  Portfolio.formFields
    (Portfolio.deleteSelectedField
       (Portfolio.handleOverlayClick exClick2 1700000000001 7 pPlacingAgain)) =
    Portfolio.formFields pPlacingAgain /\
  Portfolio.activeField
    (Portfolio.deleteSelectedField
       (Portfolio.handleOverlayClick exClick2 1700000000001 7 pPlacingAgain)) = None.
Proof.
  destruct (deleting_the_field_just_placed_restores_the_list
              pPlacingAgain exClick2 1700000000001 7) as (H1 & H2 & _).
  - reflexivity.
  - reflexivity.
  - intros r Hr. apply list_elem_of_singleton in Hr. subst r. vm_compute. lia.
  - intros r Hr. apply list_elem_of_singleton in Hr. subst r. reflexivity.
  - split; [exact H1 | exact H2].
Defined.

Lemma property_change_edits_only_the_active_field_witness :
  (exists f',
     Portfolio.heap (Portfolio.updateSelectedField (Some "Total") (Some true) None pPlaced)
       !! 0%nat = Some f' /\
     Portfolio.name f' = "Total" /\ Portfolio.required f' = true /\
     Portfolio.read_only f' = false /\ Portfolio.id f' = Portfolio.id pField) /\
  Portfolio.formFields (Portfolio.updateSelectedField (Some "Total") (Some true) None pPlaced) =
    Portfolio.formFields pPlaced.
Proof.
  destruct (proj2 property_change_edits_only_the_active_field
              pPlaced 0%nat pField (Some "Total") (Some true) None eq_refl eq_refl)
    as ((f' & H1 & H2 & H3 & H4 & H5 & _) & _ & _ & _ & Hlist).
  split.
  - exists f'. repeat split; assumption.
  - apply (Hlist [] []); [reflexivity|].
    intros r Hr. by apply not_elem_of_nil in Hr.
Defined.

Lemma pressing_a_field_element_starts_a_drag_witness :
  Portfolio.isDragging
    (Portfolio.handleOverlayMouseDown (Some "field_1700000000000_42") exClick pPlaced) = true /\
  Portfolio.activeField
    (Portfolio.handleOverlayMouseDown (Some "field_1700000000000_42") exClick pPlaced) =
    Some 0%nat /\
  Portfolio.activeField
    (Portfolio.handleOverlayMouseDown (Some "undefined") exClick pPlaced) =
    Portfolio.activeField pPlaced.
Proof.
  destruct (proj1 pressing_a_field_element_starts_a_drag
              pPlaced "field_1700000000000_42" exClick) as (H1 & _ & _ & _ & _ & H2 & _).
  destruct (proj1 pressing_a_field_element_starts_a_drag
              pPlaced "undefined" exClick) as (_ & _ & _ & _ & _ & _ & H3).
  split; [exact H1|]. split.
  - apply (H2 [] 0%nat []); [reflexivity | reflexivity |].
    intros b Hb. by apply not_elem_of_nil in Hb.
  - apply H3. intros r Hr. apply list_elem_of_singleton in Hr. subst r. reflexivity.
Defined.

Lemma fields_without_id_cannot_be_told_apart_witness :
  (exists el, el ∈ Portfolio.renderFormFields pLoaded (Portfolio.page pSaved2) /\
              Portfolio.element_field el = 1%nat /\
              Portfolio.data_field_id el = "undefined") /\
  (exists l1 r0 l2,
     Portfolio.formFields pLoaded = l1 ++ r0 :: l2 /\
     Portfolio.id_is pLoaded None r0 = true /\
     (forall b, b ∈ l1 -> Portfolio.id_is pLoaded None b = false) /\
     Portfolio.activeField
       (Portfolio.step pLoaded (Portfolio.FieldElementClick (Portfolio.id pSaved2))) =
       Some r0) /\
  (forall e,
     (forall r', r' ∈ Portfolio.formFields pLoaded ->
                 Portfolio.id_is pLoaded (Some "undefined") r' = false) ->
     let st' := Portfolio.step pLoaded (Portfolio.OverlayMouseDown (Some "undefined") e) in
     Portfolio.activeField st' = Portfolio.activeField pLoaded /\
     Portfolio.isDragging st' = true).
Proof.
  apply (fields_without_id_cannot_be_told_apart pLoaded 1%nat pSaved2).
  - apply list_elem_of_further, list_elem_of_here.
  - reflexivity.
  - reflexivity.
Defined.

Lemma every_listed_field_is_shown_on_its_page_witness :
  exists f,
    Portfolio.heap (Portfolio.run pPlaced [Portfolio.NextPage]) !! 0%nat = Some f /\
    1 <= Portfolio.page f <= Portfolio.totalPages (Portfolio.run pPlaced [Portfolio.NextPage]) /\
    forall p,
      (exists el, el ∈ Portfolio.renderFormFields
                         (Portfolio.run pPlaced [Portfolio.NextPage]) p /\
                  Portfolio.element_field el = 0%nat) <->
      p = Portfolio.page f.
Proof.
  apply (every_listed_field_is_shown_on_its_page pPlaced [Portfolio.NextPage]).
  - split.
    + intros r Hr. apply list_elem_of_singleton in Hr. subst r. vm_compute. lia.
    + intros a Ha. injection Ha as <-. apply list_elem_of_here.
  - split.
    + vm_compute. split; discriminate.
    + intros [|r] f Hf.
      * injection Hf as <-. vm_compute. split; discriminate.
      * discriminate Hf.
  - apply list_elem_of_here.
Defined.

Lemma no_hit_without_fields st px py (i : nat) :
  Design.placedFields st = [] -> ~ hitAt st px py i.
Proof. intros Hl (r & f & Hi & _). rewrite Hl in Hi. by rewrite lookup_nil in Hi. Qed.

Lemma hit_dArmedAgain :
  hitAt dArmedAgain (Design.canvasX exClick dArmedAgain) (Design.canvasY exClick dArmedAgain)
    0%nat.
Proof.
  exists 0%nat, dField. split; [reflexivity|]. split; [reflexivity|].
  split; [reflexivity|]. vm_compute. reflexivity.
Qed.

Lemma no_hit_second_click (i : nat) :
  let st1 := Design.step (Design.canvasClick exClick (Some "name1") dArmed)
               (Design.ToolbarButton Design.addTextBox) in
  ~ hitAt st1 (Design.canvasX exClick2 st1) (Design.canvasY exClick2 st1) i.
Proof.
  intros st1 (r & f & Hi & Hf & _ & Hp).
  destruct i as [|i]; simpl in Hi; [|discriminate Hi].
  injection Hi as <-. vm_compute in Hf. injection Hf as <-.
  vm_compute in Hp. discriminate Hp.
Qed.

Lemma no_hit_far (i : nat) :
  ~ hitAt dPlaced (Design.canvasX exPressFar dPlaced) (Design.canvasY exPressFar dPlaced) i.
Proof.
  intros (r & f & Hi & Hf & _ & Hp).
  destruct i as [|i]; simpl in Hi; [|discriminate Hi].
  injection Hi as <-. vm_compute in Hf. injection Hf as <-.
  vm_compute in Hp. discriminate Hp.
Qed.



Lemma dSizeOk_dPlaced : dSizeOk dPlaced.
Proof.
  split.
  - intros [|r] f Hf; [|discriminate Hf]. injection Hf as <-.
    split; apply Qle_bool_iff; reflexivity.
  - intros c Hc. discriminate Hc.
Qed.

Lemma dPagesOk_dPlaced : dPagesOk dPlaced.
Proof.
  split.
  - vm_compute. split; discriminate.
  - intros [|r] f Hf; [|discriminate Hf]. injection Hf as <-.
    vm_compute. split; [discriminate | reflexivity].
Qed.

Lemma selecting_a_field_deselects_the_others_witness :
  Design.placedFields (Design.selectField 0 dTwo) = Design.placedFields dTwo /\
  Design.boundField (Design.panel (Design.selectField 0 dTwo)) = Some 0%nat /\
  Design.selectField 5 dTwo = dTwo.
Proof.
  destruct (proj1 selecting_a_field_deselects_the_others dTwo 0%nat 0%nat
              (Design.with_selected false dField) NoDup_dTwo eq_refl eq_refl)
    as (H1 & _ & _ & H4).
  split; [exact H1|]. split.
  - exact (f_equal Design.boundField H4).
  - apply (proj2 selecting_a_field_deselects_the_others). right. vm_compute. discriminate.
Defined.

Lemma a_click_on_a_field_selects_it_and_places_nothing_witness :
  Design.placedFields (Design.canvasClick exClick None dArmedAgain) =
    Design.placedFields dArmedAgain /\
  Design.currentFieldType (Design.canvasClick exClick None dArmedAgain) =
    Design.currentFieldType dArmedAgain.
Proof.
  destruct (a_click_on_a_field_selects_it_and_places_nothing dArmedAgain exClick None 0%nat
              eq_refl eq_refl eq_refl hit_dArmedAgain) as (H1 & _ & H3 & _).
  split; [exact H1 | exact H3].
Defined.

Lemma a_click_on_free_space_places_a_named_field_witness :
  Design.placedFields (Design.canvasClick exClick (Some "name1") dArmed) =
    Design.placedFields dArmed ++ [length (Design.heap dArmed)] /\
  Design.currentFieldType (Design.canvasClick exClick (Some "name1") dArmed) = None /\
  Design.fieldNameInput (Design.panel (Design.canvasClick exClick (Some "name1") dArmed)) =
    "name1" /\
  Design.canvasClick exClick None dArmed = dArmed.
Proof.
  destruct (proj1 a_click_on_free_space_places_a_named_field dArmed exClick (Some "name1")
              "text" "name1" eq_refl eq_refl eq_refl ltac:(discriminate)
              (fun i => no_hit_without_fields dArmed _ _ i eq_refl) eq_refl
              ltac:(discriminate))
    as (H1 & _ & _ & H4 & H5 & _).
  split; [exact H1|]. split; [exact H4|]. split; [exact H5|].
  apply (proj2 a_click_on_free_space_places_a_named_field dArmed exClick None).
  - intros i. by apply no_hit_without_fields.
  - reflexivity.
  - reflexivity.
Defined.

Lemma fields_placed_in_a_row_share_their_name_witness :
  exists f1 f2,
    Design.heap dTwo !! length (Design.heap dArmed) = Some f1 /\
    Design.heap dTwo !! S (length (Design.heap dArmed)) = Some f2 /\
    Design.name f1 = "name1" /\ Design.name f2 = "name1" /\
    Design.type f1 = "text" /\ Design.type f2 = Design.buttonType Design.addTextBox.
Proof.
  apply (fields_placed_in_a_row_share_their_name dArmed exClick exClick2 (Some "name1") None
           "text" "name1" Design.addTextBox eq_refl eq_refl eq_refl ltac:(discriminate)
           (fun i => no_hit_without_fields dArmed _ _ i eq_refl) eq_refl
           ltac:(discriminate) no_hit_second_click).
Defined.

Lemma every_field_is_at_least_20_by_20_witness :
  dSizeOk (Design.run dPlaced [Design.CanvasMouseDown exPressEdge; Design.CanvasMouseMove exPress]).
Proof.
  apply (proj2 every_field_is_at_least_20_by_20 dPlaced). exact dSizeOk_dPlaced.
Defined.

Lemma a_resize_is_computed_from_the_recorded_geometry_witness :
  Design.x (Design.resized (Design.drag dResizing)
              (Design.canvasX exPress (Design.canvasMouseMove exMove dResizing) -
               Design.startX (Design.drag dResizing))
              (Design.canvasY exPress (Design.canvasMouseMove exMove dResizing) -
               Design.startY (Design.drag dResizing)) dField) = Design.x dField /\
  (20 <= Design.width
           (Design.resized (Design.drag dResizing)
              (Design.canvasX exPress (Design.canvasMouseMove exMove dResizing) -
               Design.startX (Design.drag dResizing))
              (Design.canvasY exPress (Design.canvasMouseMove exMove dResizing) -
               Design.startY (Design.drag dResizing)) dField))%Q.
Proof.
  destruct (a_resize_is_computed_from_the_recorded_geometry dResizing 0%nat 0%nat dField
              exMove exPress eq_refl eq_refl eq_refl eq_refl) as (_ & He & _).
  apply He. reflexivity.
Defined.

Lemma a_drag_is_computed_from_the_recorded_position_witness :
  exists f2,
    Design.heap (Design.canvasMouseMove exPress (Design.canvasMouseMove exMove dDragging))
      !! 0%nat = Some f2 /\
    Design.x f2 == Design.originalX (Design.drag dDragging) /\
    Design.y f2 == Design.originalY (Design.drag dDragging).
Proof.
  destruct (a_drag_is_computed_from_the_recorded_position dDragging 0%nat 0%nat dField
              exMove exPress eq_refl eq_refl eq_refl eq_refl eq_refl) as (_ & Hback & _).
  apply Hback; reflexivity.
Defined.

Lemma pressing_empty_space_deselects_and_unbinds_the_panel_witness :
  Design.panel (Design.canvasMouseDown exPressFar dPlaced) = Design.emptyPanel /\
  Design.canvasMouseDown exPress dArmed = dArmed.
Proof.
  destruct (proj1 pressing_empty_space_deselects_and_unbinds_the_panel dPlaced exPressFar
              eq_refl no_hit_far) as (_ & _ & _ & _ & H5 & _).
  split; [exact H5|].
  apply (proj2 pressing_empty_space_deselects_and_unbinds_the_panel). reflexivity.
Defined.

Lemma keys_are_ignored_without_fields_or_selection_witness :
  Design.keyDown "v" true false dStart = dStart /\
  Design.keyDown "delete" false false dDeselected = dDeselected.
Proof.
  split.
  - apply (proj1 keys_are_ignored_without_fields_or_selection).
    intros r Hr. by apply not_elem_of_nil in Hr.
  - apply (proj2 keys_are_ignored_without_fields_or_selection).
    + intros r Hr. apply list_elem_of_singleton in Hr. subst r. reflexivity.
    + discriminate.
Defined.

Lemma the_delete_key_removes_the_first_selected_field_witness :
  Design.placedFields (Design.keyDown "delete" false false dPlaced) = [] ++ [] /\
  Design.heap (Design.keyDown "delete" false false dPlaced) = Design.heap dPlaced.
Proof.
  destruct (the_delete_key_removes_the_first_selected_field dPlaced "delete" false false
              0%nat 0%nat [] [] (or_introl eq_refl) (list_elem_of_here _ _) eq_refl eq_refl
              eq_refl (fun b Hb => False_ind _ (not_elem_of_nil b Hb)))
    as (H1 & H2 & _).
  split; [exact H1 | exact H2].
Defined.



Lemma the_design_page_stays_within_the_document_witness :
  (Design.pdfDoc (Design.run (Design.renderPage 1 (Design.initial exPages))
                    [Design.NextPage; Design.NextPage]) = exPages /\
   1 <= Design.pageNum (Design.run (Design.renderPage 1 (Design.initial exPages))
                          [Design.NextPage; Design.NextPage]) <= pageCount exPages) /\
  dPagesOk (Design.run dPlaced [Design.NextPage; Design.NextPage]).
Proof.
  split.
  - destruct (proj1 the_design_page_stays_within_the_document exPages
                [Design.NextPage; Design.NextPage] ltac:(discriminate)) as (H1 & H2 & _).
    split; [exact H1 | exact H2].
  - apply (proj2 the_design_page_stays_within_the_document dPlaced). exact dPagesOk_dPlaced.
Defined.

Lemma every_field_placed_in_the_editor_is_saved_witness :
  Design.savePDFWithFields acceptsAll (Design.pdfDoc dPlaced) (Design.fields dPlaced) =
  Design.Completed
    (Design.addedFields
       (Design.savePDFWithFields acceptsAll (Design.pdfDoc dPlaced) (Design.fields dPlaced))).
Proof.
  apply (every_field_placed_in_the_editor_is_saved acceptsAll exPages
           [Design.ToolbarButton Design.addTextBox; Design.CanvasClick exClick (Some "name1")]).
  discriminate.
Defined.

Lemma grouping_by_page_is_a_partition_witness :
  [dField] <> [] /\
  [dField] = filter (fun f => Design.page f = 0) exPlaced.
Proof.
  apply (proj1 (proj2 (grouping_by_page_is_a_partition exPlaced)) 0 [dField]).
  apply list_elem_of_here.
Defined.

Lemma waiting_for_a_library_ends_within_the_attempts_witness :
  (exists k, (1 <= k <= 30)%nat /\ exAvailable k = true /\
             (forall j, (1 <= j < k)%nat -> exAvailable j = false) /\
             Design.waitForPDFLib exAvailable 30 = Design.Resolved k) \/
  ((forall j, (1 <= j <= 30)%nat -> exAvailable j = false) /\
   Design.waitForPDFLib exAvailable 30 = Design.Rejected 30).
Proof.
  apply (proj1 waiting_for_a_library_ends_within_the_attempts exAvailable 30%nat). lia.
Defined.



